(** * vprompt: the multi-line prompt model of [vibe-prompt.go]

    A shallow embedding of the editing, autocompletion and history state
    machine of [PromptModel], and the properties of it that the
    specification states.

    Conventions of the embedding.
    - A Go [string] is its sequence of bytes, [list byte]; [len] is the byte
      length and [s[a:b]] slices bytes.
    - A [rune] is an [int32], modelled as [Z]; [[]rune(s)] and [string(rs)]
      are the UTF-8 conversions of the Go runtime, written out below.
    - A Go [int] is modelled as [Z].  Every integer the model stores is
      bounded by the length of a slice or of a string in the states the
      theorems consider, so the 64-bit wrap-around is never reached and is
      not written.
    - A run-time panic (index or slice out of range, call of a nil function
      value) is [None].
    - The host callbacks are function values of the configuration; the calls
      of the two side-effecting ones (suggestion provider and executor) are
      recorded in the list of calls an operation returns. *)

From Stdlib Require Import ZArith Lia Bool.
From Stdlib Require Import Strings.Byte Strings.String.
From stdpp Require Import base decidable option list.

Local Open Scope Z_scope.

(** ** Go values: bytes, strings, runes, slices *)

Module Go.

Abbreviation gostring := (list byte).
Abbreviation rune := Z.

(** A string literal of the source. *)
Definition str (s : string) : gostring := list_byte_of_string s.

Definition len {A} (l : list A) : Z := Z.of_nat (length l).

(** [uint8] value of a byte, and the truncating conversion [byte(x)]. *)
Definition byteZ (b : byte) : Z := Z.of_N (Byte.to_N b).

Definition zbyte (z : Z) : byte :=
  match Byte.of_N (Z.to_N (z mod 256)) with
  | Some b => b
  | None => x00
  end.

#[global] Instance byte_eq_dec : EqDecision byte.
Proof.
  intros a b. destruct (N.eq_dec (Byte.to_N a) (Byte.to_N b)) as [E | E].
  - left. apply (f_equal Byte.of_N) in E. rewrite !Byte.of_to_N in E.
    injection E as E. exact E.
  - right. intros ->. apply E. reflexivity.
Defined.

(** [l[i]]: panics outside [0 <= i < len(l)]. *)
Definition index {A} (l : list A) (i : Z) : option A :=
  if i <? 0 then None else l !! Z.to_nat i.

(** [l[i] = v]. *)
Definition setIndex {A} (l : list A) (i : Z) (v : A) : option (list A) :=
  if (0 <=? i) && (i <? len l) then Some (<[Z.to_nat i := v]> l) else None.

(** [l[lo:hi]]: panics unless [0 <= lo <= hi <= len(l)]. *)
Definition slice {A} (l : list A) (lo hi : Z) : option (list A) :=
  if (0 <=? lo) && (lo <=? hi) && (hi <=? len l)
  then Some (take (Z.to_nat (hi - lo)) (drop (Z.to_nat lo) l))
  else None.

(** [l[:hi]] and [l[lo:]]. *)
Definition sliceTo {A} (l : list A) (hi : Z) : option (list A) := slice l 0 hi.
Definition sliceFrom {A} (l : list A) (lo : Z) : option (list A) :=
  slice l lo (len l).

(** Call of a function value that may be nil. *)
Definition callFn {A B} (f : option (A -> B)) (a : A) : option B :=
  g ← f; Some (g a).

(** *** UTF-8, as in the Go runtime ([runtime/utf8.go]) *)

Definition runeError : rune := 0xFFFD.
Definition runeSelf : Z := 0x80.
Definition maxRune : rune := 0x10FFFF.
Definition surrogateMin : rune := 0xD800.
Definition surrogateMax : rune := 0xDFFF.
Definition rune1Max : rune := 0x7F.
Definition rune2Max : rune := 0x7FF.
Definition rune3Max : rune := 0xFFFF.

Definition t2 : Z := 0xC0.
Definition t3 : Z := 0xE0.
Definition t4 : Z := 0xF0.
Definition t5 : Z := 0xF8.
Definition tx : Z := 0x80.
Definition maskx : Z := 0x3F.
Definition mask2 : Z := 0x1F.
Definition mask3 : Z := 0x0F.
Definition mask4 : Z := 0x07.
Definition locb : Z := 0x80.
Definition hicb : Z := 0xBF.

(** [uint32(r)] of an [int32]. *)
Definition uint32 (r : rune) : Z := r mod 2 ^ 32.

(** [encoderune]: the bytes [string(rune)] appends for one rune. *)
Definition encoderune (r : rune) : gostring :=
  let i := uint32 r in
  if i <=? rune1Max then [zbyte r]
  else if i <=? rune2Max then
    [zbyte (Z.lor t2 (Z.shiftr r 6));
     zbyte (Z.lor tx (Z.land r maskx))]
  else
    let three (r : rune) :=
      [zbyte (Z.lor t3 (Z.shiftr r 12));
       zbyte (Z.lor tx (Z.land (Z.shiftr r 6) maskx));
       zbyte (Z.lor tx (Z.land r maskx))] in
    if (maxRune <? i) || ((surrogateMin <=? i) && (i <=? surrogateMax))
    then three runeError
    else if i <=? rune3Max then three r
    else
      [zbyte (Z.lor t4 (Z.shiftr r 18));
       zbyte (Z.lor tx (Z.land (Z.shiftr r 12) maskx));
       zbyte (Z.lor tx (Z.land (Z.shiftr r 6) maskx));
       zbyte (Z.lor tx (Z.land r maskx))].

(** [string(rs)] for a rune slice. *)
Definition runesToString (rs : list rune) : gostring :=
  concat (map encoderune rs).

Definition isCont (b : byte) : bool := (locb <=? byteZ b) && (byteZ b <=? hicb).

(** [decoderune] on the bytes from the current position on: the rune and
    the number of bytes it takes.  An invalid or short sequence is
    [runeError] of width 1. *)
Definition decoderune (s : gostring) : rune * nat :=
  match s with
  | [] => (runeError, 1%nat)
  | b0 :: s1 =>
    let c0 := byteZ b0 in
    if (t2 <=? c0) && (c0 <? t3) then
      match s1 with
      | b1 :: _ =>
        let r := Z.lor (Z.shiftl (Z.land c0 mask2) 6) (Z.land (byteZ b1) maskx) in
        if isCont b1 && (rune1Max <? r) then (r, 2%nat) else (runeError, 1%nat)
      | _ => (runeError, 1%nat)
      end
    else if (t3 <=? c0) && (c0 <? t4) then
      match s1 with
      | b1 :: b2 :: _ =>
        let r := Z.lor (Z.lor (Z.shiftl (Z.land c0 mask3) 12)
                              (Z.shiftl (Z.land (byteZ b1) maskx) 6))
                       (Z.land (byteZ b2) maskx) in
        if isCont b1 && isCont b2 && (rune2Max <? r)
           && negb ((surrogateMin <=? r) && (r <=? surrogateMax))
        then (r, 3%nat) else (runeError, 1%nat)
      | _ => (runeError, 1%nat)
      end
    else if (t4 <=? c0) && (c0 <? t5) then
      match s1 with
      | b1 :: b2 :: b3 :: _ =>
        let r := Z.lor (Z.lor (Z.lor (Z.shiftl (Z.land c0 mask4) 18)
                                     (Z.shiftl (Z.land (byteZ b1) maskx) 12))
                              (Z.shiftl (Z.land (byteZ b2) maskx) 6))
                       (Z.land (byteZ b3) maskx) in
        if isCont b1 && isCont b2 && isCont b3 && (rune3Max <? r) && (r <=? maxRune)
        then (r, 4%nat) else (runeError, 1%nat)
      | _ => (runeError, 1%nat)
      end
    else (runeError, 1%nat)
  end.

(** One step of [for _, r := range s]: a byte below [runeSelf] is its own
    rune, anything else goes through [decoderune]. *)
Definition rangeStep (s : gostring) : rune * nat :=
  match s with
  | [] => (runeError, 1%nat)
  | b :: _ => if byteZ b <? runeSelf then (byteZ b, 1%nat) else decoderune s
  end.

Fixpoint rangeRunes (fuel : nat) (s : gostring) : list rune :=
  match fuel with
  | O => []
  | S k =>
    match s with
    | [] => []
    | _ :: _ => let '(r, w) := rangeStep s in r :: rangeRunes k (drop w s)
    end
  end.

(** [[]rune(s)].  Every step consumes at least one byte, so [length s]
    steps always reach the end of [s] (lemma [rangeRunes_fuel]). *)
Definition stringToRunes (s : gostring) : list rune := rangeRunes (length s) s.

(** *** The [unicode], [unicode/utf8] and [strings] functions the source calls *)

Definition UTFMax : Z := 4.

(** [utf8.DecodeRuneInString]: the same decoding as the runtime's, with
    width 0 on the empty string. *)
Definition DecodeRuneInString (s : gostring) : rune * nat :=
  match s with
  | [] => (runeError, 0%nat)
  | _ :: _ => rangeStep s
  end.

Definition RuneStart (b : byte) : bool :=
  negb (Z.land (byteZ b) 0xC0 =? 0x80).

(** The backward scan of [utf8.DecodeLastRuneInString]:
    [for start--; start >= lim; start-- { if RuneStart(s[start]) { break } }],
    entered with [start] already decremented. *)
Fixpoint lastRuneStart (s : gostring) (lim : Z) (fuel : nat) (start : Z) : Z :=
  match fuel with
  | O => start
  | S k =>
    if lim <=? start then
      match index s start with
      | Some b => if RuneStart b then start else lastRuneStart s lim k (start - 1)
      | None => start
      end
    else start
  end.

Definition DecodeLastRuneInString (s : gostring) : rune * nat :=
  let end_ := len s in
  if end_ =? 0 then (runeError, 0%nat) else
  match index s (end_ - 1) with
  | None => (runeError, 0%nat)
  | Some b =>
    let r := byteZ b in
    if r <? runeSelf then (r, 1%nat) else
    let lim := Z.max 0 (end_ - UTFMax) in
    let start := lastRuneStart s lim (Z.to_nat UTFMax) (end_ - 1 - 1) in
    let start := if start <? 0 then 0 else start in
    let '(r, size) := DecodeRuneInString (drop (Z.to_nat start) s) in
    if negb (start + Z.of_nat size =? end_) then (runeError, 1%nat) else (r, size)
  end.

(** [unicode.IsSpace]: the Latin-1 cases, then the [White_Space] table. *)
Definition IsSpace (r : rune) : bool :=
  if uint32 r <=? 0xFF then
    (r =? 0x09) || (r =? 0x0A) || (r =? 0x0B) || (r =? 0x0C) || (r =? 0x0D)
    || (r =? 0x20) || (r =? 0x85) || (r =? 0xA0)
  else
    (r =? 0x1680) || ((0x2000 <=? r) && (r <=? 0x200A))
    || ((0x2028 <=? r) && (r <=? 0x2029)) || (r =? 0x202F) || (r =? 0x205F)
    || (r =? 0x3000).

(** The [asciiSpace] table of package [strings]. *)
Definition asciiSpace (c : Z) : bool :=
  (c =? 0x09) || (c =? 0x0A) || (c =? 0x0B) || (c =? 0x0C) || (c =? 0x0D)
  || (c =? 0x20).

(** [strings.TrimLeftFunc(s, f)]: [s] from the first rune that fails [f];
    empty when there is none. *)
Fixpoint trimLeftLoop (fuel : nat) (f : rune -> bool) (s : gostring) : gostring :=
  match fuel with
  | O => []
  | S k =>
    match s with
    | [] => []
    | _ :: _ =>
      let '(r, w) := rangeStep s in
      if f r then trimLeftLoop k f (drop w s) else s
    end
  end.

Definition TrimLeftFunc (f : rune -> bool) (s : gostring) : gostring :=
  trimLeftLoop (length s) f s.

(** [lastIndexFunc(s, f, false)]: the byte index of the last rune that
    fails [f], or [-1]. *)
Fixpoint lastIndexLoop (fuel : nat) (f : rune -> bool) (s : gostring) (i : Z) : Z :=
  match fuel with
  | O => -1
  | S k =>
    if 0 <? i then
      let '(r, size) := DecodeLastRuneInString (take (Z.to_nat i) s) in
      let i := i - Z.of_nat size in
      if negb (f r) then i else lastIndexLoop k f s i
    else -1
  end.

Definition lastIndexFunc (f : rune -> bool) (s : gostring) : Z :=
  lastIndexLoop (length s) f s (len s).

Definition TrimRightFunc (f : rune -> bool) (s : gostring) : gostring :=
  let i := lastIndexFunc f s in
  let wide :=
    (0 <=? i) &&
    match index s i with
    | Some b => runeSelf <=? byteZ b
    | None => false
    end in
  let i :=
    if wide then i + Z.of_nat (snd (DecodeRuneInString (drop (Z.to_nat i) s)))
    else i + 1 in
  take (Z.to_nat i) s.

Definition TrimFunc (f : rune -> bool) (s : gostring) : gostring :=
  TrimRightFunc f (TrimLeftFunc f s).

(** [strings.TrimSpace]: the first loop skips leading ASCII spaces and hands
    over to [TrimFunc] at the first non-ASCII byte ([inr]). *)
Fixpoint trimSpaceLeft (s : gostring) : gostring + gostring :=
  match s with
  | [] => inl []
  | c :: s' =>
    if runeSelf <=? byteZ c then inr s
    else if asciiSpace (byteZ c) then trimSpaceLeft s'
    else inl s
  end.

(** The second loop, on the reversed [s[start:]]: it drops trailing ASCII
    spaces and hands over to [TrimRightFunc] at a non-ASCII byte. *)
Fixpoint trimSpaceRight (rs : gostring) : gostring :=
  match rs with
  | [] => []
  | c :: rs' =>
    if runeSelf <=? byteZ c then TrimRightFunc IsSpace (rev rs)
    else if asciiSpace (byteZ c) then trimSpaceRight rs'
    else rev rs
  end.

Definition TrimSpace (s : gostring) : gostring :=
  match trimSpaceLeft s with
  | inr rest => TrimFunc IsSpace rest
  | inl rest => trimSpaceRight (rev rest)
  end.

(** [strings.HasSuffix]. *)
Definition HasSuffix (s suffix : gostring) : bool :=
  (length suffix <=? length s)%nat
  && bool_decide (drop (length s - length suffix) s = suffix).

(** [strings.Join(elems, sep)]. *)
Fixpoint Join (elems : list gostring) (sep : gostring) : gostring :=
  match elems with
  | [] => []
  | [a] => a
  | a :: rest => a ++ sep ++ Join rest sep
  end.

(** [strings.Split(s, sep)] for a separator of one byte, the only use in the
    source: one more piece than there are separators. *)
Fixpoint Split (s : gostring) (sep : byte) : list gostring :=
  match s with
  | [] => [[]]
  | b :: s' =>
    if bool_decide (b = sep) then [] :: Split s' sep
    else
      match Split s' sep with
      | piece :: pieces => (b :: piece) :: pieces
      | [] => [[b]]
      end
  end.

Definition newline : byte := x0a.

End Go.
Export Go.

(** ** The prompt model *)

(** [Suggestion]: the text to insert and an optional description. *)
Record Suggestion := {
  Text : gostring;
  Description : gostring
}.

Definition AutoCompleteFunc := gostring -> gostring -> list Suggestion.
Definition ExecuteFunc := gostring -> gostring.
Definition IsCompleteFunc := gostring -> bool.
Definition IsWordCharFunc := rune -> bool.

(** [PromptConfig].  A function field is [None] when it is nil.  The
    [Styles] field only matters to [View], which is not embedded. *)
Record PromptConfig := {
  PromptPrimary : gostring;
  PromptSecondary : gostring;
  AutoCompleteFn : option AutoCompleteFunc;
  ExecuteFn : option ExecuteFunc;
  IsCompleteFn : option IsCompleteFunc;
  IsWordCharFn : option IsWordCharFunc;
  ShowDescription : bool;
  PopupMaxHeight : Z
}.

(** [DefaultIsComplete]: the trimmed input ends with a semicolon. *)
Definition DefaultIsComplete (input : gostring) : bool :=
  let trimmedInput := TrimSpace input in
  HasSuffix trimmedInput (str ";").

Record PromptModel := {
  config : PromptConfig;
  lines : list gostring;
  cursorRow : Z;
  cursorCol : Z;
  history : list gostring;
  historyIndex : Z;
  suggestions : list Suggestion;
  showPopup : bool;
  selectedSuggestionIndex : Z;
  lastSuggestedWord : gostring;
  popupScrollOffset : Z;
  lastOutput : gostring
}.

(** Field assignments [m.f = v]. *)
Definition with_config v m :=
  {| config := v; lines := lines m; cursorRow := cursorRow m;
     cursorCol := cursorCol m; history := history m;
     historyIndex := historyIndex m; suggestions := suggestions m;
     showPopup := showPopup m;
     selectedSuggestionIndex := selectedSuggestionIndex m;
     lastSuggestedWord := lastSuggestedWord m;
     popupScrollOffset := popupScrollOffset m; lastOutput := lastOutput m |}.
Definition with_lines v m :=
  {| config := config m; lines := v; cursorRow := cursorRow m;
     cursorCol := cursorCol m; history := history m;
     historyIndex := historyIndex m; suggestions := suggestions m;
     showPopup := showPopup m;
     selectedSuggestionIndex := selectedSuggestionIndex m;
     lastSuggestedWord := lastSuggestedWord m;
     popupScrollOffset := popupScrollOffset m; lastOutput := lastOutput m |}.
Definition with_cursorRow v m :=
  {| config := config m; lines := lines m; cursorRow := v;
     cursorCol := cursorCol m; history := history m;
     historyIndex := historyIndex m; suggestions := suggestions m;
     showPopup := showPopup m;
     selectedSuggestionIndex := selectedSuggestionIndex m;
     lastSuggestedWord := lastSuggestedWord m;
     popupScrollOffset := popupScrollOffset m; lastOutput := lastOutput m |}.
Definition with_cursorCol v m :=
  {| config := config m; lines := lines m; cursorRow := cursorRow m;
     cursorCol := v; history := history m;
     historyIndex := historyIndex m; suggestions := suggestions m;
     showPopup := showPopup m;
     selectedSuggestionIndex := selectedSuggestionIndex m;
     lastSuggestedWord := lastSuggestedWord m;
     popupScrollOffset := popupScrollOffset m; lastOutput := lastOutput m |}.
Definition with_history v m :=
  {| config := config m; lines := lines m; cursorRow := cursorRow m;
     cursorCol := cursorCol m; history := v;
     historyIndex := historyIndex m; suggestions := suggestions m;
     showPopup := showPopup m;
     selectedSuggestionIndex := selectedSuggestionIndex m;
     lastSuggestedWord := lastSuggestedWord m;
     popupScrollOffset := popupScrollOffset m; lastOutput := lastOutput m |}.
Definition with_historyIndex v m :=
  {| config := config m; lines := lines m; cursorRow := cursorRow m;
     cursorCol := cursorCol m; history := history m;
     historyIndex := v; suggestions := suggestions m;
     showPopup := showPopup m;
     selectedSuggestionIndex := selectedSuggestionIndex m;
     lastSuggestedWord := lastSuggestedWord m;
     popupScrollOffset := popupScrollOffset m; lastOutput := lastOutput m |}.
Definition with_suggestions v m :=
  {| config := config m; lines := lines m; cursorRow := cursorRow m;
     cursorCol := cursorCol m; history := history m;
     historyIndex := historyIndex m; suggestions := v;
     showPopup := showPopup m;
     selectedSuggestionIndex := selectedSuggestionIndex m;
     lastSuggestedWord := lastSuggestedWord m;
     popupScrollOffset := popupScrollOffset m; lastOutput := lastOutput m |}.
Definition with_showPopup v m :=
  {| config := config m; lines := lines m; cursorRow := cursorRow m;
     cursorCol := cursorCol m; history := history m;
     historyIndex := historyIndex m; suggestions := suggestions m;
     showPopup := v;
     selectedSuggestionIndex := selectedSuggestionIndex m;
     lastSuggestedWord := lastSuggestedWord m;
     popupScrollOffset := popupScrollOffset m; lastOutput := lastOutput m |}.
Definition with_selectedSuggestionIndex v m :=
  {| config := config m; lines := lines m; cursorRow := cursorRow m;
     cursorCol := cursorCol m; history := history m;
     historyIndex := historyIndex m; suggestions := suggestions m;
     showPopup := showPopup m;
     selectedSuggestionIndex := v;
     lastSuggestedWord := lastSuggestedWord m;
     popupScrollOffset := popupScrollOffset m; lastOutput := lastOutput m |}.
Definition with_lastSuggestedWord v m :=
  {| config := config m; lines := lines m; cursorRow := cursorRow m;
     cursorCol := cursorCol m; history := history m;
     historyIndex := historyIndex m; suggestions := suggestions m;
     showPopup := showPopup m;
     selectedSuggestionIndex := selectedSuggestionIndex m;
     lastSuggestedWord := v;
     popupScrollOffset := popupScrollOffset m; lastOutput := lastOutput m |}.
Definition with_popupScrollOffset v m :=
  {| config := config m; lines := lines m; cursorRow := cursorRow m;
     cursorCol := cursorCol m; history := history m;
     historyIndex := historyIndex m; suggestions := suggestions m;
     showPopup := showPopup m;
     selectedSuggestionIndex := selectedSuggestionIndex m;
     lastSuggestedWord := lastSuggestedWord m;
     popupScrollOffset := v; lastOutput := lastOutput m |}.
Definition with_lastOutput v m :=
  {| config := config m; lines := lines m; cursorRow := cursorRow m;
     cursorCol := cursorCol m; history := history m;
     historyIndex := historyIndex m; suggestions := suggestions m;
     showPopup := showPopup m;
     selectedSuggestionIndex := selectedSuggestionIndex m;
     lastSuggestedWord := lastSuggestedWord m;
     popupScrollOffset := popupScrollOffset m; lastOutput := v |}.

(** A call of a side-effecting host callback. *)
Inductive Call :=
| CallExecute (input : gostring)
| CallAutoComplete (textBeforeCursor wordFragment : gostring).

(** The key types [handleKeyPress] distinguishes; [KeyOther] is any other. *)
Inductive KeyType :=
| KeyCtrlC | KeyEsc | KeyEnter | KeyBackspace | KeyTab | KeyUp | KeyDown
| KeyLeft | KeyRight | KeySpace | KeyRunes | KeyOther.

Record KeyMsg := {
  KType : KeyType;
  Runes : list rune
}.

(** A [tea.Msg]: a key press or any other message. *)
Inductive Msg :=
| MsgKey (msg : KeyMsg)
| MsgOther.

(** A [tea.Cmd]: [nil] or [tea.Quit]. *)
Inductive Cmd := CmdNil | CmdQuit.

Section Defaults.

(** The tables of package [unicode] behind [unicode.IsLetter] and
    [unicode.IsDigit], which the source only calls. *)
Variables unicode_IsLetter unicode_IsDigit : rune -> bool.

(** [DefaultIsWordChar]: letters, digits, underscore and period. *)
Definition DefaultIsWordChar (r : rune) : bool :=
  let isLetter := unicode_IsLetter r in
  let isDigit := unicode_IsDigit r in
  let isUnderscore := r =? 0x5F in
  let isPeriod := r =? 0x2E in
  isLetter || isDigit || isUnderscore || isPeriod.

(** [NewPromptConfig]. *)
Definition NewPromptConfig (primary secondary : gostring)
    (acFn : option AutoCompleteFunc) (execFn : option ExecuteFunc) : PromptConfig :=
  {| PromptPrimary := primary;
     PromptSecondary := secondary;
     AutoCompleteFn := acFn;
     ExecuteFn := execFn;
     IsCompleteFn := Some DefaultIsComplete;
     IsWordCharFn := Some DefaultIsWordChar;
     ShowDescription := false;
     PopupMaxHeight := 6 |}.

(** [NewPromptModel]: nil predicates and a non-positive popup height are
    replaced by the defaults; one empty line, cursor at the origin, empty
    history, not browsing. *)
Definition NewPromptModel (config : PromptConfig) : PromptModel :=
  let config1 :=
    {| PromptPrimary := PromptPrimary config;
       PromptSecondary := PromptSecondary config;
       AutoCompleteFn := AutoCompleteFn config;
       ExecuteFn := ExecuteFn config;
       IsCompleteFn :=
         match IsCompleteFn config with
         | None => Some DefaultIsComplete
         | Some f => Some f
         end;
       IsWordCharFn :=
         match IsWordCharFn config with
         | None => Some DefaultIsWordChar
         | Some f => Some f
         end;
       ShowDescription := ShowDescription config;
       PopupMaxHeight :=
         if PopupMaxHeight config <=? 0 then 6 else PopupMaxHeight config |} in
  {| config := config1;
     lines := [[]];
     cursorRow := 0;
     cursorCol := 0;
     history := [];
     historyIndex := -1;
     suggestions := [];
     showPopup := false;
     selectedSuggestionIndex := 0;
     lastSuggestedWord := [];
     popupScrollOffset := 0;
     lastOutput := [] |}.

End Defaults.

(** ** The operations of [PromptModel] *)

(** [clearLastOutputOnEdit]. *)
Definition clearLastOutputOnEdit (keyType : KeyType) (m : PromptModel) : PromptModel :=
  match keyType with
  | KeyBackspace | KeyRunes | KeySpace | KeyUp | KeyDown | KeyLeft | KeyRight =>
    with_lastOutput [] m
  | _ => m
  end.

(** [insertRunes]: runes below the space character are dropped; the rest is
    spliced into the current line at byte offset [cursorCol], and the
    column advances by the number of runes inserted. *)
Definition insertRunes (runes : list rune) (m : PromptModel) : option PromptModel :=
  let printableRunes := List.filter (fun r => 0x20 <=? r) runes in
  if len printableRunes =? 0 then Some m else
  line ← index (lines m) (cursorRow m);
  before ← sliceTo line (cursorCol m);
  after ← sliceFrom line (cursorCol m);
  lines' ← setIndex (lines m) (cursorRow m)
             (before ++ runesToString printableRunes ++ after);
  let m := with_lines lines' m in
  let m := with_cursorCol (cursorCol m + len printableRunes) m in
  Some (with_historyIndex (-1) m).

(** [insertCharacter]. *)
Definition insertCharacter (r : rune) (m : PromptModel) : option PromptModel :=
  insertRunes [r] m.

(** [deleteBeforeCursor]. *)
Definition deleteBeforeCursor (m : PromptModel) : option PromptModel :=
  if 0 <? cursorCol m then
    line ← index (lines m) (cursorRow m);
    before ← sliceTo line (cursorCol m - 1);
    after ← sliceFrom line (cursorCol m);
    lines' ← setIndex (lines m) (cursorRow m) (before ++ after);
    let m := with_lines lines' m in
    Some (with_cursorCol (cursorCol m - 1) m)
  else if 0 <? cursorRow m then
    prevLine ← index (lines m) (cursorRow m - 1);
    currentLine ← index (lines m) (cursorRow m);
    let targetCol := len prevLine in
    lines1 ← setIndex (lines m) (cursorRow m - 1) (prevLine ++ currentLine);
    above ← sliceTo lines1 (cursorRow m);
    below ← sliceFrom lines1 (cursorRow m + 1);
    let m := with_lines (above ++ below) m in
    let m := with_cursorRow (cursorRow m - 1) m in
    Some (with_cursorCol targetCol m)
  else Some m.

(** The test of the loop of [cleanupExtraBlankLines]. *)
Definition isBlankAt (ls : list gostring) (i : Z) : bool :=
  match index ls i with
  | Some l => bool_decide (TrimSpace l = [])
  | None => false
  end.

Definition lastTwoBlank (ls : list gostring) : bool :=
  (1 <? len ls) && isBlankAt ls (len ls - 1) && isBlankAt ls (len ls - 2).

Fixpoint cleanupLoop (fuel : nat) (ls : list gostring) : list gostring :=
  match fuel with
  | O => ls
  | S k =>
    if lastTwoBlank ls then cleanupLoop k (take (Z.to_nat (len ls - 1)) ls)
    else ls
  end.

(** [cleanupExtraBlankLines].  Each round drops one line and the loop needs
    two, so [length (lines m)] rounds are enough
    (lemma [cleanupLoop_stops]). *)
Definition cleanupExtraBlankLines (m : PromptModel) : PromptModel :=
  with_lines (cleanupLoop (length (lines m)) (lines m)) m.

(** [insertNewline]. *)
Definition insertNewline (m : PromptModel) : option PromptModel :=
  currentLine ← index (lines m) (cursorRow m);
  left ← sliceTo currentLine (cursorCol m);
  right ← sliceFrom currentLine (cursorCol m);
  above ← sliceTo (lines m) (cursorRow m);
  let newLines := [] ++ above in
  let newLines := newLines ++ [left] in
  let newLines := newLines ++ [right] in
  newLines ← (if cursorRow m + 1 <? len (lines m)
              then below ← sliceFrom (lines m) (cursorRow m + 1);
                   Some (newLines ++ below)
              else Some newLines);
  let m := with_lines newLines m in
  let m := with_cursorRow (cursorRow m + 1) m in
  let m := with_cursorCol 0 m in
  let m := cleanupExtraBlankLines m in
  if (len (lines m) <=? cursorRow m) && (0 <? len (lines m)) then
    Some (with_cursorRow (len (lines m) - 1) m)
  else if len (lines m) =? 0 then
    Some (with_cursorRow 0 (with_lines [[]] m))
  else Some m.

(** [moveCursorUp]. *)
Definition moveCursorUp (m : PromptModel) : option PromptModel :=
  if 0 <? cursorRow m then
    let m := with_cursorRow (cursorRow m - 1) m in
    line ← index (lines m) (cursorRow m);
    if len line <? cursorCol m then Some (with_cursorCol (len line) m)
    else Some m
  else Some m.

(** [moveCursorDown]. *)
Definition moveCursorDown (m : PromptModel) : option PromptModel :=
  if cursorRow m <? len (lines m) - 1 then
    let m := with_cursorRow (cursorRow m + 1) m in
    line ← index (lines m) (cursorRow m);
    if len line <? cursorCol m then Some (with_cursorCol (len line) m)
    else Some m
  else Some m.

(** [moveCursorLeft]. *)
Definition moveCursorLeft (m : PromptModel) : option PromptModel :=
  if 0 <? cursorCol m then Some (with_cursorCol (cursorCol m - 1) m)
  else if 0 <? cursorRow m then
    let m := with_cursorRow (cursorRow m - 1) m in
    line ← index (lines m) (cursorRow m);
    Some (with_cursorCol (len line) m)
  else Some m.

(** [moveCursorRight]. *)
Definition moveCursorRight (m : PromptModel) : option PromptModel :=
  line ← index (lines m) (cursorRow m);
  if cursorCol m <? len line then Some (with_cursorCol (cursorCol m + 1) m)
  else if cursorRow m <? len (lines m) - 1 then
    let m := with_cursorRow (cursorRow m + 1) m in
    Some (with_cursorCol 0 m)
  else Some m.

(** [getTextBeforeCursor]: the lines above the cursor row, each followed by
    a newline, then the first [cursorCol] runes of the current line. *)
Definition getTextBeforeCursor (m : PromptModel) : option gostring :=
  if (cursorRow m <? 0) || (len (lines m) <=? cursorRow m) then Some [] else
  above ← sliceTo (lines m) (cursorRow m);
  let sb := concat (map (fun l => l ++ [newline]) above) in
  currentLine ← index (lines m) (cursorRow m);
  if 0 <? cursorCol m then
    let runes := stringToRunes currentLine in
    let col := Z.min (cursorCol m) (len runes) in
    pre ← sliceTo runes col;
    Some (sb ++ runesToString pre)
  else Some sb.

(** The backward scan shared by [currentWordFragment] and
    [applyAutocomplete]:
    [for start > 0 { if isWordCharFn(runes[start-1]) { start-- } else { break } }]. *)
Fixpoint scanLeftFrom (isWordCharFn : option IsWordCharFunc) (runes : list rune)
    (start : nat) : option nat :=
  match start with
  | O => Some O
  | S k =>
    r ← runes !! k;
    b ← callFn isWordCharFn r;
    if b : bool then scanLeftFrom isWordCharFn runes k else Some (S k)
  end.

Definition scanLeft (isWordCharFn : option IsWordCharFunc) (runes : list rune)
    (start : Z) : option Z :=
  if 0 <? start then Z.of_nat <$> scanLeftFrom isWordCharFn runes (Z.to_nat start)
  else Some start.

(** [currentWordFragment]. *)
Definition currentWordFragment (isWordCharFn : option IsWordCharFunc)
    (m : PromptModel) : option gostring :=
  if len (lines m) <=? cursorRow m then Some [] else
  line ← index (lines m) (cursorRow m);
  if cursorCol m =? 0 then Some [] else
  let lineRunes := stringToRunes line in
  if len lineRunes <? cursorCol m then Some [] else
  start ← scanLeft isWordCharFn lineRunes (cursorCol m);
  if (start <? cursorCol m) && (0 <? cursorCol m) then
    r ← index lineRunes (cursorCol m - 1);
    b ← callFn isWordCharFn r;
    if b : bool then
      fragment ← slice lineRunes start (cursorCol m);
      Some (runesToString fragment)
    else Some []
  else Some [].

(** [clearAutocomplete]. *)
Definition clearAutocomplete (m : PromptModel) : PromptModel :=
  let m := with_suggestions [] m in
  let m := with_showPopup false m in
  let m := with_selectedSuggestionIndex 0 m in
  let m := with_lastSuggestedWord [] m in
  with_popupScrollOffset 0 m.

(** The [clear] flag [updateAutocomplete] computes from the fragment. *)
Definition mustClear (isWordCharFn : option IsWordCharFunc) (word : gostring)
    (m : PromptModel) : option bool :=
  if bool_decide (word = []) then Some true
  else if (0 <? cursorCol m) && (cursorRow m <? len (lines m)) then
    line ← index (lines m) (cursorRow m);
    let lineRunes := stringToRunes line in
    failsLeft ←
      (if cursorCol m <=? len lineRunes then
         r ← index lineRunes (cursorCol m - 1);
         b ← callFn isWordCharFn r;
         Some (negb b)
       else Some false);
    if failsLeft : bool then Some true
    else if len lineRunes <? cursorCol m then Some true
    else Some false
  else if cursorCol m =? 0 then Some true
  else Some false.

(** [updateAutocomplete]. *)
Definition updateAutocomplete (m : PromptModel) : option (PromptModel * list Call) :=
  let isWordCharFn := IsWordCharFn (config m) in
  word ← currentWordFragment isWordCharFn m;
  clear ← mustClear isWordCharFn word m;
  if clear : bool then Some (clearAutocomplete m, []) else
  if negb (bool_decide (word = lastSuggestedWord m)) then
    let m := with_selectedSuggestionIndex 0 m in
    let m := with_popupScrollOffset 0 m in
    '(items, calls) ←
      match AutoCompleteFn (config m) with
      | Some f =>
        textBefore ← getTextBeforeCursor m;
        Some (f textBefore word, [CallAutoComplete textBefore word])
      | None => Some ([], [])
      end;
    let m := with_suggestions items m in
    let m := with_showPopup (0 <? len (suggestions m)) m in
    Some (with_lastSuggestedWord word m, calls)
  else if len (suggestions m) =? 0 then Some (with_showPopup false m, [])
  else Some (m, []).

(** [navigateAutocompleteUp]. *)
Definition navigateAutocompleteUp (m : PromptModel) : PromptModel :=
  if showPopup m && (0 <? len (suggestions m)) then
    let m := with_selectedSuggestionIndex (selectedSuggestionIndex m - 1) m in
    if selectedSuggestionIndex m <? 0 then
      let m := with_selectedSuggestionIndex (len (suggestions m) - 1) m in
      with_popupScrollOffset
        (Z.max 0 (len (suggestions m) - PopupMaxHeight (config m))) m
    else if selectedSuggestionIndex m <? popupScrollOffset m then
      with_popupScrollOffset (selectedSuggestionIndex m) m
    else m
  else m.

(** [navigateAutocompleteDown]. *)
Definition navigateAutocompleteDown (m : PromptModel) : PromptModel :=
  if showPopup m && (0 <? len (suggestions m)) then
    let m := with_selectedSuggestionIndex (selectedSuggestionIndex m + 1) m in
    if len (suggestions m) <=? selectedSuggestionIndex m then
      let m := with_selectedSuggestionIndex 0 m in
      with_popupScrollOffset 0 m
    else if popupScrollOffset m + PopupMaxHeight (config m)
              <=? selectedSuggestionIndex m then
      with_popupScrollOffset
        (selectedSuggestionIndex m - PopupMaxHeight (config m) + 1) m
    else m
  else m.

(** [applyAutocomplete].  The source's last branch, which clamps the local
    [col] it no longer reads, is left out. *)
Definition applyAutocomplete (m : PromptModel) : option PromptModel :=
  if showPopup m && (0 <? len (suggestions m)) then
    selectedSuggestion ← index (suggestions m) (selectedSuggestionIndex m);
    let selectedText := Text selectedSuggestion in
    line ← index (lines m) (cursorRow m);
    let col := cursorCol m in
    let isWordCharFn := IsWordCharFn (config m) in
    let runes := stringToRunes line in
    start ← scanLeft isWordCharFn runes col;
    let start := if start <? 0 then 0 else start in
    prefix ← runesToString <$> sliceTo runes start;
    suffix ← (if col <? len runes then runesToString <$> sliceFrom runes col
              else Some []);
    lines' ← setIndex (lines m) (cursorRow m) (prefix ++ selectedText ++ suffix);
    let m := with_lines lines' m in
    let m := with_cursorCol (start + len selectedText) m in
    Some (clearAutocomplete m)
  else Some m.

(** [loadHistoryEntry]. *)
Definition loadHistoryEntry (m : PromptModel) : option PromptModel :=
  if (0 <=? historyIndex m) && (historyIndex m <? len (history m)) then
    entry ← index (history m) (historyIndex m);
    let m := with_lines (Split entry newline) m in
    let m := with_cursorRow (len (lines m) - 1) m in
    let m := if cursorRow m <? 0 then with_cursorRow 0 m else m in
    m ← (if 0 <? len (lines m) then
           line ← index (lines m) (cursorRow m);
           Some (with_cursorCol (len line) m)
         else
           let m := with_lines [[]] m in
           let m := with_cursorRow 0 m in
           Some (with_cursorCol 0 m));
    Some (clearAutocomplete m)
  else Some m.

(** [navigateHistoryUp]. *)
Definition navigateHistoryUp (m : PromptModel) : option PromptModel :=
  if len (history m) =? 0 then Some m
  else if historyIndex m =? -1 then
    loadHistoryEntry (with_historyIndex (len (history m) - 1) m)
  else if 0 <? historyIndex m then
    loadHistoryEntry (with_historyIndex (historyIndex m - 1) m)
  else Some m.

(** [navigateHistoryDown]. *)
Definition navigateHistoryDown (m : PromptModel) : option PromptModel :=
  if historyIndex m =? -1 then Some m
  else if historyIndex m <? len (history m) - 1 then
    loadHistoryEntry (with_historyIndex (historyIndex m + 1) m)
  else
    let m := with_historyIndex (-1) m in
    let m := with_lines [[]] m in
    let m := with_cursorRow 0 m in
    let m := with_cursorCol 0 m in
    Some (clearAutocomplete m).

(** The loop of [joinNonEmptyLines]: [end] moves down past the trailing
    lines that are blank after trimming. *)
Fixpoint lastNonBlank (lines : list gostring) (end_ : nat) : nat :=
  match end_ with
  | O => O
  | S k =>
    match lines !! k with
    | Some l => if bool_decide (TrimSpace l = []) then lastNonBlank lines k else S k
    | None => S k
    end
  end.

(** [joinNonEmptyLines]. *)
Definition joinNonEmptyLines (lines : list gostring) : gostring :=
  let end_ := lastNonBlank lines (length lines) in
  Join (take end_ lines) [newline].

(** [getCurrentInput]. *)
Definition getCurrentInput (m : PromptModel) : gostring :=
  joinNonEmptyLines (lines m).

(** The two texts [handleEnter] stores in [lastOutput]. *)
Definition executingOutput (output : gostring) : gostring :=
  [newline] ++ str "--- Executing ---" ++ [newline] ++ output ++ [newline]
  ++ str "-----------------" ++ [newline].

Definition noExecuteFnOutput : gostring :=
  [newline] ++ str "--- No ExecuteFn Configured ---" ++ [newline].

(** [handleEnter]. *)
Definition handleEnter (m : PromptModel) : option (PromptModel * list Call) :=
  let fullInput := getCurrentInput m in
  isComplete ← callFn (IsCompleteFn (config m)) fullInput;
  if (isComplete : bool) && negb (bool_decide (TrimSpace fullInput = str ";")) then
    let '(output, calls) :=
      match ExecuteFn (config m) with
      | Some f => (executingOutput (f fullInput), [CallExecute fullInput])
      | None => (noExecuteFnOutput, [])
      end in
    let m := with_lastOutput output m in
    let m := if negb (bool_decide (TrimSpace fullInput = []))
             then with_history (history m ++ [fullInput]) m else m in
    let m := with_lines [[]] m in
    let m := with_cursorRow 0 m in
    let m := with_cursorCol 0 m in
    let m := with_historyIndex (-1) m in
    Some (clearAutocomplete m, calls)
  else
    m ← insertNewline m;
    Some (clearAutocomplete m, []).

(** [handleBackspace]. *)
Definition handleBackspace (m : PromptModel) : option PromptModel :=
  deleteBeforeCursor m.

(** [handleAutocompleteTab]. *)
Definition handleAutocompleteTab (m : PromptModel) : option PromptModel :=
  applyAutocomplete m.

(** [handleUpArrow]. *)
Definition handleUpArrow (m : PromptModel) : option PromptModel :=
  if showPopup m then Some (navigateAutocompleteUp m)
  else if cursorRow m =? 0 then navigateHistoryUp m
  else moveCursorUp m.

(** [handleDownArrow]. *)
Definition handleDownArrow (m : PromptModel) : option PromptModel :=
  if showPopup m then Some (navigateAutocompleteDown m)
  else if negb (historyIndex m =? -1) then navigateHistoryDown m
  else moveCursorDown m.

(** [handleKeyPress]: the new model, the command for the host and the
    callbacks called. *)
Definition handleKeyPress (msg : KeyMsg) (m : PromptModel)
    : option (PromptModel * Cmd * list Call) :=
  let m := match KType msg with
           | KeyEnter => m
           | t => clearLastOutputOnEdit t m
           end in
  match KType msg with
  | KeyCtrlC | KeyEsc => Some (m, CmdQuit, [])
  | KeyEnter =>
    '(m, calls) ← handleEnter m; Some (m, CmdNil, calls)
  | KeyBackspace =>
    m ← handleBackspace m;
    '(m, calls) ← updateAutocomplete m; Some (m, CmdNil, calls)
  | KeyTab =>
    m ← handleAutocompleteTab m; Some (m, CmdNil, [])
  | KeyUp =>
    m ← handleUpArrow m; Some (m, CmdNil, [])
  | KeyDown =>
    m ← handleDownArrow m; Some (m, CmdNil, [])
  | KeyLeft =>
    m ← moveCursorLeft m; Some (clearAutocomplete m, CmdNil, [])
  | KeyRight =>
    m ← moveCursorRight m; Some (clearAutocomplete m, CmdNil, [])
  | KeySpace =>
    m ← insertCharacter 0x20 m;
    '(m, calls) ← updateAutocomplete m; Some (m, CmdNil, calls)
  | KeyRunes =>
    m ← insertRunes (Runes msg) m;
    '(m, calls) ← updateAutocomplete m; Some (m, CmdNil, calls)
  | KeyOther => Some (m, CmdNil, [])
  end.

(** [Update]. *)
Definition Update (msg : Msg) (m : PromptModel)
    : option (PromptModel * Cmd * list Call) :=
  match msg with
  | MsgKey msg => handleKeyPress msg m
  | MsgOther => Some (m, CmdNil, [])
  end.

(** The model after a sequence of messages, with all the callbacks called
    on the way, in order. *)
Fixpoint run (msgs : list Msg) (m : PromptModel) : option (PromptModel * list Call) :=
  match msgs with
  | [] => Some (m, [])
  | msg :: rest =>
    '(m1, _, calls1) ← Update msg m;
    '(m2, calls2) ← run rest m1;
    Some (m2, calls1 ++ calls2)
  end.

(** Key presses, for writing message sequences. *)
Definition key (t : KeyType) : Msg := MsgKey {| KType := t; Runes := [] |}.
Definition typed (rs : list rune) : Msg := MsgKey {| KType := KeyRunes; Runes := rs |}.

(** The runes of an ASCII literal. *)
Definition runesOf (s : string) : list rune := map byteZ (str s).

(** Number of codepoints of a line: [len([]rune(line))]. *)
Definition codepointLength (line : gostring) : Z := len (stringToRunes line).

(** A classifier for examples: ASCII letters, digits, underscore, period. *)
Definition asciiWordChar (r : rune) : bool :=
  ((0x41 <=? r) && (r <=? 0x5A)) || ((0x61 <=? r) && (r <=? 0x7A))
  || ((0x30 <=? r) && (r <=? 0x39)) || (r =? 0x5F) || (r =? 0x2E).

(** A provider for examples: the keywords that start with the fragment. *)
Definition keywordProvider (keywords : list gostring) : AutoCompleteFunc :=
  fun _ word =>
    map (fun k => {| Text := k; Description := [] |})
        (List.filter (fun k => bool_decide (take (length word) k = word)) keywords).

Definition exampleConfig : PromptConfig :=
  {| PromptPrimary := str "sql> ";
     PromptSecondary := str "...> ";
     AutoCompleteFn := Some (keywordProvider [str "SELECT"; str "FROM"; str "FORMAT"]);
     ExecuteFn := Some (fun input => str "ok: " ++ input);
     IsCompleteFn := Some DefaultIsComplete;
     IsWordCharFn := Some asciiWordChar;
     ShowDescription := false;
     PopupMaxHeight := 2 |}.

Definition exampleModel : PromptModel :=
  NewPromptModel (fun _ => false) (fun _ => false) exampleConfig.

(** ** Invariants of the reachable states *)

(** The line under the cursor. *)
Definition currentLine (m : PromptModel) : option gostring :=
  index (lines m) (cursorRow m).

(** The cursor is on a line of the buffer, at a byte offset inside it. *)
Definition CursorOK (m : PromptModel) : Prop :=
  exists line, currentLine m = Some line /\ 0 <= cursorCol m <= len line.

(** The browse index is the sentinel or an index of the history. *)
Definition HistoryOK (m : PromptModel) : Prop :=
  -1 <= historyIndex m < len (history m).

(** While the popup shows, the selection is an index of the suggestions. *)
Definition SelectionOK (m : PromptModel) : Prop :=
  showPopup m = true ->
  0 <= selectedSuggestionIndex m < len (suggestions m).

(** While the popup shows, the cursor column is a rune index of its line. *)
Definition PopupColOK (m : PromptModel) : Prop :=
  showPopup m = true ->
  exists line, currentLine m = Some line /\ cursorCol m <= codepointLength line.

(** Both predicates of the configuration are set. *)
Definition ConfigOK (m : PromptModel) : Prop :=
  is_Some (IsCompleteFn (config m)) /\ is_Some (IsWordCharFn (config m)).

(** An output is on display only over the pristine buffer. *)
Definition OutputOK (m : PromptModel) : Prop :=
  lastOutput m <> [] ->
  showPopup m = false /\ lines m = [[]] /\ cursorRow m = 0 /\ cursorCol m = 0.

Record Inv (m : PromptModel) : Prop := {
  inv_cursor : CursorOK m;
  inv_history : HistoryOK m;
  inv_selection : SelectionOK m;
  inv_popupcol : PopupColOK m;
  inv_config : ConfigOK m;
  inv_output : OutputOK m
}.

(** What an operation on the buffer leaves alone. *)
Definition sameRest (m m' : PromptModel) : Prop :=
  config m' = config m /\ history m' = history m /\ lastOutput m' = lastOutput m.

Definition sameSuggest (m m' : PromptModel) : Prop :=
  suggestions m' = suggestions m /\ showPopup m' = showPopup m
  /\ selectedSuggestionIndex m' = selectedSuggestionIndex m
  /\ lastSuggestedWord m' = lastSuggestedWord m
  /\ popupScrollOffset m' = popupScrollOffset m.

(** What [updateAutocomplete] leaves alone. *)
Definition sameBuffer (m m' : PromptModel) : Prop :=
  lines m' = lines m /\ cursorRow m' = cursorRow m /\ cursorCol m' = cursorCol m
  /\ historyIndex m' = historyIndex m.

(** An operation that returns, keeps the cursor valid and touches nothing
    but the buffer and the cursor. *)
Definition bufferStep (m : PromptModel) (r : option PromptModel) : Prop :=
  exists m', r = Some m' /\ CursorOK m' /\ sameRest m m' /\ sameSuggest m m'
    /\ (historyIndex m' = historyIndex m \/ historyIndex m' = -1).

(** ** Definitions used to state the properties *)

(** The two navigation calls of the suggestion list, and a sequence of
    them. *)
Inductive Nav := SelectPrevious | SelectNext.

Definition navigate (nav : Nav) (m : PromptModel) : PromptModel :=
  match nav with
  | SelectPrevious => navigateAutocompleteUp m
  | SelectNext => navigateAutocompleteDown m
  end.

Definition navigateAll (navs : list Nav) (m : PromptModel) : PromptModel :=
  fold_left (fun m nav => navigate nav m) navs m.

(** The specification's fragment: the longest run of accepted runes that
    ends a rune sequence. *)
Fixpoint takeWhile {A} (f : A -> bool) (l : list A) : list A :=
  match l with
  | [] => []
  | x :: l' => if f x then x :: takeWhile f l' else []
  end.

Definition trailingRun (f : rune -> bool) (rs : list rune) : list rune :=
  rev (takeWhile f (rev rs)).

(** Enter would submit: the input is complete and is not the bare
    terminator. *)
Definition submits (m : PromptModel) : Prop :=
  exists p, IsCompleteFn (config m) = Some p
    /\ p (getCurrentInput m) = true
    /\ TrimSpace (getCurrentInput m) <> str ";".

Definition isEnter (msg : Msg) : Prop :=
  exists k, msg = MsgKey k /\ KType k = KeyEnter.

(** The effect of a key press of each type on the last output. *)
Definition keyEffect (t : KeyType) (m m' : PromptModel) : Prop :=
  match t with
  | KeyCtrlC | KeyEsc | KeyOther => m' = m
  | KeyEnter =>
    submits m
    \/ (lastOutput m' = lastOutput m /\ (lastOutput m <> [] -> lines m' = lines m))
  | KeyTab => lastOutput m' = lastOutput m /\ (showPopup m = false -> m' = m)
  | _ => lastOutput m' = []
  end.

(** The example model with a given buffer and cursor. *)
Definition modelAt (ls : list gostring) (row col : Z) : PromptModel :=
  with_cursorCol col (with_cursorRow row (with_lines ls exampleModel)).

(** The example model with a visible list of three suggestions. *)
Definition popupModel : PromptModel :=
  with_showPopup true
    (with_suggestions
       [ {| Text := str "FROM"; Description := [] |};
         {| Text := str "FORMAT"; Description := [] |};
         {| Text := str "FULL"; Description := [] |} ]
       (with_lastSuggestedWord (str "F") (modelAt [str "F"] 0 1))).

(** A configuration whose provider always suggests the one word "é". *)
Definition accentConfig : PromptConfig :=
  {| PromptPrimary := str "> ";
     PromptSecondary := str ". ";
     AutoCompleteFn := Some (fun _ _ => [ {| Text := [xc3; xa9]; Description := [] |} ]);
     ExecuteFn := None;
     IsCompleteFn := None;
     IsWordCharFn := Some asciiWordChar;
     ShowDescription := false;
     PopupMaxHeight := 0 |}.

Definition accentModel : PromptModel :=
  NewPromptModel (fun _ => false) (fun _ => false) accentConfig.

(** The selection is inside the scroll window and inside the list. *)
Definition windowOK (m : PromptModel) : Prop :=
  0 <= popupScrollOffset m <= selectedSuggestionIndex m
  /\ selectedSuggestionIndex m < popupScrollOffset m + PopupMaxHeight (config m)
  /\ selectedSuggestionIndex m < len (suggestions m).

(** What an example observes of a model: every field but the
    configuration. *)
Definition view (m : PromptModel) :=
  (lines m, cursorRow m, cursorCol m, history m, historyIndex m,
   suggestions m, showPopup m, selectedSuggestionIndex m,
   lastSuggestedWord m, popupScrollOffset m, lastOutput m).

Definition outcome (r : option (PromptModel * list Call)) :=
  (fun '(m, calls) => (view m, calls)) <$> r.

(** An operation without callbacks, as one that calls none. *)
Definition quiet (r : option PromptModel) : option (PromptModel * list Call) :=
  (fun m => (m, [])) <$> r.

(** An operation repeated [n] times. *)
Fixpoint times (n : nat) (op : PromptModel -> option PromptModel)
    (m : PromptModel) : option PromptModel :=
  match n with
  | O => Some m
  | S k => m1 ← op m; times k op m1
  end.


(** Text of printable ASCII bytes, and sessions that only produce such
    text: the typed runes are below [runeSelf] and the provider suggests
    printable ASCII. *)
Definition printable (b : byte) : Prop := 0x20 <= byteZ b < runeSelf.

Definition plainText (s : gostring) : Prop := Forall printable s.

Definition plainInput (s : gostring) : Prop :=
  Forall (fun b => printable b \/ b = newline) s.

Definition plainMsg (msg : Msg) : Prop :=
  match msg with
  | MsgKey k => Forall (fun r => r < runeSelf) (Runes k)
  | MsgOther => True
  end.

Definition plainConfig (cfg : PromptConfig) : Prop :=
  forall f text word,
    AutoCompleteFn cfg = Some f -> Forall (fun s => plainText (Text s)) (f text word).

Definition PlainOK (m : PromptModel) : Prop :=
  Forall plainText (lines m)
  /\ Forall plainInput (history m)
  /\ Forall (fun s => plainText (Text s)) (suggestions m).

(** * Properties *)

(** ** Slices, indices and lengths *)

Lemma len_nonneg {A} (l : list A) : 0 <= len l.
Proof. unfold len. lia. Qed.

Lemma len_nil {A} : len (@nil A) = 0.
Proof. reflexivity. Qed.

Lemma len_cons {A} (x : A) l : len (x :: l) = 1 + len l.
Proof. unfold len. simpl. lia. Qed.

Lemma len_app {A} (l1 l2 : list A) : len (l1 ++ l2) = len l1 + len l2.
Proof. unfold len. rewrite length_app. lia. Qed.

Lemma len_take {A} (l : list A) n :
  0 <= n <= len l -> len (take (Z.to_nat n) l) = n.
Proof. unfold len. intros H. rewrite length_take. lia. Qed.

Lemma len_drop {A} (l : list A) n :
  0 <= n <= len l -> len (drop (Z.to_nat n) l) = len l - n.
Proof. unfold len. intros H. rewrite length_drop. lia. Qed.

Lemma len_insert {A} (l : list A) i x : len (<[i := x]> l) = len l.
Proof. unfold len. rewrite length_insert. reflexivity. Qed.

Lemma index_Some {A} (l : list A) i x :
  index l i = Some x <-> 0 <= i /\ l !! Z.to_nat i = Some x.
Proof.
  unfold index. destruct (Z.ltb_spec i 0); split.
  - discriminate.
  - intros [? _]; lia.
  - auto.
  - intros [_ ?]; assumption.
Qed.

Lemma index_range {A} (l : list A) i x : index l i = Some x -> 0 <= i < len l.
Proof.
  intros [H0 H]%index_Some. apply lookup_lt_Some in H. unfold len. lia.
Qed.

Lemma index_in_range {A} (l : list A) i :
  0 <= i < len l -> exists x, index l i = Some x.
Proof.
  intros H. unfold index. destruct (Z.ltb_spec i 0); [lia|].
  apply lookup_lt_is_Some_2. unfold len in H. lia.
Qed.

Lemma index_None {A} (l : list A) i :
  index l i = None <-> i < 0 \/ len l <= i.
Proof.
  unfold index, len. destruct (Z.ltb_spec i 0).
  - split; auto.
  - rewrite lookup_ge_None. lia.
Qed.

Lemma slice_ok {A} (l : list A) lo hi :
  0 <= lo <= hi /\ hi <= len l ->
  slice l lo hi = Some (take (Z.to_nat (hi - lo)) (drop (Z.to_nat lo) l)).
Proof.
  intros H. unfold slice.
  destruct (Z.leb_spec 0 lo); [|lia].
  destruct (Z.leb_spec lo hi); [|lia].
  destruct (Z.leb_spec hi (len l)); [|lia]. reflexivity.
Qed.

Lemma slice_Some {A} (l : list A) lo hi s :
  slice l lo hi = Some s ->
  0 <= lo <= hi /\ hi <= len l /\ s = take (Z.to_nat (hi - lo)) (drop (Z.to_nat lo) l).
Proof.
  unfold slice.
  destruct (Z.leb_spec 0 lo); [|discriminate].
  destruct (Z.leb_spec lo hi); [|discriminate].
  destruct (Z.leb_spec hi (len l)); [|discriminate].
  simpl. intros [= <-]. split; [lia | split; [lia | reflexivity]].
Qed.

Lemma sliceTo_ok {A} (l : list A) hi :
  0 <= hi <= len l -> sliceTo l hi = Some (take (Z.to_nat hi) l).
Proof.
  intros H. unfold sliceTo. rewrite slice_ok by lia.
  rewrite Z.sub_0_r. reflexivity.
Qed.

Lemma sliceFrom_ok {A} (l : list A) lo :
  0 <= lo <= len l -> sliceFrom l lo = Some (drop (Z.to_nat lo) l).
Proof.
  intros H. unfold sliceFrom. rewrite slice_ok by lia.
  f_equal. apply take_ge. rewrite length_drop. unfold len. lia.
Qed.

Lemma setIndex_ok {A} (l : list A) i v :
  0 <= i < len l -> setIndex l i v = Some (<[Z.to_nat i := v]> l).
Proof.
  intros H. unfold setIndex.
  destruct (Z.leb_spec 0 i); [|lia].
  destruct (Z.ltb_spec i (len l)); [|lia]. reflexivity.
Qed.

Lemma index_insert_same {A} (l : list A) i v :
  0 <= i < len l -> index (<[Z.to_nat i := v]> l) i = Some v.
Proof.
  intros H. apply index_Some. split; [lia|].
  apply list_lookup_insert_eq. unfold len in H. lia.
Qed.

(** ** UTF-8 conversions *)

Lemma encoderune_length (r : rune) : (1 <= length (encoderune r))%nat.
Proof.
  unfold encoderune.
  repeat match goal with |- context [if ?c then _ else _] => destruct c end;
    simpl; lia.
Qed.

Lemma runesToString_length (rs : list rune) :
  (length rs <= length (runesToString rs))%nat.
Proof.
  unfold runesToString. induction rs as [|r rs IH]; simpl; [lia|].
  rewrite length_app. pose proof (encoderune_length r). lia.
Qed.

Lemma len_runesToString (rs : list rune) : len rs <= len (runesToString rs).
Proof. unfold len. pose proof (runesToString_length rs). lia. Qed.

Lemma runesToString_nil_iff (rs : list rune) : runesToString rs = [] <-> rs = [].
Proof.
  split; [|intros ->; reflexivity].
  intros H. pose proof (runesToString_length rs) as L. rewrite H in L.
  destruct rs; [reflexivity|simpl in L; lia].
Qed.

Lemma runesToString_app (a b : list rune) :
  runesToString (a ++ b) = runesToString a ++ runesToString b.
Proof. unfold runesToString. rewrite map_app, concat_app. reflexivity. Qed.

Lemma decoderune_width (s : gostring) : (1 <= snd (decoderune s))%nat.
Proof.
  unfold decoderune.
  repeat match goal with
         | |- context [match ?x with _ => _ end] => destruct x
         end; simpl; lia.
Qed.

Lemma rangeStep_width (s : gostring) : (1 <= snd (rangeStep s))%nat.
Proof.
  unfold rangeStep. destruct s as [|b s]; [simpl; lia|].
  destruct (byteZ b <? runeSelf); [simpl; lia | apply decoderune_width].
Qed.

Lemma rangeRunes_length (fuel : nat) (s : gostring) :
  (length s <= fuel)%nat -> (length (rangeRunes fuel s) <= length s)%nat.
Proof.
  revert s. induction fuel as [|k IH]; intros s H.
  - simpl. lia.
  - destruct s as [|b s]; [simpl; lia|].
    cbn [rangeRunes]. pose proof (rangeStep_width (b :: s)) as W.
    destruct (rangeStep (b :: s)) as [r w]. simpl in W.
    cbn [length]. 
    assert (length (drop w (b :: s)) <= k)%nat by (rewrite length_drop; simpl in *; lia).
    specialize (IH _ H0). rewrite length_drop in IH. simpl in *. lia.
Qed.

(** Fuel beyond the length of the string changes nothing: the conversion
    always runs to the end of the string. *)
Lemma rangeRunes_fuel (fuel : nat) (s : gostring) :
  (length s <= fuel)%nat -> rangeRunes fuel s = stringToRunes s.
Proof.
  unfold stringToRunes. remember (length s) as n eqn:E.
  assert (Hn : (length s <= n)%nat) by lia. clear E.
  revert s fuel Hn. induction n as [|n IH]; intros s fuel Hn Hf.
  - destruct s; [|simpl in Hn; lia]. destruct fuel; reflexivity.
  - destruct s as [|b s]; [destruct fuel; reflexivity|].
    destruct fuel as [|fuel]; [lia|].
    cbn [rangeRunes]. pose proof (rangeStep_width (b :: s)) as W.
    destruct (rangeStep (b :: s)) as [r w]. simpl in W. f_equal.
    apply IH; [|lia]. rewrite length_drop. simpl in *. lia.
Qed.

Lemma stringToRunes_length (s : gostring) :
  (length (stringToRunes s) <= length s)%nat.
Proof. apply rangeRunes_length. lia. Qed.

Lemma codepointLength_le (s : gostring) : codepointLength s <= len s.
Proof.
  unfold codepointLength, len. pose proof (stringToRunes_length s). lia.
Qed.

(** ** The buffer operations keep the cursor inside the buffer *)

Lemma currentLine_range m line :
  currentLine m = Some line -> 0 <= cursorRow m < len (lines m).
Proof. apply index_range. Qed.

Lemma sameRest_refl m : sameRest m m.
Proof. repeat split. Qed.

Lemma sameSuggest_refl m : sameSuggest m m.
Proof. repeat split. Qed.

#[local] Hint Resolve sameRest_refl sameSuggest_refl : core.


Lemma bufferStep_id m : CursorOK m -> bufferStep m (Some m).
Proof. intros H. exists m. repeat split; auto. Qed.

Lemma insertRunes_ok runes m :
  CursorOK m ->
  bufferStep m (insertRunes runes m).
Proof.
  intros (line & Hl & Hc). unfold insertRunes.
  destruct (len _ =? 0) eqn:E.
  { apply bufferStep_id; exists line; auto. }
  unfold currentLine in Hl. rewrite Hl. simpl.
  rewrite sliceTo_ok, sliceFrom_ok by lia. simpl.
  pose proof (index_range _ _ _ Hl) as Hr.
  rewrite setIndex_ok by lia. simpl.
  eexists. split; [reflexivity|]. repeat split; auto.
  eexists. unfold currentLine. simpl. rewrite index_insert_same by lia.
  split; [reflexivity|].
  rewrite !len_app, len_take, len_drop by lia.
  pose proof (len_runesToString (List.filter (λ r : rune, 32 <=? r) runes)).
  pose proof (len_nonneg (List.filter (λ r : rune, 32 <=? r) runes)). lia.
Qed.

Lemma deleteBeforeCursor_ok m :
  CursorOK m ->
  bufferStep m (deleteBeforeCursor m).
Proof.
  intros (line & Hl & Hc). unfold deleteBeforeCursor.
  pose proof (currentLine_range _ _ Hl) as Hr. unfold currentLine in Hl.
  destruct (Z.ltb_spec 0 (cursorCol m)).
  - rewrite Hl. simpl.
    rewrite sliceTo_ok, sliceFrom_ok by lia. simpl.
    rewrite setIndex_ok by lia. simpl.
    eexists. split; [reflexivity|]. repeat split; auto.
    eexists. unfold currentLine. simpl. rewrite index_insert_same by lia.
    split; [reflexivity|].
    rewrite !len_app, len_take, len_drop by lia. lia.
  - destruct (Z.ltb_spec 0 (cursorRow m)).
    + destruct (index_in_range (lines m) (cursorRow m - 1)) as [prev Hp]; [lia|].
      rewrite Hp, Hl. simpl.
      rewrite setIndex_ok by lia. simpl.
      rewrite sliceTo_ok, sliceFrom_ok by (rewrite len_insert; lia). simpl.
      eexists. split; [reflexivity|]. repeat split; auto.
      exists (prev ++ line). unfold currentLine. simpl. split.
      * apply index_Some. split; [lia|].
        rewrite lookup_app_l by (rewrite length_take, length_insert; unfold len in Hr; lia).
        rewrite lookup_take_lt by lia.
        apply list_lookup_insert_eq. unfold len in Hr. lia.
      * rewrite len_app. pose proof (len_nonneg prev). pose proof (len_nonneg line). lia.
    + apply bufferStep_id; exists line; auto.
Qed.

Lemma cleanupLoop_len fuel ls :
  1 <= len ls -> 1 <= len (cleanupLoop fuel ls) <= len ls.
Proof.
  revert ls. induction fuel as [|k IH]; intros ls H; simpl; [lia|].
  unfold lastTwoBlank. destruct (Z.ltb_spec 1 (len ls)); simpl; [|lia].
  destruct (isBlankAt ls (len ls - 1) && isBlankAt ls (len ls - 2)); [|lia].
  assert (len (take (Z.to_nat (len ls - 1)) ls) = len ls - 1) by (apply len_take; lia).
  specialize (IH (take (Z.to_nat (len ls - 1)) ls)). lia.
Qed.

(** The loop has stopped when the fuel of [cleanupExtraBlankLines] is used. *)
Lemma cleanupLoop_stops fuel ls :
  (length ls <= fuel)%nat -> lastTwoBlank (cleanupLoop fuel ls) = false.
Proof.
  revert ls. induction fuel as [|k IH]; intros ls H; simpl.
  - unfold lastTwoBlank. destruct (Z.ltb_spec 1 (len ls)); [unfold len in *; lia|reflexivity].
  - destruct (lastTwoBlank ls) eqn:E; [|exact E].
    apply IH. rewrite length_take. unfold len. lia.
Qed.

Lemma insertNewline_ok m :
  CursorOK m -> bufferStep m (insertNewline m).
Proof.
  intros (line & Hl & Hc). unfold insertNewline.
  pose proof (currentLine_range _ _ Hl) as Hr. unfold currentLine in Hl.
  rewrite Hl. simpl.
  rewrite (sliceTo_ok line), (sliceFrom_ok line) by lia. simpl.
  rewrite sliceTo_ok by lia. simpl.
  assert (T : forall newLines, 1 <= len newLines ->
    bufferStep m
      (let m := with_lines newLines m in
       let m := with_cursorRow (cursorRow m + 1) m in
       let m := with_cursorCol 0 m in
       let m := cleanupExtraBlankLines m in
       if (len (lines m) <=? cursorRow m) && (0 <? len (lines m)) then
         Some (with_cursorRow (len (lines m) - 1) m)
       else if len (lines m) =? 0 then
         Some (with_cursorRow 0 (with_lines [[]] m))
       else Some m)).
  { intros newLines Hlen. simpl.
    pose proof (cleanupLoop_len (length newLines) newLines Hlen) as Hc'.
    set (ls := cleanupLoop (length newLines) newLines) in *.
    assert (Hfin : forall r, 0 <= r < len ls ->
       CursorOK (with_cursorRow r (cleanupExtraBlankLines
          (with_cursorCol 0 (with_cursorRow (cursorRow m + 1) (with_lines newLines m)))))).
    { intros r Hrr. destruct (index_in_range ls r Hrr) as [l Hl'].
      exists l. unfold currentLine. simpl. fold ls. split; [exact Hl'|].
      pose proof (len_nonneg l). lia. }
    destruct (Z.leb_spec (len ls) (cursorRow m + 1)); simpl.
    - destruct (Z.ltb_spec 0 (len ls)); simpl; [|lia].
      eexists. split; [reflexivity|]. repeat split; auto. apply Hfin. lia.
    - destruct (Z.eqb_spec (len ls) 0); simpl; [lia|].
      eexists. split; [reflexivity|]. repeat split; auto.
      specialize (Hfin (cursorRow m + 1)). apply Hfin. lia. }
  destruct (Z.ltb_spec (cursorRow m + 1) (len (lines m))).
  - rewrite sliceFrom_ok by lia. simpl. apply T.
    rewrite !len_app, !len_cons, !len_nil.
    pose proof (len_nonneg (take (Z.to_nat (cursorRow m)) (lines m))).
    pose proof (len_nonneg (drop (Z.to_nat (cursorRow m + 1)) (lines m))). lia.
  - simpl. apply T.
    rewrite !len_app, !len_cons, !len_nil.
    pose proof (len_nonneg (take (Z.to_nat (cursorRow m)) (lines m))). lia.
Qed.

Lemma CursorOK_at m row col line :
  index (lines m) row = Some line -> 0 <= col <= len line ->
  CursorOK (with_cursorCol col (with_cursorRow row m)).
Proof. intros H1 H2. exists line. split; assumption. Qed.

Lemma moveCursorUp_ok m : CursorOK m -> bufferStep m (moveCursorUp m).
Proof.
  intros (line & Hl & Hc). unfold moveCursorUp.
  pose proof (currentLine_range _ _ Hl) as Hr.
  destruct (Z.ltb_spec 0 (cursorRow m)); [|apply bufferStep_id; exists line; auto].
  destruct (index_in_range (lines m) (cursorRow m - 1)) as [l Hl']; [lia|].
  simpl. rewrite Hl'. simpl. pose proof (len_nonneg l).
  destruct (Z.ltb_spec (len l) (cursorCol m)).
  - eexists. split; [reflexivity|]. repeat split; auto.
    exists l. split; [exact Hl'|simpl; lia].
  - eexists. split; [reflexivity|]. repeat split; auto.
    exists l. split; [exact Hl'|simpl; lia].
Qed.

Lemma moveCursorDown_ok m : CursorOK m -> bufferStep m (moveCursorDown m).
Proof.
  intros (line & Hl & Hc). unfold moveCursorDown.
  pose proof (currentLine_range _ _ Hl) as Hr.
  destruct (Z.ltb_spec (cursorRow m) (len (lines m) - 1));
    [|apply bufferStep_id; exists line; auto].
  destruct (index_in_range (lines m) (cursorRow m + 1)) as [l Hl']; [lia|].
  simpl. rewrite Hl'. simpl. pose proof (len_nonneg l).
  destruct (Z.ltb_spec (len l) (cursorCol m)).
  - eexists. split; [reflexivity|]. repeat split; auto.
    exists l. split; [exact Hl'|simpl; lia].
  - eexists. split; [reflexivity|]. repeat split; auto.
    exists l. split; [exact Hl'|simpl; lia].
Qed.

Lemma moveCursorLeft_ok m : CursorOK m -> bufferStep m (moveCursorLeft m).
Proof.
  intros (line & Hl & Hc). unfold moveCursorLeft.
  pose proof (currentLine_range _ _ Hl) as Hr.
  destruct (Z.ltb_spec 0 (cursorCol m)).
  { eexists. split; [reflexivity|]. repeat split; auto.
    exists line. split; [exact Hl|simpl; lia]. }
  destruct (Z.ltb_spec 0 (cursorRow m)); [|apply bufferStep_id; exists line; auto].
  destruct (index_in_range (lines m) (cursorRow m - 1)) as [l Hl']; [lia|].
  simpl. rewrite Hl'. simpl. pose proof (len_nonneg l).
  eexists. split; [reflexivity|]. repeat split; auto.
  exists l. split; [exact Hl'|simpl; lia].
Qed.

Lemma moveCursorRight_ok m : CursorOK m -> bufferStep m (moveCursorRight m).
Proof.
  intros (line & Hl & Hc). unfold moveCursorRight.
  pose proof (currentLine_range _ _ Hl) as Hr. unfold currentLine in Hl.
  rewrite Hl. simpl.
  destruct (Z.ltb_spec (cursorCol m) (len line)).
  { eexists. split; [reflexivity|]. repeat split; auto.
    exists line. split; [exact Hl|simpl; lia]. }
  destruct (Z.ltb_spec (cursorRow m) (len (lines m) - 1));
    [|apply bufferStep_id; exists line; auto].
  destruct (index_in_range (lines m) (cursorRow m + 1)) as [l Hl']; [lia|].
  pose proof (len_nonneg l).
  eexists. split; [reflexivity|]. repeat split; auto.
  exists l. split; [exact Hl'|simpl; lia].
Qed.

(** ** The backward scan and the word fragment *)

Lemma scanLeftFrom_ok f runes n :
  (n <= length runes)%nat ->
  exists k, scanLeftFrom (Some f) runes n = Some k /\ (k <= n)%nat.
Proof.
  induction n as [|n IH]; intros H; simpl.
  - exists O. auto.
  - destruct (lookup_lt_is_Some_2 runes n) as [r Hr]; [lia|].
    rewrite Hr. simpl. destruct (f r).
    + destruct IH as (k & -> & Hk); [lia|]. exists k. split; [reflexivity|lia].
    + exists (S n). auto.
Qed.

Lemma scanLeft_ok f runes col :
  col <= len runes ->
  exists start, scanLeft (Some f) runes col = Some start
    /\ (0 <= col -> 0 <= start <= col) /\ (col < 0 -> start = col).
Proof.
  intros H. unfold scanLeft. destruct (Z.ltb_spec 0 col).
  - destruct (scanLeftFrom_ok f runes (Z.to_nat col)) as (k & -> & Hk);
      [unfold len in H; lia|].
    simpl. eexists. split; [reflexivity|]. lia.
  - exists col. split; [reflexivity|]. lia.
Qed.

(** The result of the scan: everything from it to the start column is
    accepted, and the rune before it, if any, is not. *)
Lemma scanLeftFrom_spec f runes n k :
  scanLeftFrom (Some f) runes n = Some k ->
  (k <= n)%nat
  /\ (forall i r, (k <= i < n)%nat -> runes !! i = Some r -> f r = true)
  /\ (forall j r, k = S j -> runes !! j = Some r -> f r = false).
Proof.
  revert k. induction n as [|n IH]; intros k; simpl.
  - intros [= <-]. repeat split; [lia | intros; lia | discriminate].
  - destruct (runes !! n) as [r|] eqn:Hr; simpl; [|discriminate].
    destruct (f r) eqn:Hf.
    + intros Hk. destruct (IH _ Hk) as (H1 & H2 & H3).
      split; [lia|]. split; [|exact H3].
      intros i r' Hi Hi'. destruct (decide (i = n)) as [->|].
      * congruence.
      * apply (H2 i); [lia|assumption].
    + intros [= <-]. split; [lia|]. split; [intros; lia|].
      intros j r' [= <-] Hj. congruence.
Qed.

Lemma currentWordFragment_ok f m :
  CursorOK m ->
  exists word, currentWordFragment (Some f) m = Some word /\
    (word <> [] ->
     exists line r, currentLine m = Some line /\
       0 < cursorCol m <= codepointLength line /\
       index (stringToRunes line) (cursorCol m - 1) = Some r /\ f r = true).
Proof.
  intros (line & Hl & Hc). unfold currentWordFragment.
  pose proof (currentLine_range _ _ Hl) as Hr. unfold currentLine in Hl.
  destruct (Z.leb_spec (len (lines m)) (cursorRow m)); [lia|].
  rewrite Hl. simpl.
  destruct (Z.eqb_spec (cursorCol m) 0); [exists []; split; [reflexivity|congruence]|].
  destruct (Z.ltb_spec (len (stringToRunes line)) (cursorCol m));
    [exists []; split; [reflexivity|congruence]|].
  destruct (scanLeft_ok f (stringToRunes line) (cursorCol m)) as (start & -> & Hs & _); [lia|].
  simpl. specialize (Hs ltac:(lia)).
  destruct (Z.ltb_spec start (cursorCol m)); simpl;
    [|exists []; split; [reflexivity|congruence]].
  destruct (Z.ltb_spec 0 (cursorCol m)); simpl; [|lia].
  destruct (index_in_range (stringToRunes line) (cursorCol m - 1)) as [r Hr']; [lia|].
  rewrite Hr'. simpl.
  destruct (f r) eqn:Hf; [|exists []; split; [reflexivity|congruence]].
  rewrite slice_ok by lia. simpl. eexists. split; [reflexivity|].
  intros _. exists line, r. unfold currentLine, codepointLength. repeat split; auto; lia.
Qed.

Lemma getTextBeforeCursor_ok m :
  CursorOK m -> exists text, getTextBeforeCursor m = Some text.
Proof.
  intros (line & Hl & Hc). unfold getTextBeforeCursor.
  pose proof (currentLine_range _ _ Hl) as Hr. unfold currentLine in Hl.
  destruct (Z.ltb_spec (cursorRow m) 0); [lia|].
  destruct (Z.leb_spec (len (lines m)) (cursorRow m)); [lia|]. simpl.
  rewrite sliceTo_ok by lia. simpl. rewrite Hl. simpl.
  destruct (Z.ltb_spec 0 (cursorCol m)); [|eexists; reflexivity].
  pose proof (len_nonneg (stringToRunes line)).
  rewrite sliceTo_ok by lia. simpl. eexists; reflexivity.
Qed.

Lemma mustClear_fragment f m word :
  CursorOK m ->
  currentWordFragment (Some f) m = Some word ->
  mustClear (Some f) word m = Some (bool_decide (word = [])).
Proof.
  intros HC Hw. unfold mustClear.
  destruct (decide (word = [])) as [->|Hne]; [reflexivity|].
  rewrite (bool_decide_eq_false_2 _ Hne).
  destruct (currentWordFragment_ok f m HC) as (w & Hw' & Hspec).
  rewrite Hw in Hw'. injection Hw' as <-.
  destruct (Hspec Hne) as (line & r & Hl & Hcol & Hr & Hf).
  pose proof (currentLine_range _ _ Hl) as Hrow. unfold currentLine in Hl.
  unfold codepointLength in Hcol.
  destruct (Z.ltb_spec 0 (cursorCol m)); [|lia].
  destruct (Z.ltb_spec (cursorRow m) (len (lines m))); [|lia]. simpl.
  rewrite Hl. simpl.
  destruct (Z.leb_spec (cursorCol m) (len (stringToRunes line))); [|lia].
  rewrite Hr. simpl. rewrite Hf. simpl.
  destruct (Z.ltb_spec (len (stringToRunes line)) (cursorCol m)); [lia|reflexivity].
Qed.


Lemma updateAutocomplete_ok f m :
  CursorOK m -> IsWordCharFn (config m) = Some f -> SelectionOK m ->
  exists m' calls, updateAutocomplete m = Some (m', calls)
    /\ sameBuffer m m' /\ sameRest m m' /\ SelectionOK m' /\ PopupColOK m'.
Proof.
  intros HC Hf HS. unfold updateAutocomplete. rewrite Hf.
  destruct (currentWordFragment_ok f m HC) as (word & Hw & Hspec).
  rewrite Hw. simpl. rewrite (mustClear_fragment f m word HC Hw). simpl.
  destruct (decide (word = [])) as [->|Hne].
  { simpl. eexists _, _. split; [reflexivity|].
    split; [repeat split|]. split; [repeat split|].
    split; intros ?; discriminate. }
  rewrite (bool_decide_eq_false_2 _ Hne).
  destruct (Hspec Hne) as (line & r & Hl & Hcol & _ & _).
  assert (HP : forall m', lines m' = lines m -> cursorRow m' = cursorRow m ->
                          cursorCol m' = cursorCol m -> PopupColOK m').
  { intros m' E1 E2 E3 _. exists line. unfold currentLine in *.
    rewrite E1, E2, E3. split; [assumption|lia]. }
  destruct (decide (word = lastSuggestedWord m)) as [E|E].
  - rewrite (bool_decide_eq_true_2 _ E). simpl.
    destruct (Z.eqb_spec (len (suggestions m)) 0).
    + eexists _, _. split; [reflexivity|].
      split; [repeat split|]. split; [repeat split|].
      split; [intros ?; discriminate|apply HP; reflexivity].
    + eexists _, _. split; [reflexivity|].
      split; [repeat split|]. split; [repeat split|].
      split; [exact HS|apply HP; reflexivity].
  - rewrite (bool_decide_eq_false_2 _ E). simpl.
    destruct (AutoCompleteFn (config m)) as [g|].
    + destruct (getTextBeforeCursor_ok
                  (with_popupScrollOffset 0 (with_selectedSuggestionIndex 0 m)))
        as [text Ht].
      { destruct HC as (l & ? & ?). exists l. auto. }
      rewrite Ht. simpl. eexists _, _. split; [reflexivity|].
      split; [repeat split|]. split; [repeat split|].
      split; [|apply HP; reflexivity].
      intros Hs. simpl in *. apply Z.ltb_lt in Hs. lia.
    + simpl. eexists _, _. split; [reflexivity|].
      split; [repeat split|]. split; [repeat split|].
      split; [|apply HP; reflexivity].
      intros Hs. simpl in *. discriminate.
Qed.

Lemma navigateAutocompleteUp_frame m :
  let m' := navigateAutocompleteUp m in
  sameBuffer m m' /\ sameRest m m' /\ showPopup m' = showPopup m
  /\ suggestions m' = suggestions m.
Proof.
  unfold navigateAutocompleteUp.
  destruct (showPopup m && (0 <? len (suggestions m))); simpl; [|repeat split].
  destruct (selectedSuggestionIndex m - 1 <? 0); simpl; [repeat split|].
  destruct (selectedSuggestionIndex m - 1 <? popupScrollOffset m); repeat split.
Qed.

Lemma navigateAutocompleteDown_frame m :
  let m' := navigateAutocompleteDown m in
  sameBuffer m m' /\ sameRest m m' /\ showPopup m' = showPopup m
  /\ suggestions m' = suggestions m.
Proof.
  unfold navigateAutocompleteDown.
  destruct (showPopup m && (0 <? len (suggestions m))); simpl; [|repeat split].
  destruct (len (suggestions m) <=? selectedSuggestionIndex m + 1); simpl;
    [repeat split|].
  destruct (popupScrollOffset m + PopupMaxHeight (config m)
            <=? selectedSuggestionIndex m + 1); repeat split.
Qed.

Lemma navigateAutocompleteUp_selection m :
  SelectionOK m -> SelectionOK (navigateAutocompleteUp m).
Proof.
  intros HS. unfold navigateAutocompleteUp.
  destruct (showPopup m) eqn:Hp; simpl; [|exact HS].
  pose proof (HS Hp) as HS'.
  destruct (Z.ltb_spec 0 (len (suggestions m))); simpl; [|exact HS].
  destruct (Z.ltb_spec (selectedSuggestionIndex m - 1) 0); simpl.
  { intros _. simpl. lia. }
  destruct (Z.ltb_spec (selectedSuggestionIndex m - 1) (popupScrollOffset m));
    intros _; simpl; lia.
Qed.

Lemma navigateAutocompleteDown_selection m :
  SelectionOK m -> SelectionOK (navigateAutocompleteDown m).
Proof.
  intros HS. unfold navigateAutocompleteDown.
  destruct (showPopup m) eqn:Hp; simpl; [|exact HS].
  pose proof (HS Hp) as HS'.
  destruct (Z.ltb_spec 0 (len (suggestions m))); simpl; [|exact HS].
  destruct (Z.leb_spec (len (suggestions m)) (selectedSuggestionIndex m + 1)); simpl.
  { intros _. simpl. lia. }
  destruct (Z.leb_spec (popupScrollOffset m + PopupMaxHeight (config m))
                       (selectedSuggestionIndex m + 1));
    intros _; simpl; lia.
Qed.

Lemma applyAutocomplete_ok f m :
  CursorOK m -> IsWordCharFn (config m) = Some f ->
  SelectionOK m -> PopupColOK m ->
  exists m', applyAutocomplete m = Some m' /\ CursorOK m' /\ sameRest m m'
    /\ historyIndex m' = historyIndex m /\ showPopup m' = false
    /\ (showPopup m = false -> m' = m).
Proof.
  intros (line & Hl & Hc) Hf HS HP. unfold applyAutocomplete.
  destruct (showPopup m) eqn:Hp; simpl;
    [|exists m; repeat split; auto; exists line; auto].
  destruct (Z.ltb_spec 0 (len (suggestions m))); simpl;
    [|specialize (HS Hp); lia].
  destruct (index_in_range (suggestions m) (selectedSuggestionIndex m)) as [s Hs];
    [apply HS; exact Hp|].
  rewrite Hs. simpl.
  pose proof (currentLine_range _ _ Hl) as Hr.
  destruct (HP Hp) as (line' & Hl' & Hcp). rewrite Hl in Hl'. injection Hl' as <-.
  unfold currentLine in Hl. rewrite Hl. simpl. rewrite Hf.
  unfold codepointLength in Hcp.
  destruct (scanLeft_ok f (stringToRunes line) (cursorCol m)) as (start & -> & Hst & _);
    [lia|].
  simpl. specialize (Hst ltac:(lia)).
  destruct (Z.ltb_spec start 0); [lia|].
  rewrite sliceTo_ok by lia. simpl.
  assert (Hsuf : exists suffix,
     (if cursorCol m <? len (stringToRunes line)
      then runesToString <$> sliceFrom (stringToRunes line) (cursorCol m)
      else Some []) = Some suffix).
  { destruct (Z.ltb_spec (cursorCol m) (len (stringToRunes line))).
    - rewrite sliceFrom_ok by lia. eexists; reflexivity.
    - eexists; reflexivity. }
  destruct Hsuf as (suffix & ->). simpl.
  rewrite setIndex_ok by lia. simpl.
  eexists. split; [reflexivity|]. repeat split; auto; try discriminate.
  eexists. unfold currentLine. simpl. rewrite index_insert_same by lia.
  split; [reflexivity|].
  rewrite !len_app.
  pose proof (len_runesToString (take (Z.to_nat start) (stringToRunes line))) as L.
  rewrite len_take in L by lia.
  pose proof (len_nonneg (Text s)). pose proof (len_nonneg suffix). lia.
Qed.

(** ** History *)

Lemma Split_len s sep : 1 <= len (Split s sep).
Proof.
  induction s as [|b s IH]; simpl; [rewrite len_cons, len_nil; lia|].
  destruct (bool_decide (b = sep)).
  - rewrite len_cons. lia.
  - destruct (Split s sep); rewrite !len_cons in *; lia.
Qed.

Lemma loadHistoryEntry_ok m :
  0 <= historyIndex m < len (history m) ->
  exists m', loadHistoryEntry m = Some m' /\ CursorOK m' /\ sameRest m m'
    /\ historyIndex m' = historyIndex m /\ showPopup m' = false.
Proof.
  intros H. unfold loadHistoryEntry.
  destruct (Z.leb_spec 0 (historyIndex m)); [|lia].
  destruct (Z.ltb_spec (historyIndex m) (len (history m))); [|lia]. simpl.
  destruct (index_in_range _ _ H) as [entry ->]. simpl.
  pose proof (Split_len entry newline) as HL.
  destruct (Z.ltb_spec (len (Split entry newline) - 1) 0); [lia|]. simpl.
  destruct (Z.ltb_spec 0 (len (Split entry newline))); [|lia].
  destruct (index_in_range (Split entry newline) (len (Split entry newline) - 1))
    as [l Hl]; [lia|].
  rewrite Hl. simpl. eexists. split; [reflexivity|].
  split; [|repeat split].
  exists l. unfold currentLine. simpl. split; [exact Hl|].
  pose proof (len_nonneg l). lia.
Qed.

Lemma navigateHistoryUp_ok m :
  CursorOK m -> HistoryOK m ->
  exists m', navigateHistoryUp m = Some m' /\ CursorOK m' /\ HistoryOK m'
    /\ sameRest m m' /\ (showPopup m = false -> showPopup m' = false).
Proof.
  intros HC HH. unfold navigateHistoryUp, HistoryOK in *.
  destruct (Z.eqb_spec (len (history m)) 0); [exists m; repeat split; auto; lia|].
  pose proof (len_nonneg (history m)).
  destruct (Z.eqb_spec (historyIndex m) (-1)).
  - destruct (loadHistoryEntry_ok (with_historyIndex (len (history m) - 1) m))
      as (m' & -> & HC' & (E1 & E2 & E3) & E4 & E5); [simpl; lia|].
    simpl in *. exists m'. split; [reflexivity|]. split; [exact HC'|].
    split; [unfold HistoryOK; rewrite E2, E4; lia|]. repeat split; auto.
  - destruct (Z.ltb_spec 0 (historyIndex m)); [|exists m; repeat split; auto; lia].
    destruct (loadHistoryEntry_ok (with_historyIndex (historyIndex m - 1) m))
      as (m' & -> & HC' & (E1 & E2 & E3) & E4 & E5); [simpl; lia|].
    simpl in *. exists m'. split; [reflexivity|]. split; [exact HC'|].
    split; [unfold HistoryOK; rewrite E2, E4; lia|]. repeat split; auto.
Qed.

Lemma navigateHistoryDown_ok m :
  CursorOK m -> HistoryOK m ->
  exists m', navigateHistoryDown m = Some m' /\ CursorOK m' /\ HistoryOK m'
    /\ sameRest m m' /\ (showPopup m = false -> showPopup m' = false).
Proof.
  intros HC HH. unfold navigateHistoryDown, HistoryOK in *.
  pose proof (len_nonneg (history m)).
  destruct (Z.eqb_spec (historyIndex m) (-1)); [exists m; repeat split; auto; lia|].
  destruct (Z.ltb_spec (historyIndex m) (len (history m) - 1)).
  - destruct (loadHistoryEntry_ok (with_historyIndex (historyIndex m + 1) m))
      as (m' & -> & HC' & (E1 & E2 & E3) & E4 & E5); [simpl; lia|].
    simpl in *. exists m'. split; [reflexivity|]. split; [exact HC'|].
    split; [unfold HistoryOK; rewrite E2, E4; lia|]. repeat split; auto.
  - eexists. split; [reflexivity|].
    split; [exists []; split; [reflexivity|simpl; unfold len; simpl; lia]|].
    split; [unfold HistoryOK; simpl; lia|]. repeat split; auto.
Qed.

(** ** Submission *)

Lemma insertNewline_pristine m m' :
  lines m = [[]] -> cursorRow m = 0 -> cursorCol m = 0 ->
  insertNewline m = Some m' ->
  lines m' = [[]] /\ cursorRow m' = 0 /\ cursorCol m' = 0.
Proof.
  intros E1 E2 E3. unfold insertNewline. rewrite E1, E2, E3. simpl.
  unfold cleanupExtraBlankLines. simpl. rewrite E2. simpl.
  intros [= <-]. simpl. auto.
Qed.

Lemma CursorOK_pristine m :
  lines m = [[]] -> cursorRow m = 0 -> cursorCol m = 0 -> CursorOK m.
Proof.
  intros E1 E2 E3. exists []. unfold currentLine. rewrite E1, E2, E3.
  split; [reflexivity|]. unfold len. simpl. lia.
Qed.

Lemma Inv_pristine m m' :
  ConfigOK m -> config m' = config m ->
  lines m' = [[]] -> cursorRow m' = 0 -> cursorCol m' = 0 ->
  historyIndex m' = -1 -> showPopup m' = false -> Inv m'.
Proof.
  intros HCf E0 E1 E2 E3 E4 E5. split.
  - apply CursorOK_pristine; assumption.
  - unfold HistoryOK. rewrite E4. pose proof (len_nonneg (history m')). lia.
  - intros ?; congruence.
  - intros ?; congruence.
  - unfold ConfigOK. rewrite E0. exact HCf.
  - intros _. auto.
Qed.

Lemma handleEnter_submits m p :
  IsCompleteFn (config m) = Some p ->
  p (getCurrentInput m) = true ->
  TrimSpace (getCurrentInput m) <> str ";" ->
  handleEnter m =
    let input := getCurrentInput m in
    let '(output, calls) :=
      match ExecuteFn (config m) with
      | Some f => (executingOutput (f input), [CallExecute input])
      | None => (noExecuteFnOutput, [])
      end in
    let m := with_lastOutput output m in
    let m := if negb (bool_decide (TrimSpace input = []))
             then with_history (history m ++ [input]) m else m in
    Some (clearAutocomplete
            (with_historyIndex (-1)
               (with_cursorCol 0 (with_cursorRow 0 (with_lines [[]] m)))), calls).
Proof.
  intros Hp Hc Hne. unfold handleEnter. rewrite Hp. simpl. rewrite Hc.
  rewrite (bool_decide_eq_false_2 _ Hne). simpl.
  destruct (ExecuteFn (config m)); reflexivity.
Qed.

Lemma handleEnter_ok m :
  Inv m ->
  exists m' calls, handleEnter m = Some (m', calls) /\ Inv m'
    /\ (submits m
        \/ (lastOutput m' = lastOutput m
            /\ (lastOutput m <> [] -> lines m' = lines m))).
Proof.
  intros [HC HH HS HP HCf HO]. pose proof HCf as [[p Hp] Hw].
  destruct (p (getCurrentInput m)
            && negb (bool_decide (TrimSpace (getCurrentInput m) = str ";")))
    eqn:Hcond.
  - apply andb_true_iff in Hcond as [Hc Ht].
    apply negb_true_iff, bool_decide_eq_false in Ht.
    rewrite (handleEnter_submits m p Hp Hc Ht). cbv zeta.
    destruct (ExecuteFn (config m));
      destruct (negb (bool_decide (TrimSpace (getCurrentInput m) = [])));
      eexists _, _; (split; [reflexivity|]);
      (split; [apply (Inv_pristine m); auto | left; exists p; auto]).
  - unfold handleEnter. rewrite Hp. simpl. rewrite Hcond.
    destruct (insertNewline_ok m HC) as (m1 & E & HC1 & (F1 & F2 & F3) & FS & FH).
    rewrite E. simpl. eexists _, _. split; [reflexivity|].
    assert (Hpr : lastOutput m <> [] ->
                  lines m = [[]] /\ lines m1 = [[]]
                  /\ cursorRow m1 = 0 /\ cursorCol m1 = 0).
    { intros Hne. destruct (HO Hne) as (_ & E1 & E2 & E3).
      destruct (insertNewline_pristine m m1 E1 E2 E3 E) as (? & ? & ?). auto. }
    split; [split|].
    + destruct HC1 as (l & ? & ?). exists l. auto.
    + unfold HistoryOK in *. simpl. rewrite F2.
      pose proof (len_nonneg (history m)). destruct FH as [-> | ->]; lia.
    + intros ?; discriminate.
    + intros ?; discriminate.
    + unfold ConfigOK. simpl. rewrite F1. exact HCf.
    + intros Hne. simpl in Hne. rewrite F3 in Hne.
      destruct (Hpr Hne) as (_ & ? & ? & ?). auto.
    + right. simpl. split; [exact F3|]. intros Hne.
      destruct (Hpr Hne) as (-> & -> & _). reflexivity.
Qed.

(** ** Every key press keeps the invariant *)

Lemma Inv_clearLastOutputOnEdit t m : Inv m -> Inv (clearLastOutputOnEdit t m).
Proof.
  intros [HC HH HS HP HCf HO].
  destruct t; simpl; split; auto; intros Hne; simpl in Hne; congruence.
Qed.

Lemma CursorOK_sameBuffer m m' : CursorOK m -> sameBuffer m m' -> CursorOK m'.
Proof.
  intros (l & Hl & Hc) (E1 & E2 & E3 & _). exists l. unfold currentLine in *.
  rewrite E1, E2, E3. auto.
Qed.

Lemma ConfigOK_same m m' : ConfigOK m -> config m' = config m -> ConfigOK m'.
Proof. unfold ConfigOK. intros H ->. exact H. Qed.

(** An edit of the buffer followed by [updateAutocomplete]. *)
Lemma edit_then_update m r :
  Inv m -> lastOutput m = [] -> bufferStep m r ->
  exists m' calls,
    (m1 ← r; '(m2, calls) ← updateAutocomplete m1; Some (m2, CmdNil, calls))
      = Some (m', CmdNil, calls) /\ Inv m' /\ lastOutput m' = [].
Proof.
  intros [HC HH HS HP HCf HO] Hout
    (m1 & -> & HC1 & (F1 & F2 & F3) & (G1 & G2 & G3 & G4 & G5) & FH).
  simpl. destruct HCf as [Hcp [f Hf]].
  destruct (updateAutocomplete_ok f m1) as
    (m2 & calls & -> & HB & (K1 & K2 & K3) & HS2 & HP2).
  { exact HC1. }
  { rewrite F1. exact Hf. }
  { unfold SelectionOK. rewrite G1, G2, G3. exact HS. }
  simpl. exists m2, calls. split; [reflexivity|].
  assert (Hout2 : lastOutput m2 = []) by congruence.
  split; [|exact Hout2]. split.
  - eapply CursorOK_sameBuffer; eauto.
  - destruct HB as (_ & _ & _ & B4). unfold HistoryOK in *.
    rewrite B4, K2, F2. destruct FH as [-> | ->]; [lia|].
    pose proof (len_nonneg (history m)). lia.
  - exact HS2.
  - exact HP2.
  - eapply ConfigOK_same; [split; [exact Hcp|eauto]|]. congruence.
  - intros Hne. exfalso. apply Hne. exact Hout2.
Qed.

(** A cursor move followed by [clearAutocomplete]. *)
Lemma move_then_clear m r :
  Inv m -> lastOutput m = [] -> bufferStep m r ->
  exists m',
    (m1 ← r; Some (clearAutocomplete m1, CmdNil, @nil Call))
      = Some (m', CmdNil, []) /\ Inv m' /\ lastOutput m' = [].
Proof.
  intros [HC HH HS HP HCf HO] Hout
    (m1 & -> & HC1 & (F1 & F2 & F3) & _ & FH).
  simpl. eexists. split; [reflexivity|].
  assert (Hout2 : lastOutput (clearAutocomplete m1) = []) by (simpl; congruence).
  split; [|exact Hout2]. split.
  - destruct HC1 as (l & ? & ?). exists l. auto.
  - unfold HistoryOK in *. simpl. rewrite F2. destruct FH as [-> | ->]; [lia|].
    pose proof (len_nonneg (history m)). lia.
  - intros ?; discriminate.
  - intros ?; discriminate.
  - eapply ConfigOK_same; [exact HCf|]. exact F1.
  - intros Hne. exfalso. apply Hne. exact Hout2.
Qed.

(** A cursor move while no popup shows. *)
Lemma move_no_popup m r :
  Inv m -> lastOutput m = [] -> showPopup m = false -> bufferStep m r ->
  exists m', r = Some m' /\ Inv m' /\ lastOutput m' = [].
Proof.
  intros [HC HH HS HP HCf HO] Hout Hpop
    (m1 & -> & HC1 & (F1 & F2 & F3) & (G1 & G2 & G3 & G4 & G5) & FH).
  exists m1. split; [reflexivity|].
  assert (Hout2 : lastOutput m1 = []) by congruence.
  split; [|exact Hout2]. split.
  - exact HC1.
  - unfold HistoryOK in *. rewrite F2. destruct FH as [-> | ->]; [lia|].
    pose proof (len_nonneg (history m)). lia.
  - intros ?; congruence.
  - intros ?; congruence.
  - eapply ConfigOK_same; [exact HCf|]. exact F1.
  - intros Hne. exfalso. apply Hne. exact Hout2.
Qed.

(** Navigation in the suggestion list. *)
Lemma navigate_Inv nav m :
  Inv m -> lastOutput m = [] -> showPopup m = true ->
  Inv (navigate nav m) /\ lastOutput (navigate nav m) = [].
Proof.
  intros [HC HH HS HP HCf HO] Hout Hpop.
  assert (F : sameBuffer m (navigate nav m) /\ sameRest m (navigate nav m)
              /\ showPopup (navigate nav m) = showPopup m
              /\ suggestions (navigate nav m) = suggestions m).
  { destruct nav; [apply navigateAutocompleteUp_frame
                  |apply navigateAutocompleteDown_frame]. }
  destruct F as (HB & (F1 & F2 & F3) & G1 & G2).
  assert (HS' : SelectionOK (navigate nav m)).
  { destruct nav; [apply navigateAutocompleteUp_selection
                  |apply navigateAutocompleteDown_selection]; exact HS. }
  assert (Hout2 : lastOutput (navigate nav m) = []) by congruence.
  split; [|exact Hout2]. split.
  - eapply CursorOK_sameBuffer; eauto.
  - destruct HB as (_ & _ & _ & B4). unfold HistoryOK in *. rewrite B4, F2. exact HH.
  - exact HS'.
  - intros _. destruct (HP Hpop) as (l & Hl & Hc).
    destruct HB as (B1 & B2 & B3 & _). exists l. unfold currentLine in *.
    rewrite B1, B2, B3. auto.
  - eapply ConfigOK_same; eauto.
  - intros Hne. exfalso. apply Hne. exact Hout2.
Qed.

(** A step in the history while no popup shows. *)
Lemma history_step_Inv m m' :
  Inv m -> lastOutput m = [] -> showPopup m = false ->
  CursorOK m' -> HistoryOK m' -> sameRest m m' ->
  (showPopup m = false -> showPopup m' = false) ->
  Inv m' /\ lastOutput m' = [].
Proof.
  intros [HC HH HS HP HCf HO] Hout Hpop HC' HH' (F1 & F2 & F3) Hp'.
  specialize (Hp' Hpop).
  assert (Hout2 : lastOutput m' = []) by congruence.
  split; [|exact Hout2]. split; auto.
  - intros ?; congruence.
  - intros ?; congruence.
  - eapply ConfigOK_same; eauto.
  - intros Hne. exfalso. apply Hne. exact Hout2.
Qed.

Lemma handleUpArrow_ok m :
  Inv m -> lastOutput m = [] ->
  exists m', handleUpArrow m = Some m' /\ Inv m' /\ lastOutput m' = [].
Proof.
  intros HI Hout. pose proof HI as [HC HH HS HP HCf HO]. unfold handleUpArrow.
  destruct (showPopup m) eqn:Hpop.
  - eexists. split; [reflexivity|].
    apply (navigate_Inv SelectPrevious m HI Hout Hpop).
  - destruct (Z.eqb_spec (cursorRow m) 0).
    + destruct (navigateHistoryUp_ok m HC HH) as (m' & -> & HC' & HH' & HF & Hp').
      exists m'. split; [reflexivity|].
      apply (history_step_Inv m m'); assumption.
    + apply (move_no_popup m); auto. apply moveCursorUp_ok; assumption.
Qed.

Lemma handleDownArrow_ok m :
  Inv m -> lastOutput m = [] ->
  exists m', handleDownArrow m = Some m' /\ Inv m' /\ lastOutput m' = [].
Proof.
  intros HI Hout. pose proof HI as [HC HH HS HP HCf HO]. unfold handleDownArrow.
  destruct (showPopup m) eqn:Hpop.
  - eexists. split; [reflexivity|].
    apply (navigate_Inv SelectNext m HI Hout Hpop).
  - destruct (historyIndex m =? -1); simpl.
    + apply (move_no_popup m); auto. apply moveCursorDown_ok; assumption.
    + destruct (navigateHistoryDown_ok m HC HH) as (m' & -> & HC' & HH' & HF & Hp').
      exists m'. split; [reflexivity|].
      apply (history_step_Inv m m'); assumption.
Qed.

Lemma handleAutocompleteTab_ok m :
  Inv m ->
  exists m', handleAutocompleteTab m = Some m' /\ Inv m'
    /\ lastOutput m' = lastOutput m /\ (showPopup m = false -> m' = m).
Proof.
  intros HI. pose proof HI as [HC HH HS HP HCf HO]. unfold handleAutocompleteTab.
  destruct HCf as [Hcp [f Hf]].
  destruct (applyAutocomplete_ok f m HC Hf HS HP)
    as (m' & -> & HC' & (F1 & F2 & F3) & FH & Hpop & Hid).
  exists m'. split; [reflexivity|]. split; [|split; [exact F3|exact Hid]]. split.
  - exact HC'.
  - unfold HistoryOK in *. rewrite FH, F2. exact HH.
  - intros ?; congruence.
  - intros ?; congruence.
  - eapply ConfigOK_same; [split; [exact Hcp|eauto]|]. exact F1.
  - intros Hne. rewrite F3 in Hne. destruct (HO Hne) as (Hp0 & _).
    rewrite (Hid Hp0). apply HO. exact Hne.
Qed.

(** Every key press is answered, keeps the invariant, and has the effect
    [keyEffect] on the last output. *)
Theorem handleKeyPress_effect msg m :
  Inv m ->
  exists m' cmd calls,
    handleKeyPress msg m = Some (m', cmd, calls) /\ Inv m'
    /\ keyEffect (KType msg) m m'.
Proof.
  intros HI. unfold handleKeyPress.
  pose proof (Inv_clearLastOutputOnEdit (KType msg) m HI) as HI'.
  destruct (KType msg) eqn:Ht.
  - eexists _, _, _. split; [reflexivity|]. split; [exact HI'|reflexivity].
  - eexists _, _, _. split; [reflexivity|]. split; [exact HI'|reflexivity].
  - destruct (handleEnter_ok m HI) as (m' & calls & -> & HI2 & HE).
    simpl. eexists _, _, _. split; [reflexivity|]. split; [exact HI2|exact HE].
  - destruct (edit_then_update _ (handleBackspace (clearLastOutputOnEdit KeyBackspace m))
                HI' eq_refl) as (m' & calls & E & HI2 & HE).
    { apply deleteBeforeCursor_ok. apply HI'. }
    exists m', CmdNil, calls. split; [exact E|]. split; [exact HI2|exact HE].
  - destruct (handleAutocompleteTab_ok _ HI') as (m' & -> & HI2 & HE).
    simpl. eexists _, _, _. split; [reflexivity|]. split; [exact HI2|exact HE].
  - destruct (handleUpArrow_ok _ HI' eq_refl) as (m' & -> & HI2 & HE).
    simpl. eexists _, _, _. split; [reflexivity|]. split; [exact HI2|exact HE].
  - destruct (handleDownArrow_ok _ HI' eq_refl) as (m' & -> & HI2 & HE).
    simpl. eexists _, _, _. split; [reflexivity|]. split; [exact HI2|exact HE].
  - destruct (move_then_clear _ (moveCursorLeft (clearLastOutputOnEdit KeyLeft m))
                HI' eq_refl) as (m' & E & HI2 & HE).
    { apply moveCursorLeft_ok. apply HI'. }
    exists m', CmdNil, []. split; [exact E|]. split; [exact HI2|exact HE].
  - destruct (move_then_clear _ (moveCursorRight (clearLastOutputOnEdit KeyRight m))
                HI' eq_refl) as (m' & E & HI2 & HE).
    { apply moveCursorRight_ok. apply HI'. }
    exists m', CmdNil, []. split; [exact E|]. split; [exact HI2|exact HE].
  - destruct (edit_then_update _ (insertCharacter 32 (clearLastOutputOnEdit KeySpace m))
                HI' eq_refl) as (m' & calls & E & HI2 & HE).
    { apply insertRunes_ok. apply HI'. }
    exists m', CmdNil, calls. split; [exact E|]. split; [exact HI2|exact HE].
  - destruct (edit_then_update _ (insertRunes (Runes msg) (clearLastOutputOnEdit KeyRunes m))
                HI' eq_refl) as (m' & calls & E & HI2 & HE).
    { apply insertRunes_ok. apply HI'. }
    exists m', CmdNil, calls. split; [exact E|]. split; [exact HI2|exact HE].
  - eexists _, _, _. split; [reflexivity|]. split; [exact HI'|reflexivity].
Qed.

Theorem handleKeyPress_ok msg m :
  Inv m ->
  exists m' cmd calls, handleKeyPress msg m = Some (m', cmd, calls) /\ Inv m'.
Proof.
  intros HI.
  destruct (handleKeyPress_effect msg m HI) as (m' & cmd & calls & E & HI' & _).
  eauto.
Qed.

Lemma Update_ok msg m :
  Inv m -> exists m' cmd calls, Update msg m = Some (m', cmd, calls) /\ Inv m'.
Proof.
  intros HI. destruct msg as [k|]; simpl.
  - apply handleKeyPress_ok. exact HI.
  - eexists _, _, _. split; [reflexivity|exact HI].
Qed.

(** No sequence of messages makes the model panic, and the invariant holds
    after each of them. *)
Lemma run_ok msgs m :
  Inv m -> exists m' calls, run msgs m = Some (m', calls) /\ Inv m'.
Proof.
  revert m. induction msgs as [|msg msgs IH]; intros m HI; simpl.
  - eexists _, _. split; [reflexivity|exact HI].
  - destruct (Update_ok msg m HI) as (m1 & cmd & calls1 & -> & HI1). simpl.
    destruct (IH m1 HI1) as (m2 & calls2 & -> & HI2). simpl.
    eexists _, _. split; [reflexivity|exact HI2].
Qed.

Lemma NewPromptModel_Inv isLetter isDigit cfg :
  Inv (NewPromptModel isLetter isDigit cfg).
Proof.
  split.
  - apply CursorOK_pristine; reflexivity.
  - unfold HistoryOK. simpl. unfold len. simpl. lia.
  - intros ?; discriminate.
  - intros ?; discriminate.
  - split; simpl.
    + destruct (IsCompleteFn cfg); eauto.
    + destruct (IsWordCharFn cfg); eauto.
  - intros Hne. exfalso. apply Hne. reflexivity.
Qed.

(** ** Evaluating the model on an example *)

Lemma outcome_Some r v calls :
  outcome r = Some (v, calls) -> exists m, r = Some (m, calls) /\ view m = v.
Proof.
  destruct r as [[m c]|]; simpl; [|discriminate].
  intros [= <- <-]. exists m. auto.
Qed.

Lemma view_fields m l r c h hi s sp si lw po lo :
  view m = (l, r, c, h, hi, s, sp, si, lw, po, lo) ->
  lines m = l /\ cursorRow m = r /\ cursorCol m = c /\ history m = h
  /\ historyIndex m = hi /\ suggestions m = s /\ showPopup m = sp
  /\ selectedSuggestionIndex m = si /\ lastSuggestedWord m = lw
  /\ popupScrollOffset m = po /\ lastOutput m = lo.
Proof. unfold view. intros H. injection H. intros. repeat split; assumption. Qed.

Lemma quiet_Some r m calls : quiet r = Some (m, calls) -> r = Some m /\ calls = [].
Proof. destruct r; simpl; [|discriminate]. intros [= <- <-]. auto. Qed.

(** [evaluate r m E V] runs the closed computation [r] and introduces its
    result [m] with [E : r = Some (m, calls)] and the value of each field
    of [m]. *)
Ltac evaluate r m E :=
  let o := eval vm_compute in (outcome r) in
  let H := fresh in
  let V := fresh "V" in
  assert (H : outcome r = o) by (vm_compute; reflexivity);
  apply outcome_Some in H; destruct H as (m & E & V);
  apply view_fields in V;
  destruct V as (? & ? & ? & ? & ? & ? & ? & ? & ? & ? & ?).

(** Closes a conjunction of field values found by [evaluate]. *)
Ltac known :=
  repeat (split; [first [assumption | reflexivity]|]);
  first [assumption | reflexivity].

(** Rewrites with the known values of the fields of a model. *)
Ltac fields :=
  repeat match goal with
         | H : ?f ?m = _ |- context [?f ?m] => rewrite H
         end.

(** * The claims *)

(** C10.  When every rune of the slice is a control character (below the
    space character U+0020), [insertRunes] returns the model it was given:
    nothing is inserted, the cursor stays, and the history browse index is
    not reset to the sentinel. *)
Theorem C10_control_runes_change_nothing (runes : list rune) (m : PromptModel) :
  Forall (fun r => r < 0x20) runes -> insertRunes runes m = Some m.
Proof.
  intros H. unfold insertRunes.
  assert (E : List.filter (fun r => 0x20 <=? r) runes = []).
  { induction H as [|r rs Hr _ IH]; simpl; [reflexivity|].
    destruct (Z.leb_spec 32 r); [lia|exact IH]. }
  rewrite E. reflexivity.
Qed.

Lemma C10_witness :
  let m := with_historyIndex 0 (with_history [str "SELECT 1;"]
             (modelAt [str "SELECT 1;"] 0 9)) in
  insertRunes [0x07; 0x1B; 0x00] m = Some m /\ historyIndex m = 0.
Proof.
  split; [|reflexivity].
  apply C10_control_runes_change_nothing.
  repeat constructor.
Defined.

(** ** Scroll window of the suggestion list *)

Lemma navigate_config nav m : config (navigate nav m) = config m.
Proof.
  destruct nav; simpl.
  - apply (navigateAutocompleteUp_frame m).
  - apply (navigateAutocompleteDown_frame m).
Qed.

Lemma navigate_suggestions nav m : suggestions (navigate nav m) = suggestions m.
Proof.
  destruct nav; simpl.
  - apply (navigateAutocompleteUp_frame m).
  - apply (navigateAutocompleteDown_frame m).
Qed.

Lemma navigate_windowOK nav m :
  0 < PopupMaxHeight (config m) -> windowOK m -> windowOK (navigate nav m).
Proof.
  intros HH (H1 & H2 & H3). unfold windowOK.
  rewrite navigate_config, navigate_suggestions.
  destruct nav; simpl.
  - unfold navigateAutocompleteUp.
    destruct (showPopup m && (0 <? len (suggestions m))); simpl; [|lia].
    destruct (Z.ltb_spec (selectedSuggestionIndex m - 1) 0); simpl; [lia|].
    destruct (Z.ltb_spec (selectedSuggestionIndex m - 1) (popupScrollOffset m));
      simpl; lia.
  - unfold navigateAutocompleteDown.
    destruct (showPopup m && (0 <? len (suggestions m))); simpl; [|lia].
    destruct (Z.leb_spec (len (suggestions m)) (selectedSuggestionIndex m + 1));
      simpl; [lia|].
    destruct (Z.leb_spec (popupScrollOffset m + PopupMaxHeight (config m))
                         (selectedSuggestionIndex m + 1)); simpl; lia.
Qed.

Lemma navigateAll_windowOK navs m :
  0 < PopupMaxHeight (config m) -> windowOK m ->
  windowOK (navigateAll navs m) /\ config (navigateAll navs m) = config m.
Proof.
  revert m. induction navs as [|nav navs IH]; intros m HH HW; simpl; [auto|].
  destruct (IH (navigate nav m)) as [IH1 IH2].
  - rewrite navigate_config. exact HH.
  - apply navigate_windowOK; assumption.
  - split; [exact IH1|]. rewrite IH2. apply navigate_config.
Qed.

(** C5.  For a non-empty suggestion list and a positive window height,
    from the reset state (selected index 0, scroll offset 0), after any
    sequence of [selectPrevious] / [selectNext] calls the selection is
    inside the window: scrollOffset <= selectedIndex < scrollOffset +
    windowHeight. *)
Theorem C5_selection_inside_window (navs : list Nav) (m : PromptModel) :
  suggestions m <> [] ->
  0 < PopupMaxHeight (config m) ->
  selectedSuggestionIndex m = 0 ->
  popupScrollOffset m = 0 ->
  let m' := navigateAll navs m in
  popupScrollOffset m' <= selectedSuggestionIndex m'
  /\ selectedSuggestionIndex m' < popupScrollOffset m' + PopupMaxHeight (config m').
Proof.
  intros Hne HH Hs Ho m'.
  destruct (navigateAll_windowOK navs m HH) as [(H1 & H2 & H3) E].
  - unfold windowOK. rewrite Hs, Ho.
    destruct (suggestions m); [congruence|]. rewrite len_cons.
    pose proof (len_nonneg l). lia.
  - subst m'. lia.
Qed.

Lemma C5_witness :
  let m' := navigateAll [SelectNext; SelectNext; SelectPrevious; SelectPrevious;
                         SelectPrevious; SelectNext] popupModel in
  (popupScrollOffset m' <= selectedSuggestionIndex m'
   /\ selectedSuggestionIndex m' < popupScrollOffset m' + PopupMaxHeight (config m'))
  /\ selectedSuggestionIndex m' = 0 /\ popupScrollOffset m' = 0.
Proof.
  split; [|split; reflexivity].
  apply (C5_selection_inside_window _ popupModel).
  - discriminate.
  - reflexivity.
  - reflexivity.
  - reflexivity.
Defined.

(** ** Submission *)

(** C6.  Enter on an input that the completeness predicate accepts and
    whose trimmed form is not ";": the execution callback is called exactly
    once, with exactly the joined input; the input is appended to the
    history iff its trimmed form is not empty; the buffer is one empty line
    with the cursor at the origin; the browse index is -1; the suggestion
    set is fully cleared. *)
Theorem C6_enter_submits (m : PromptModel) (p : IsCompleteFunc) (e : ExecuteFunc) :
  IsCompleteFn (config m) = Some p ->
  ExecuteFn (config m) = Some e ->
  p (getCurrentInput m) = true ->
  TrimSpace (getCurrentInput m) <> str ";" ->
  exists m',
    handleEnter m = Some (m', [CallExecute (getCurrentInput m)])
    /\ lastOutput m' = executingOutput (e (getCurrentInput m))
    /\ (TrimSpace (getCurrentInput m) <> [] ->
        history m' = history m ++ [getCurrentInput m])
    /\ (TrimSpace (getCurrentInput m) = [] -> history m' = history m)
    /\ lines m' = [[]] /\ cursorRow m' = 0 /\ cursorCol m' = 0
    /\ historyIndex m' = -1
    /\ suggestions m' = [] /\ showPopup m' = false
    /\ selectedSuggestionIndex m' = 0 /\ lastSuggestedWord m' = []
    /\ popupScrollOffset m' = 0
    /\ config m' = config m.
Proof.
  intros Hp He Hc Hne. rewrite (handleEnter_submits m p Hp Hc Hne). rewrite He.
  cbv zeta. eexists. split; [reflexivity|].
  destruct (decide (TrimSpace (getCurrentInput m) = [])) as [E|E].
  - rewrite (bool_decide_eq_true_2 _ E). simpl. repeat split; auto. congruence.
  - rewrite (bool_decide_eq_false_2 _ E). simpl. repeat split; auto. congruence.
Qed.

Lemma C6_witness :
  exists m',
    handleEnter (modelAt [str "SELECT 1;"] 0 9)
      = Some (m', [CallExecute (str "SELECT 1;")])
    /\ history m' = [str "SELECT 1;"] /\ lines m' = [[]].
Proof.
  destruct (C6_enter_submits (modelAt [str "SELECT 1;"] 0 9)
              DefaultIsComplete (fun input => str "ok: " ++ input))
    as (m' & E & _ & Hh & _ & Hl & _).
  - reflexivity.
  - reflexivity.
  - vm_compute. reflexivity.
  - vm_compute. discriminate.
  - exists m'. split; [exact E|]. split; [|exact Hl].
    apply Hh. vm_compute. discriminate.
Defined.

(** Without an execution callback nothing is called and the placeholder is
    stored. *)
Lemma enter_submits_without_ExecuteFn m p :
  IsCompleteFn (config m) = Some p ->
  ExecuteFn (config m) = None ->
  p (getCurrentInput m) = true ->
  TrimSpace (getCurrentInput m) <> str ";" ->
  exists m', handleEnter m = Some (m', [])
    /\ lastOutput m' = noExecuteFnOutput /\ lines m' = [[]].
Proof.
  intros Hp He Hc Hne. rewrite (handleEnter_submits m p Hp Hc Hne). rewrite He.
  cbv zeta. eexists. split; [reflexivity|].
  destruct (negb (bool_decide (TrimSpace (getCurrentInput m) = []))); auto.
Qed.

Lemma insertNewline_historyIndex m m' :
  insertNewline m = Some m' -> historyIndex m' = historyIndex m.
Proof.
  unfold insertNewline.
  destruct (index (lines m) (cursorRow m)) as [line|]; simpl; [|discriminate].
  destruct (sliceTo line (cursorCol m)); simpl; [|discriminate].
  destruct (sliceFrom line (cursorCol m)); simpl; [|discriminate].
  destruct (sliceTo (lines m) (cursorRow m)); simpl; [|discriminate].
  destruct (cursorRow m + 1 <? len (lines m)).
  - destruct (sliceFrom (lines m) (cursorRow m + 1)); simpl; [|discriminate].
    repeat match goal with
           | |- context [if ?c then _ else _] => destruct c
           end; intros [= <-]; reflexivity.
  - simpl.
    repeat match goal with
           | |- context [if ?c then _ else _] => destruct c
           end; intros [= <-]; reflexivity.
Qed.

(** The bare terminator: the claim as the specification words it fails on
    the buffer [";"] with the cursor after the semicolon.  The predicate
    accepts the input and its trimmed form is ";", yet Enter does not reset
    the buffer: it inserts a newline. *)
Lemma C1_counterexample :
  let m := modelAt [str ";"] 0 1 in
  callFn (IsCompleteFn (config m)) (getCurrentInput m) = Some true
  /\ TrimSpace (getCurrentInput m) = str ";"
  /\ exists m', handleEnter m = Some (m', [])
       /\ lines m' = [str ";"; []] /\ cursorRow m' = 1 /\ cursorCol m' = 0
       /\ ~ (lines m' = [[]] /\ cursorRow m' = 0 /\ cursorCol m' = 0).
Proof.
  split; [vm_compute; reflexivity|]. split; [vm_compute; reflexivity|].
  evaluate (handleEnter (modelAt [str ";"] 0 1)) m' E.
  exists m'. split; [exact E|].
  repeat split; try assumption. intros (H' & _). congruence.
Qed.

(** C1, amended.  Enter on an input that the predicate accepts but whose
    trimmed form is exactly ";" takes the newline path: nothing is
    executed, nothing is recorded, and the result is that of
    [insertNewline] followed by [clearAutocomplete]; the last output, the
    history and the browse index are untouched. *)
Theorem C1_bare_terminator_inserts_newline (m : PromptModel) (p : IsCompleteFunc) :
  CursorOK m ->
  IsCompleteFn (config m) = Some p ->
  p (getCurrentInput m) = true ->
  TrimSpace (getCurrentInput m) = str ";" ->
  exists m1,
    insertNewline m = Some m1
    /\ handleEnter m = Some (clearAutocomplete m1, [])
    /\ history m1 = history m
    /\ lastOutput m1 = lastOutput m
    /\ historyIndex m1 = historyIndex m.
Proof.
  intros HC Hp Hc Ht. unfold handleEnter. rewrite Hp. simpl. rewrite Hc, Ht.
  rewrite bool_decide_eq_true_2 by reflexivity. simpl.
  destruct (insertNewline_ok m HC) as (m1 & E & _ & (_ & F2 & F3) & _ & FH).
  rewrite E. simpl. exists m1. repeat split; auto.
  apply insertNewline_historyIndex. exact E.
Qed.

Lemma C1_witness :
  exists m1,
    insertNewline (modelAt [str ";"] 0 1) = Some m1
    /\ handleEnter (modelAt [str ";"] 0 1) = Some (clearAutocomplete m1, [])
    /\ lines m1 = [str ";"; []].
Proof.
  destruct (C1_bare_terminator_inserts_newline (modelAt [str ";"] 0 1) DefaultIsComplete)
    as (m1 & E1 & E2 & _).
  - exists (str ";"). split; [reflexivity|]. vm_compute. split; discriminate.
  - reflexivity.
  - vm_compute. reflexivity.
  - vm_compute. reflexivity.
  - exists m1. split; [exact E1|]. split; [exact E2|].
    evaluate (quiet (insertNewline (modelAt [str ";"] 0 1))) m2 E.
    apply quiet_Some in E as [E _]. rewrite E1 in E. injection E as <-.
    assumption.
Defined.

(** ** The autocomplete update *)

(** A non-empty fragment is only found with the cursor directly after an
    accepted rune, at a rune index of the line. *)
Lemma currentWordFragment_nonempty f m word :
  currentWordFragment (Some f) m = Some word -> word <> [] ->
  exists line r, currentLine m = Some line
    /\ 0 < cursorCol m <= codepointLength line
    /\ index (stringToRunes line) (cursorCol m - 1) = Some r /\ f r = true.
Proof.
  unfold currentWordFragment, currentLine, codepointLength.
  destruct (Z.leb_spec (len (lines m)) (cursorRow m)); [intros [= <-]; congruence|].
  destruct (index (lines m) (cursorRow m)) as [line|]; [simpl|discriminate].
  destruct (Z.eqb_spec (cursorCol m) 0); [intros [= <-]; congruence|].
  destruct (Z.ltb_spec (len (stringToRunes line)) (cursorCol m));
    [intros [= <-]; congruence|].
  destruct (scanLeft_ok f (stringToRunes line) (cursorCol m)) as (start & -> & Hs & Hn);
    [lia|].
  simpl. destruct (Z.ltb_spec start (cursorCol m)); simpl;
    [|intros [= <-]; congruence].
  destruct (Z.ltb_spec 0 (cursorCol m)); simpl; [|intros [= <-]; congruence].
  destruct (index (stringToRunes line) (cursorCol m - 1)) as [r|] eqn:Hr;
    [simpl|discriminate].
  destruct (f r) eqn:Hf; [|intros [= <-]; congruence].
  intros _ _. exists line, r. repeat split; auto; lia.
Qed.

Lemma fragment_CursorOK f m word :
  currentWordFragment (Some f) m = Some word -> word <> [] -> CursorOK m.
Proof.
  intros Hw Hne.
  destruct (currentWordFragment_nonempty f m word Hw Hne) as (line & r & Hl & Hc & _).
  exists line. split; [exact Hl|]. pose proof (codepointLength_le line). lia.
Qed.

(** C4.  With a non-empty fragment: if it differs from the stored one, the
    selection and the scroll offset are reset to 0, the provider is called
    once with the text before the cursor and the fragment, its result is
    stored as it is, the popup shows iff the result is not empty and the
    fragment is stored; if it is the stored one, the popup is hidden when
    there are no suggestions and otherwise nothing changes, and the provider
    is not called. *)
Theorem C4_update_on_fragment (m : PromptModel) (f : IsWordCharFunc) (word : gostring) :
  IsWordCharFn (config m) = Some f ->
  currentWordFragment (Some f) m = Some word ->
  word <> [] ->
  (word <> lastSuggestedWord m ->
   exists text, getTextBeforeCursor m = Some text /\
     forall provider, AutoCompleteFn (config m) = Some provider ->
       updateAutocomplete m =
         Some (with_lastSuggestedWord word
                 (with_showPopup (0 <? len (provider text word))
                    (with_suggestions (provider text word)
                       (with_popupScrollOffset 0
                          (with_selectedSuggestionIndex 0 m)))),
               [CallAutoComplete text word]))
  /\ (word = lastSuggestedWord m ->
      updateAutocomplete m =
        Some (if len (suggestions m) =? 0 then with_showPopup false m else m, [])).
Proof.
  intros Hf Hw Hne.
  pose proof (fragment_CursorOK f m word Hw Hne) as HC.
  assert (E : forall k, (word0 ← currentWordFragment (IsWordCharFn (config m)) m;
                         clear ← mustClear (IsWordCharFn (config m)) word0 m; k word0 clear)
                        = k word false :> option (PromptModel * list Call)).
  { intros k. rewrite Hf, Hw. simpl. rewrite (mustClear_fragment f m word HC Hw).
    rewrite (bool_decide_eq_false_2 _ Hne). reflexivity. }
  split.
  - intros Hd. destruct (getTextBeforeCursor_ok m HC) as [text Ht].
    exists text. split; [exact Ht|]. intros provider Hp.
    unfold updateAutocomplete. rewrite E.
    rewrite (bool_decide_eq_false_2 _ Hd). simpl. rewrite Hp.
    change (getTextBeforeCursor (with_popupScrollOffset 0 (with_selectedSuggestionIndex 0 m)))
      with (getTextBeforeCursor m).
    rewrite Ht. reflexivity.
  - intros Hd. unfold updateAutocomplete. rewrite E.
    rewrite (bool_decide_eq_true_2 _ Hd). simpl.
    destruct (len (suggestions m) =? 0); reflexivity.
Qed.

Lemma C4_witness :
  updateAutocomplete (modelAt [str "SELECT FR"] 0 9)
  = Some (with_lastSuggestedWord (str "FR")
            (with_showPopup true
               (with_suggestions [ {| Text := str "FROM"; Description := [] |} ]
                  (with_popupScrollOffset 0
                     (with_selectedSuggestionIndex 0 (modelAt [str "SELECT FR"] 0 9))))),
          [CallAutoComplete (str "SELECT FR") (str "FR")]).
Proof.
  destruct (C4_update_on_fragment (modelAt [str "SELECT FR"] 0 9) asciiWordChar (str "FR"))
    as [H _].
  - reflexivity.
  - vm_compute. reflexivity.
  - discriminate.
  - destruct H as (text & Ht & H).
    + discriminate.
    + vm_compute in Ht. injection Ht as <-.
      rewrite (H _ eq_refl). reflexivity.
Defined.

(** Without a provider the suggestions are emptied and nothing is called. *)
Lemma update_without_provider m f word :
  IsWordCharFn (config m) = Some f ->
  currentWordFragment (Some f) m = Some word ->
  word <> [] -> word <> lastSuggestedWord m ->
  AutoCompleteFn (config m) = None ->
  updateAutocomplete m =
    Some (with_lastSuggestedWord word
            (with_showPopup false
               (with_suggestions []
                  (with_popupScrollOffset 0 (with_selectedSuggestionIndex 0 m)))), []).
Proof.
  intros Hf Hw Hne Hd Hp.
  pose proof (fragment_CursorOK f m word Hw Hne) as HC.
  unfold updateAutocomplete. rewrite Hf, Hw. simpl.
  rewrite (mustClear_fragment f m word HC Hw).
  rewrite (bool_decide_eq_false_2 _ Hne). simpl.
  rewrite (bool_decide_eq_false_2 _ Hd). simpl. rewrite Hp. reflexivity.
Qed.

(** ** The fragment and its replacement *)

Lemma trailingRun_snoc f l r :
  trailingRun f (l ++ [r]) = if f r then trailingRun f l ++ [r] else [].
Proof.
  unfold trailingRun. rewrite rev_app_distr. simpl.
  destruct (f r); reflexivity.
Qed.

Lemma trailingRun_nil f : trailingRun f [] = [].
Proof. reflexivity. Qed.

(** The scan stops at the start of the longest accepted run that ends at
    its start column. *)
Lemma scanLeftFrom_run f runes n k :
  scanLeftFrom (Some f) runes n = Some k ->
  drop k (take n runes) = trailingRun f (take n runes).
Proof.
  revert k. induction n as [|n IH]; intros k; simpl scanLeftFrom.
  - intros [= <-]. rewrite take_0. reflexivity.
  - destruct (runes !! n) as [r|] eqn:Hr; simpl; [|discriminate].
    rewrite (take_S_r _ _ _ Hr), trailingRun_snoc.
    pose proof (lookup_lt_Some _ _ _ Hr) as Hn.
    destruct (f r).
    + intros Hk. destruct (scanLeftFrom_spec _ _ _ _ Hk) as (Hle & _).
      rewrite drop_app_le by (rewrite length_take; lia).
      rewrite (IH _ Hk). reflexivity.
    + intros [= <-]. apply drop_ge. rewrite length_app, length_take. simpl. lia.
Qed.

Lemma scanLeft_run f runes col start :
  0 <= col <= len runes ->
  scanLeft (Some f) runes col = Some start ->
  0 <= start <= col
  /\ drop (Z.to_nat start) (take (Z.to_nat col) runes)
     = trailingRun f (take (Z.to_nat col) runes).
Proof.
  intros Hc. unfold scanLeft. destruct (Z.ltb_spec 0 col).
  - destruct (scanLeftFrom (Some f) runes (Z.to_nat col)) as [k|] eqn:E;
      simpl; [|discriminate].
    intros [= <-]. destruct (scanLeftFrom_spec _ _ _ _ E) as (Hle & _).
    split; [lia|]. rewrite Nat2Z.id. apply scanLeftFrom_run. exact E.
  - intros [= <-]. split; [lia|].
    replace col with 0 by lia. reflexivity.
Qed.

Lemma len_trailingRun f runes col start :
  0 <= start <= col -> col <= len runes ->
  drop (Z.to_nat start) (take (Z.to_nat col) runes)
    = trailingRun f (take (Z.to_nat col) runes) ->
  len (trailingRun f (take (Z.to_nat col) runes)) = col - start.
Proof.
  intros H1 H2 <-. unfold len in *. rewrite length_drop, length_take. lia.
Qed.

(** The fragment is the encoding of the longest run of accepted runes that
    ends at the cursor. *)
Theorem fragment_is_trailing_run f m line :
  currentLine m = Some line ->
  0 < cursorCol m <= codepointLength line ->
  currentWordFragment (Some f) m =
    Some (runesToString
            (trailingRun f (take (Z.to_nat (cursorCol m)) (stringToRunes line)))).
Proof.
  intros Hl Hc. unfold codepointLength in Hc.
  pose proof (currentLine_range _ _ Hl) as Hr. unfold currentLine in Hl.
  unfold currentWordFragment.
  destruct (Z.leb_spec (len (lines m)) (cursorRow m)); [lia|].
  rewrite Hl. simpl.
  destruct (Z.eqb_spec (cursorCol m) 0); [lia|].
  destruct (Z.ltb_spec (len (stringToRunes line)) (cursorCol m)); [lia|].
  destruct (scanLeft (Some f) (stringToRunes line) (cursorCol m)) as [start|] eqn:Es.
  2:{ destruct (scanLeft_ok f (stringToRunes line) (cursorCol m)) as (? & E' & _);
        [lia | congruence]. }
  simpl.
  destruct (scanLeft_run f (stringToRunes line) (cursorCol m) start ltac:(lia) Es)
    as (Hs & Hrun).
  rewrite <- Hrun.
  destruct (Z.ltb_spec start (cursorCol m)); simpl.
  - destruct (Z.ltb_spec 0 (cursorCol m)); [simpl|lia].
    destruct (index_in_range (stringToRunes line) (cursorCol m - 1)) as [r Hr'];
      [lia|].
    rewrite Hr'. simpl.
    assert (Hf : f r = true).
    { unfold scanLeft in Es. destruct (Z.ltb_spec 0 (cursorCol m)); [|lia].
      destruct (scanLeftFrom (Some f) (stringToRunes line) (Z.to_nat (cursorCol m)))
        as [k|] eqn:Ek; simpl in Es; [|discriminate].
      injection Es as <-.
      destruct (scanLeftFrom_spec _ _ _ _ Ek) as (_ & Hall & _).
      apply index_Some in Hr' as [_ Hr'].
      apply (Hall (Z.to_nat (cursorCol m - 1))); [lia|exact Hr']. }
    rewrite Hf. rewrite slice_ok by lia. simpl. do 2 f_equal.
    rewrite take_drop_commute. f_equal. f_equal. lia.
  - f_equal. replace start with (cursorCol m) by lia.
    rewrite drop_ge by (rewrite length_take; lia). reflexivity.
Qed.

(** Outside a line's runes, and at column 0, there is no fragment. *)
Lemma fragment_outside f m line :
  currentLine m = Some line ->
  cursorCol m <= 0 \/ codepointLength line < cursorCol m ->
  currentWordFragment (Some f) m = Some [].
Proof.
  intros Hl Hc. unfold codepointLength in Hc.
  pose proof (currentLine_range _ _ Hl) as Hr. unfold currentLine in Hl.
  unfold currentWordFragment.
  destruct (Z.leb_spec (len (lines m)) (cursorRow m)); [lia|].
  rewrite Hl. simpl.
  destruct (Z.eqb_spec (cursorCol m) 0); [reflexivity|].
  destruct (Z.ltb_spec (len (stringToRunes line)) (cursorCol m)); [reflexivity|].
  assert (cursorCol m < 0) by lia.
  unfold scanLeft. destruct (Z.ltb_spec 0 (cursorCol m)); [lia|]. simpl.
  destruct (Z.ltb_spec (cursorCol m) (cursorCol m)); [lia|]. reflexivity.
Qed.

(** The fragment is empty exactly at column 0, past the runes of the line,
    or after a rune the classifier rejects. *)
Theorem fragment_empty_iff f m line :
  currentLine m = Some line ->
  0 <= cursorCol m ->
  exists word, currentWordFragment (Some f) m = Some word /\
    (word = [] <->
     cursorCol m = 0
     \/ codepointLength line < cursorCol m
     \/ exists r, index (stringToRunes line) (cursorCol m - 1) = Some r /\ f r = false).
Proof.
  intros Hl H0.
  destruct (Z.eq_dec (cursorCol m) 0) as [E0|N0].
  { exists []. split; [apply (fragment_outside f m line Hl); lia|]. tauto. }
  destruct (Z.lt_ge_cases (codepointLength line) (cursorCol m)) as [Hgt|Hle].
  { exists []. split; [apply (fragment_outside f m line Hl); lia|]. tauto. }
  eexists. split; [apply (fragment_is_trailing_run f m line Hl); lia|].
  unfold codepointLength in *.
  destruct (index_in_range (stringToRunes line) (cursorCol m - 1)) as [r Hr]; [lia|].
  pose proof Hr as Hr'. apply index_Some in Hr' as [_ Hr'].
  replace (Z.to_nat (cursorCol m)) with (S (Z.to_nat (cursorCol m - 1))) by lia.
  rewrite (take_S_r _ _ _ Hr'), trailingRun_snoc.
  rewrite runesToString_nil_iff. destruct (f r) eqn:Hf.
  - split.
    + intros H. apply (f_equal (@length _)) in H. rewrite length_app in H.
      simpl in H. lia.
    + intros [?|[?|(r' & Hr'' & Hf')]]; [lia|lia|]. congruence.
  - split; [|reflexivity]. intros _. right. right. exists r. auto.
Qed.

(** Applying the selected suggestion: the runes of the line before the
    fragment, the text of the suggestion, the runes after the cursor; the
    column becomes the rune index of the fragment's start plus the byte
    length of the text. *)
Theorem apply_replaces_fragment f m line s :
  showPopup m = true ->
  index (suggestions m) (selectedSuggestionIndex m) = Some s ->
  IsWordCharFn (config m) = Some f ->
  currentLine m = Some line ->
  0 <= cursorCol m <= codepointLength line ->
  let runes := stringToRunes line in
  let fragment := trailingRun f (take (Z.to_nat (cursorCol m)) runes) in
  let start := cursorCol m - len fragment in
  runes = take (Z.to_nat start) runes ++ fragment ++ drop (Z.to_nat (cursorCol m)) runes
  /\ applyAutocomplete m =
     Some (clearAutocomplete
             (with_cursorCol (start + len (Text s))
                (with_lines
                   (<[Z.to_nat (cursorRow m) :=
                        runesToString (take (Z.to_nat start) runes) ++ Text s
                        ++ runesToString (drop (Z.to_nat (cursorCol m)) runes)]>
                      (lines m)) m))).
Proof.
  intros Hp Hs Hf Hl Hc runes fragment start. unfold codepointLength in Hc.
  fold runes in Hc.
  pose proof (currentLine_range _ _ Hl) as Hr. unfold currentLine in Hl.
  pose proof (index_range _ _ _ Hs) as Hsr.
  destruct (scanLeft (Some f) runes (cursorCol m)) as [st|] eqn:Es.
  2:{ destruct (scanLeft_ok f runes (cursorCol m)) as (? & E' & _);
        [lia | congruence]. }
  destruct (scanLeft_run f runes (cursorCol m) st ltac:(lia) Es) as (Hst & Hrun).
  pose proof (len_trailingRun f runes _ _ Hst ltac:(lia) Hrun) as Hlen.
  fold fragment in Hrun, Hlen.
  assert (Est : start = st) by (unfold start; lia).
  split.
  - rewrite Est, <- Hrun. rewrite app_assoc.
    rewrite <- (take_drop (Z.to_nat (cursorCol m)) runes) at 1. f_equal.
    rewrite <- (take_drop (Z.to_nat st) (take (Z.to_nat (cursorCol m)) runes)) at 1.
    f_equal. rewrite take_take. f_equal. lia.
  - unfold applyAutocomplete. rewrite Hp. simpl.
    destruct (Z.ltb_spec 0 (len (suggestions m))); [|lia].
    rewrite Hs. simpl. rewrite Hl. simpl. rewrite Hf. fold runes. rewrite Es. simpl.
    destruct (Z.ltb_spec st 0); [lia|].
    rewrite sliceTo_ok by lia. simpl.
    destruct (Z.ltb_spec (cursorCol m) (len runes)).
    + rewrite sliceFrom_ok by lia. simpl. rewrite setIndex_ok by lia. simpl.
      rewrite Est. reflexivity.
    + simpl. rewrite setIndex_ok by lia. simpl. rewrite Est.
      rewrite (drop_ge runes) by (unfold len in *; lia). reflexivity.
Qed.

(** The scenario of the specification: after "SELECT " the user types
    "FR", the provider answers FROM, and Tab gives "SELECT FROM" with the
    cursor at column 11. *)
Example scenario_select_from :
  exists m calls,
    run [typed (runesOf "SELECT "); typed (runesOf "FR"); key KeyTab] exampleModel
      = Some (m, calls)
    /\ lines m = [str "SELECT FROM"] /\ cursorRow m = 0 /\ cursorCol m = 11
    /\ calls = [CallAutoComplete (str "SELECT FR") (str "FR")].
Proof.
  evaluate (run [typed (runesOf "SELECT "); typed (runesOf "FR"); key KeyTab]
              exampleModel) m E.
  exists m. eexists. split; [exact E|]. auto.
Qed.

(** C3.  The fragment part of the claim holds ([fragment_empty_iff],
    [fragment_is_trailing_run], [apply_replaces_fragment]); the cursor part
    does not: [applyAutocomplete] adds the byte length of the suggestion to
    a rune index.  Typing "e" and accepting the suggestion "é" leaves the
    line "é", one codepoint long, with the cursor at column 2 instead of
    at the end of the inserted text, column 1. *)
Theorem C3_cursor_after_multibyte_suggestion :
  exists m calls,
    run [typed (runesOf "e"); key KeyTab] accentModel = Some (m, calls)
    /\ lines m = [[xc3; xa9]]
    /\ stringToRunes [xc3; xa9] = [0xE9]
    /\ cursorRow m = 0
    /\ cursorCol m = 2
    /\ codepointLength [xc3; xa9] = 1.
Proof.
  evaluate (run [typed (runesOf "e"); key KeyTab] accentModel) m E.
  exists m. eexists. split; [exact E|]. repeat split; assumption || reflexivity.
Qed.

(** ** Deletion *)

(** The three cases of [deleteBeforeCursor], in the unit the code uses:
    bytes. *)
Lemma deleteBeforeCursor_in_line m line :
  currentLine m = Some line ->
  0 < cursorCol m <= len line ->
  deleteBeforeCursor m =
    Some (with_cursorCol (cursorCol m - 1)
            (with_lines
               (<[Z.to_nat (cursorRow m) :=
                    take (Z.to_nat (cursorCol m - 1)) line
                    ++ drop (Z.to_nat (cursorCol m)) line]> (lines m)) m)).
Proof.
  intros Hl Hc. pose proof (currentLine_range _ _ Hl) as Hr.
  unfold currentLine in Hl. unfold deleteBeforeCursor.
  destruct (Z.ltb_spec 0 (cursorCol m)); [|lia].
  rewrite Hl. simpl. rewrite sliceTo_ok, sliceFrom_ok by lia. simpl.
  rewrite setIndex_ok by lia. reflexivity.
Qed.

Lemma deleteBeforeCursor_merge m prevLine line :
  cursorCol m <= 0 -> 0 < cursorRow m ->
  index (lines m) (cursorRow m - 1) = Some prevLine ->
  currentLine m = Some line ->
  deleteBeforeCursor m =
    Some (with_cursorCol (len prevLine)
            (with_cursorRow (cursorRow m - 1)
               (with_lines
                  (take (Z.to_nat (cursorRow m - 1)) (lines m)
                   ++ [prevLine ++ line]
                   ++ drop (Z.to_nat (cursorRow m + 1)) (lines m)) m))).
Proof.
  intros Hc Hrow Hp Hl. pose proof (index_range _ _ _ Hl) as Hr.
  unfold currentLine in Hl. unfold deleteBeforeCursor.
  destruct (Z.ltb_spec 0 (cursorCol m)); [lia|].
  destruct (Z.ltb_spec 0 (cursorRow m)); [|lia].
  rewrite Hp, Hl. simpl. rewrite setIndex_ok by lia. simpl.
  rewrite sliceTo_ok, sliceFrom_ok by (rewrite len_insert; lia). simpl.
  set (lines1 := <[Z.to_nat (cursorRow m - 1) := prevLine ++ line]> (lines m)).
  assert (Heq : take (Z.to_nat (cursorRow m)) lines1
                ++ drop (Z.to_nat (cursorRow m + 1)) lines1
              = take (Z.to_nat (cursorRow m - 1)) (lines m)
                ++ [prevLine ++ line]
                ++ drop (Z.to_nat (cursorRow m + 1)) (lines m)).
  { subst lines1.
    replace (Z.to_nat (cursorRow m)) with (S (Z.to_nat (cursorRow m - 1))) by lia.
    rewrite (take_S_r _ _ (prevLine ++ line))
      by (apply list_lookup_insert_eq; unfold len in Hr; lia).
    rewrite take_insert_ge by lia. rewrite <- app_assoc. do 2 f_equal.
    rewrite drop_insert_lt by lia. reflexivity. }
  rewrite Heq. reflexivity.
Qed.

Lemma deleteBeforeCursor_origin m :
  cursorCol m <= 0 -> cursorRow m <= 0 -> deleteBeforeCursor m = Some m.
Proof.
  intros Hc Hr. unfold deleteBeforeCursor.
  destruct (Z.ltb_spec 0 (cursorCol m)); [lia|].
  destruct (Z.ltb_spec 0 (cursorRow m)); [lia|]. reflexivity.
Qed.

(** C7.  The merge case and the case of the origin are as the claim says,
    and the first case removes one byte, not one codepoint.  On the line
    "é" with the cursor at column 1 (the state after typing "é"), the
    second byte of the character stays behind: the line is still one
    codepoint long, the invalid byte 0xA9. *)
Theorem C7_delete_removes_one_byte :
  exists m calls m',
    run [typed [0xE9]] exampleModel = Some (m, calls)
    /\ lines m = [[xc3; xa9]] /\ cursorRow m = 0 /\ cursorCol m = 1
    /\ stringToRunes [xc3; xa9] = [0xE9]
    /\ deleteBeforeCursor m = Some m'
    /\ lines m' = [[xa9]] /\ cursorRow m' = 0 /\ cursorCol m' = 0
    /\ stringToRunes [xa9] = [runeError].
Proof.
  evaluate (run [typed [0xE9]] exampleModel) m E.
  assert (D : deleteBeforeCursor m =
              Some (with_cursorCol (cursorCol m - 1)
                      (with_lines
                         (<[Z.to_nat (cursorRow m) :=
                              take (Z.to_nat (cursorCol m - 1)) [xc3; xa9]
                              ++ drop (Z.to_nat (cursorCol m)) [xc3; xa9]]>
                            (lines m)) m))).
  { apply (deleteBeforeCursor_in_line m [xc3; xa9]); [unfold currentLine|];
      fields; [reflexivity | unfold len; simpl; lia]. }
  exists m. eexists. eexists.
  split; [exact E|]. split; [assumption|]. split; [assumption|].
  split; [assumption|]. split; [reflexivity|]. split; [exact D|].
  simpl. fields. repeat split.
Qed.

(** ** Cursor validity *)

(** In every reachable state the cursor is on a line of the buffer, at a
    byte offset of that line. *)
Theorem reachable_cursor_in_bytes isLetter isDigit cfg msgs :
  exists m calls line,
    run msgs (NewPromptModel isLetter isDigit cfg) = Some (m, calls)
    /\ 0 <= cursorRow m < len (lines m)
    /\ index (lines m) (cursorRow m) = Some line
    /\ 0 <= cursorCol m <= len line.
Proof.
  destruct (run_ok msgs _ (NewPromptModel_Inv isLetter isDigit cfg))
    as (m & calls & E & [(line & Hl & Hc) _ _ _ _ _]).
  exists m, calls, line. split; [exact E|].
  split; [exact (currentLine_range _ _ Hl)|]. split; assumption.
Qed.

(** C2.  The row part of the claim holds and the column is a valid byte
    offset ([reachable_cursor_in_bytes]), but it is not a codepoint index:
    [moveCursorRight] compares the column with the byte length of the
    line.  Typing "é" and pressing Right puts the cursor at column 2 of a
    line that is one codepoint long. *)
Theorem C2_cursor_beyond_codepoints :
  exists m calls,
    run [typed [0xE9]; key KeyRight] exampleModel = Some (m, calls)
    /\ lines m = [[xc3; xa9]]
    /\ cursorRow m = 0
    /\ cursorCol m = 2
    /\ codepointLength [xc3; xa9] = 1.
Proof.
  evaluate (run [typed [0xE9]; key KeyRight] exampleModel) m E.
  exists m. eexists. split; [exact E|]. repeat split; assumption || reflexivity.
Qed.

(** ** Buffer non-emptiness *)

(** C8.  For every sequence of messages delivered to a new model, the model
    answers each of them (it never panics) and the buffer has at least one
    line afterwards. *)
Theorem C8_buffer_never_empty isLetter isDigit (cfg : PromptConfig) (msgs : list Msg) :
  exists m calls,
    run msgs (NewPromptModel isLetter isDigit cfg) = Some (m, calls)
    /\ 1 <= len (lines m).
Proof.
  destruct (reachable_cursor_in_bytes isLetter isDigit cfg msgs)
    as (m & calls & line & E & Hr & _).
  exists m, calls. split; [exact E|lia].
Qed.

(** ** The last output *)

Lemma run_snoc msgs msg m0 m' calls :
  run (msgs ++ [msg]) m0 = Some (m', calls) ->
  exists m calls1 cmd calls2,
    run msgs m0 = Some (m, calls1) /\ Update msg m = Some (m', cmd, calls2)
    /\ calls = calls1 ++ calls2.
Proof.
  revert m0 calls. induction msgs as [|a msgs IH]; intros m0 calls; simpl.
  - destruct (Update msg m0) as [[[m1 cmd] c1]|] eqn:EU; simpl; [|discriminate].
    intros [= <- <-]. exists m0, [], cmd, c1.
    split; [reflexivity|]. split; [exact EU|]. apply app_nil_r.
  - destruct (Update a m0) as [[[m1 cmd] c1]|]; simpl; [|discriminate].
    destruct (run (msgs ++ [msg]) m1) as [[m2 c2]|] eqn:E; simpl; [|discriminate].
    intros [= <- <-].
    destruct (IH _ _ E) as (m & ca & cmd' & cb & -> & HU & ->).
    simpl. exists m, (c1 ++ ca), cmd', cb.
    split; [reflexivity|]. split; [exact HU|]. apply app_assoc.
Qed.

(** The claim as the specification words it fails on the Enter that
    submits: after "a;" is typed, Enter changes the buffer (it resets it)
    and leaves the display string of the execution in the last output. *)
Lemma C9_counterexample :
  exists m calls m' cmd calls',
    run [typed (runesOf "a;")] exampleModel = Some (m, calls)
    /\ Update (key KeyEnter) m = Some (m', cmd, calls')
    /\ lines m = [str "a;"] /\ lines m' = [[]]
    /\ lines m' <> lines m
    /\ lastOutput m' = executingOutput (str "ok: a;")
    /\ lastOutput m' <> [].
Proof.
  evaluate (run ([typed (runesOf "a;")] ++ [key KeyEnter]) exampleModel) m' E.
  destruct (run_snoc _ _ _ _ _ E) as (m & c1 & cmd & c2 & E1 & E2 & _).
  evaluate (run [typed (runesOf "a;")] exampleModel) m0 E0.
  rewrite E1 in E0. injection E0 as <- _.
  exists m, c1, m', cmd, c2.
  split; [exact E1|]. split; [exact E2|]. fields.
  repeat split; discriminate.
Qed.

(** C9, amended.  In a state reached from a new model, an event that
    changes the buffer and is not an Enter that submits leaves the last
    output empty.  Backspace, runes, space and the arrows clear it
    themselves; Tab and the Enter that inserts a newline leave it as it
    was, and can only change the buffer when it was empty already. *)
Theorem C9_content_change_clears_output
    isLetter isDigit (cfg : PromptConfig) (msgs : list Msg) (msg : Msg)
    (m m' : PromptModel) (calls calls' : list Call) (cmd : Cmd) :
  run msgs (NewPromptModel isLetter isDigit cfg) = Some (m, calls) ->
  Update msg m = Some (m', cmd, calls') ->
  lines m' <> lines m ->
  ~ (isEnter msg /\ submits m) ->
  lastOutput m' = [].
Proof.
  intros Hrun HU Hch Hns.
  destruct (run_ok msgs _ (NewPromptModel_Inv isLetter isDigit cfg))
    as (m0 & c0 & E0 & HI).
  rewrite Hrun in E0. injection E0 as <- _.
  destruct msg as [k|]; simpl in HU; [|injection HU as <- _ _; congruence].
  destruct (handleKeyPress_effect k m HI) as (m1 & cmd1 & c1 & E1 & _ & HE).
  rewrite HU in E1. injection E1 as <- _ _.
  destruct (KType k) eqn:Ht; simpl in HE; try exact HE; try congruence.
  - destruct HE as [Hs|[Ho Hl]].
    + exfalso. apply Hns. split; [exists k; auto|exact Hs].
    + destruct (lastOutput m) eqn:Eo; [exact Ho|].
      exfalso. apply Hch. apply Hl. discriminate.
  - destruct HE as [Ho Hid].
    destruct (lastOutput m) eqn:Eo; [exact Ho|].
    exfalso. apply Hch. rewrite Hid; [reflexivity|].
    apply (inv_output m HI). rewrite Eo. discriminate.
Qed.

Lemma C9_witness :
  exists m calls m' cmd calls',
    run [typed (runesOf "a;"); key KeyEnter; typed (runesOf "F")] exampleModel
      = Some (m, calls)
    /\ Update (key KeyTab) m = Some (m', cmd, calls')
    /\ lines m = [str "F"] /\ lines m' = [str "FROM"]
    /\ lastOutput m' = [].
Proof.
  evaluate (run ([typed (runesOf "a;"); key KeyEnter; typed (runesOf "F")]
                 ++ [key KeyTab]) exampleModel) m' E.
  destruct (run_snoc _ _ _ _ _ E) as (m & c1 & cmd & c2 & E1 & E2 & _).
  evaluate (run [typed (runesOf "a;"); key KeyEnter; typed (runesOf "F")]
              exampleModel) m0 E0.
  rewrite E1 in E0. injection E0 as <- _.
  exists m, c1, m', cmd, c2.
  split; [exact E1|]. split; [exact E2|].
  split; [assumption|]. split; [assumption|].
  apply (C9_content_change_clears_output (fun _ => false) (fun _ => false)
           exampleConfig
           [typed (runesOf "a;"); key KeyEnter; typed (runesOf "F")]
           (key KeyTab) m m' c1 c2 cmd).
  - exact E1.
  - exact E2.
  - fields. discriminate.
  - intros [(k & Hk & Ht) _]. injection Hk as <-. discriminate.
Defined.

(** * Further properties *)

(** ** What each operation leaves alone *)

(** Case analysis of an operation that returned. *)
Ltac invert_step H :=
  repeat match type of H with
         | (mbind _ (match ?x with _ => _ end)) = Some _ =>
           let E := fresh "E" in destruct x eqn:E; simpl in H; try discriminate H
         | (mbind _ (mbind _ ?x)) = Some _ =>
           let E := fresh "E" in destruct x eqn:E; simpl in H; try discriminate H
         | (match ?x with _ => _ end) = Some _ =>
           let E := fresh "E" in destruct x eqn:E; simpl in H; try discriminate H
         | (mbind _ ?x) = Some _ =>
           let E := fresh "E" in destruct x eqn:E; simpl in H; try discriminate H
         | (fmap _ ?x) = Some _ =>
           let E := fresh "E" in destruct x eqn:E; simpl in H; try discriminate H
         end.

Lemma insertRunes_frame runes m m' :
  insertRunes runes m = Some m' -> sameRest m m' /\ sameSuggest m m'.
Proof.
  unfold insertRunes. intros H. invert_step H; injection H as <-; repeat split.
Qed.

Lemma deleteBeforeCursor_frame m m' :
  deleteBeforeCursor m = Some m' ->
  sameRest m m' /\ sameSuggest m m' /\ historyIndex m' = historyIndex m.
Proof.
  unfold deleteBeforeCursor. intros H. invert_step H; injection H as <-; repeat split.
Qed.

Lemma insertNewline_frame m m' :
  insertNewline m = Some m' ->
  sameRest m m' /\ sameSuggest m m' /\ historyIndex m' = historyIndex m.
Proof.
  unfold insertNewline. intros H. invert_step H; injection H as <-; repeat split.
Qed.

Lemma moveCursorUp_frame m m' :
  moveCursorUp m = Some m' ->
  sameRest m m' /\ sameSuggest m m' /\ historyIndex m' = historyIndex m
  /\ lines m' = lines m.
Proof.
  unfold moveCursorUp. intros H. invert_step H; injection H as <-; repeat split.
Qed.

Lemma moveCursorDown_frame m m' :
  moveCursorDown m = Some m' ->
  sameRest m m' /\ sameSuggest m m' /\ historyIndex m' = historyIndex m
  /\ lines m' = lines m.
Proof.
  unfold moveCursorDown. intros H. invert_step H; injection H as <-; repeat split.
Qed.

Lemma moveCursorLeft_frame m m' :
  moveCursorLeft m = Some m' ->
  sameRest m m' /\ sameSuggest m m' /\ historyIndex m' = historyIndex m
  /\ lines m' = lines m.
Proof.
  unfold moveCursorLeft. intros H. invert_step H; injection H as <-; repeat split.
Qed.

Lemma moveCursorRight_frame m m' :
  moveCursorRight m = Some m' ->
  sameRest m m' /\ sameSuggest m m' /\ historyIndex m' = historyIndex m
  /\ lines m' = lines m.
Proof.
  unfold moveCursorRight. intros H. invert_step H; injection H as <-; repeat split.
Qed.

Lemma applyAutocomplete_frame m m' :
  applyAutocomplete m = Some m' ->
  sameRest m m' /\ historyIndex m' = historyIndex m.
Proof.
  unfold applyAutocomplete. intros H. invert_step H; injection H as <-; repeat split.
Qed.

Lemma loadHistoryEntry_frame m m' :
  loadHistoryEntry m = Some m' ->
  sameRest m m' /\ historyIndex m' = historyIndex m.
Proof.
  unfold loadHistoryEntry. intros H.
  destruct ((0 <=? historyIndex m) && (historyIndex m <? len (history m)));
    [|injection H as <-; repeat split].
  destruct (index (history m) (historyIndex m)) as [entry|]; simpl in H;
    [|discriminate].
  destruct (len (Split entry newline) - 1 <? 0); simpl in H;
    invert_step H; injection H as <-; repeat split.
Qed.

Lemma navigateHistoryUp_frame m m' :
  navigateHistoryUp m = Some m' -> sameRest m m'.
Proof.
  unfold navigateHistoryUp. intros H.
  repeat match type of H with
         | (if ?c then _ else _) = Some _ => destruct c
         end;
    try (injection H as <-; repeat split);
    apply loadHistoryEntry_frame in H as [H _]; exact H.
Qed.

Lemma navigateHistoryDown_frame m m' :
  navigateHistoryDown m = Some m' -> sameRest m m'.
Proof.
  unfold navigateHistoryDown. intros H.
  repeat match type of H with
         | (if ?c then _ else _) = Some _ => destruct c
         end;
    try (injection H as <-; repeat split);
    apply loadHistoryEntry_frame in H as [H _]; exact H.
Qed.

Lemma handleUpArrow_frame m m' : handleUpArrow m = Some m' -> sameRest m m'.
Proof.
  unfold handleUpArrow. intros H.
  destruct (showPopup m).
  - injection H as <-. apply (navigateAutocompleteUp_frame m).
  - destruct (cursorRow m =? 0).
    + apply navigateHistoryUp_frame. exact H.
    + apply moveCursorUp_frame in H. apply H.
Qed.

Lemma handleDownArrow_frame m m' : handleDownArrow m = Some m' -> sameRest m m'.
Proof.
  unfold handleDownArrow. intros H.
  destruct (showPopup m).
  - injection H as <-. apply (navigateAutocompleteDown_frame m).
  - destruct (negb (historyIndex m =? -1)).
    + apply navigateHistoryDown_frame. exact H.
    + apply moveCursorDown_frame in H. apply H.
Qed.

(** [updateAutocomplete] touches only the suggestion fields, and calls the
    provider at most once: for a non-empty fragment that is not the stored
    one, with the text before the cursor. *)
Lemma updateAutocomplete_inv m m' calls :
  updateAutocomplete m = Some (m', calls) ->
  sameBuffer m m' /\ sameRest m m'
  /\ (calls = []
      \/ exists text word provider,
           calls = [CallAutoComplete text word]
           /\ AutoCompleteFn (config m) = Some provider
           /\ currentWordFragment (IsWordCharFn (config m)) m = Some word
           /\ getTextBeforeCursor m = Some text
           /\ word <> [] /\ word <> lastSuggestedWord m
           /\ suggestions m' = provider text word).
Proof.
  unfold updateAutocomplete. intros H.
  destruct (currentWordFragment (IsWordCharFn (config m)) m) as [word|] eqn:Ew;
    simpl in H; [|discriminate].
  destruct (mustClear (IsWordCharFn (config m)) word m) as [clear|] eqn:Ec;
    simpl in H; [|discriminate].
  destruct clear.
  { injection H as <- <-. split; [repeat split|]. split; [repeat split|]. auto. }
  assert (Hne : word <> []).
  { intros ->. unfold mustClear in Ec. simpl in Ec. discriminate. }
  destruct (decide (word = lastSuggestedWord m)) as [Hd|Hd].
  - rewrite (bool_decide_eq_true_2 _ Hd) in H. simpl in H.
    destruct (len (suggestions m) =? 0); injection H as <- <-;
      (split; [repeat split|]); (split; [repeat split|]); auto.
  - rewrite (bool_decide_eq_false_2 _ Hd) in H. simpl in H.
    destruct (AutoCompleteFn (config m)) as [provider|] eqn:Ep; simpl in H.
    + change (getTextBeforeCursor (with_popupScrollOffset 0
                (with_selectedSuggestionIndex 0 m)))
        with (getTextBeforeCursor m) in H.
      destruct (getTextBeforeCursor m) as [text|] eqn:Et; simpl in H; [|discriminate].
      injection H as <- <-.
      split; [repeat split|]. split; [repeat split|].
      right. exists text, word, provider. repeat split; auto.
    + injection H as <- <-.
      split; [repeat split|]. split; [repeat split|]. auto.
Qed.

(** [handleEnter] either submits or inserts a newline. *)
Lemma handleEnter_inv m m' calls :
  handleEnter m = Some (m', calls) ->
  config m' = config m /\
  ((submits m
    /\ calls = match ExecuteFn (config m) with
               | Some _ => [CallExecute (getCurrentInput m)]
               | None => []
               end
    /\ history m' = (if bool_decide (TrimSpace (getCurrentInput m) = [])
                     then history m else history m ++ [getCurrentInput m]))
   \/ (~ submits m /\ calls = [] /\ history m' = history m
       /\ exists m1, insertNewline m = Some m1 /\ m' = clearAutocomplete m1)).
Proof.
  unfold handleEnter. intros H.
  destruct (IsCompleteFn (config m)) as [p|] eqn:Ep; simpl in H; [|discriminate].
  destruct (p (getCurrentInput m)) eqn:Hc; simpl in H.
  - destruct (decide (TrimSpace (getCurrentInput m) = str ";")) as [Ht|Ht].
    + rewrite (bool_decide_eq_true_2 _ Ht) in H. simpl in H.
      destruct (insertNewline m) as [m1|] eqn:E1; simpl in H; [|discriminate].
      injection H as <- <-. split; [apply (insertNewline_frame _ _ E1)|].
      right. split; [|split; [reflexivity|split; [apply (insertNewline_frame _ _ E1)|eauto]]].
      intros (p' & Hp' & _ & Hn). contradiction.
    + rewrite (bool_decide_eq_false_2 _ Ht) in H. simpl in H.
      assert (Hs : submits m) by (exists p; auto).
      destruct (ExecuteFn (config m));
        destruct (bool_decide (TrimSpace (getCurrentInput m) = []));
        simpl in H; injection H as <- <-; (split; [reflexivity|]); left; auto.
  - destruct (insertNewline m) as [m1|] eqn:E1; simpl in H; [|discriminate].
    injection H as <- <-. split; [apply (insertNewline_frame _ _ E1)|].
    right. split; [|split; [reflexivity|split; [apply (insertNewline_frame _ _ E1)|eauto]]].
    intros (p' & Hp' & Hc' & _). congruence.
Qed.

(** [handleKeyPress], key by key. *)
Lemma handleKeyPress_inv msg m m' cmd calls :
  handleKeyPress msg m = Some (m', cmd, calls) ->
  let m0 := clearLastOutputOnEdit (KType msg) m in
  match KType msg with
  | KeyCtrlC | KeyEsc => m' = m /\ cmd = CmdQuit /\ calls = []
  | KeyOther => m' = m /\ cmd = CmdNil /\ calls = []
  | KeyEnter => cmd = CmdNil /\ handleEnter m = Some (m', calls)
  | KeyBackspace =>
    cmd = CmdNil /\ exists m1,
      deleteBeforeCursor m0 = Some m1 /\ updateAutocomplete m1 = Some (m', calls)
  | KeySpace =>
    cmd = CmdNil /\ exists m1,
      insertRunes [0x20] m0 = Some m1 /\ updateAutocomplete m1 = Some (m', calls)
  | KeyRunes =>
    cmd = CmdNil /\ exists m1,
      insertRunes (Runes msg) m0 = Some m1 /\ updateAutocomplete m1 = Some (m', calls)
  | KeyTab => cmd = CmdNil /\ calls = [] /\ applyAutocomplete m = Some m'
  | KeyUp => cmd = CmdNil /\ calls = [] /\ handleUpArrow m0 = Some m'
  | KeyDown => cmd = CmdNil /\ calls = [] /\ handleDownArrow m0 = Some m'
  | KeyLeft =>
    cmd = CmdNil /\ calls = [] /\ exists m1,
      moveCursorLeft m0 = Some m1 /\ m' = clearAutocomplete m1
  | KeyRight =>
    cmd = CmdNil /\ calls = [] /\ exists m1,
      moveCursorRight m0 = Some m1 /\ m' = clearAutocomplete m1
  end.
Proof.
  unfold handleKeyPress, handleBackspace, handleAutocompleteTab, insertCharacter.
  intros H. destruct (KType msg); simpl in *.
  - injection H as <- <- <-. auto.
  - injection H as <- <- <-. auto.
  - destruct (handleEnter m) as [[m1 c1]|]; simpl in H; [|discriminate].
    injection H as <- <- <-. auto.
  - destruct (deleteBeforeCursor _) as [m1|]; simpl in H; [|discriminate].
    destruct (updateAutocomplete m1) as [[m2 c2]|] eqn:E2; simpl in H; [|discriminate].
    injection H as <- <- <-. eauto.
  - destruct (applyAutocomplete m) as [m1|]; simpl in H; [|discriminate].
    injection H as <- <- <-. auto.
  - destruct (handleUpArrow _) as [m1|]; simpl in H; [|discriminate].
    injection H as <- <- <-. auto.
  - destruct (handleDownArrow _) as [m1|]; simpl in H; [|discriminate].
    injection H as <- <- <-. auto.
  - destruct (moveCursorLeft _) as [m1|]; simpl in H; [|discriminate].
    injection H as <- <- <-. eauto.
  - destruct (moveCursorRight _) as [m1|]; simpl in H; [|discriminate].
    injection H as <- <- <-. eauto.
  - destruct (insertRunes _ _) as [m1|]; simpl in H; [|discriminate].
    destruct (updateAutocomplete m1) as [[m2 c2]|] eqn:E2; simpl in H; [|discriminate].
    injection H as <- <- <-. eauto.
  - destruct (insertRunes _ _) as [m1|]; simpl in H; [|discriminate].
    destruct (updateAutocomplete m1) as [[m2 c2]|] eqn:E2; simpl in H; [|discriminate].
    injection H as <- <- <-. eauto.
  - injection H as <- <- <-. auto.
Qed.

(** ** Callbacks and commands *)

Lemma trailingRun_suffix f l : exists pre, l = pre ++ trailingRun f l.
Proof.
  assert (H : forall l', exists rest, l' = takeWhile f l' ++ rest).
  { induction l' as [|x l' [rest IH]]; simpl; [exists []; reflexivity|].
    destruct (f x); [exists rest; simpl; congruence|exists (x :: l'); reflexivity]. }
  destruct (H (rev l)) as [rest E]. exists (rev rest). unfold trailingRun.
  rewrite <- rev_app_distr, <- E, rev_involutive. reflexivity.
Qed.

Lemma currentWordFragment_nil_classifier m word :
  currentWordFragment None m = Some word -> word = [].
Proof.
  unfold currentWordFragment, scanLeft. intros H.
  destruct (len (lines m) <=? cursorRow m); [congruence|].
  destruct (index (lines m) (cursorRow m)) as [line|]; simpl in H; [|discriminate].
  destruct (cursorCol m =? 0); [congruence|].
  destruct (len (stringToRunes line) <? cursorCol m); [congruence|].
  destruct (Z.ltb_spec 0 (cursorCol m)).
  - destruct (Z.to_nat (cursorCol m)) as [|n] eqn:En; [lia|]. simpl in H.
    destruct (stringToRunes line !! n); simpl in H; discriminate.
  - simpl in H. destruct (cursorCol m <? cursorCol m); simpl in H; congruence.
Qed.

(** The fragment handed to the provider ends the text handed with it. *)
Lemma fragment_ends_text m word text :
  currentWordFragment (IsWordCharFn (config m)) m = Some word ->
  word <> [] ->
  getTextBeforeCursor m = Some text ->
  exists pre, text = pre ++ word.
Proof.
  intros Hw Hne Ht.
  destruct (IsWordCharFn (config m)) as [f|];
    [|apply currentWordFragment_nil_classifier in Hw; contradiction].
  destruct (currentWordFragment_nonempty f m word Hw Hne)
    as (line & r & Hl & Hc & _ & _).
  rewrite (fragment_is_trailing_run f m line Hl Hc) in Hw. injection Hw as <-.
  pose proof (currentLine_range _ _ Hl) as Hr. unfold currentLine in Hl.
  unfold codepointLength in Hc.
  unfold getTextBeforeCursor in Ht.
  destruct (Z.ltb_spec (cursorRow m) 0); [lia|].
  destruct (Z.leb_spec (len (lines m)) (cursorRow m)); [lia|]. simpl in Ht.
  rewrite sliceTo_ok in Ht by lia. simpl in Ht. rewrite Hl in Ht. simpl in Ht.
  destruct (Z.ltb_spec 0 (cursorCol m)); [|lia].
  rewrite Z.min_l in Ht by lia. rewrite sliceTo_ok in Ht by lia. simpl in Ht.
  injection Ht as <-.
  destruct (trailingRun_suffix f (take (Z.to_nat (cursorCol m)) (stringToRunes line)))
    as [pre E].
  eexists (_ ++ runesToString pre).
  rewrite <- app_assoc, <- runesToString_app, <- E. reflexivity.
Qed.

(** Where the calls of a key press come from. *)
Lemma handleKeyPress_calls k m m' cmd calls :
  handleKeyPress k m = Some (m', cmd, calls) ->
  calls = []
  \/ (KType k = KeyEnter /\ handleEnter m = Some (m', calls))
  \/ ((KType k = KeyBackspace \/ KType k = KeySpace \/ KType k = KeyRunes)
      /\ exists m1, updateAutocomplete m1 = Some (m', calls)).
Proof.
  intros HU. pose proof (handleKeyPress_inv k m m' cmd calls HU) as HK.
  cbv zeta in HK.
  destruct (KType k) eqn:Ht; decompose [and ex] HK; clear HK; eauto 7.
Qed.

(** X1.  The executor is called only by an Enter that submits, at most once
    for a message, with exactly the joined input. *)
Theorem X1_executor_only_on_submit (msg : Msg) (m m' : PromptModel) (cmd : Cmd)
    (calls : list Call) (input : gostring) :
  Update msg m = Some (m', cmd, calls) ->
  In (CallExecute input) calls ->
  calls = [CallExecute input] /\ isEnter msg /\ input = getCurrentInput m
  /\ submits m.
Proof.
  intros HU Hin. destruct msg as [k|]; simpl in HU;
    [|injection HU as <- <- <-; destruct Hin].
  destruct (handleKeyPress_calls k m m' cmd calls HU)
    as [->|[(Ht & HE)|(_ & m1 & H1)]]; [destruct Hin| |].
  - destruct (handleEnter_inv _ _ _ HE) as (_ & [HS|HN]).
    + destruct HS as (Hs & Hc & _). rewrite Hc in Hin |- *.
      destruct (ExecuteFn (config m)); [|destruct Hin].
      destruct Hin as [Hin|[]]. injection Hin as <-.
      repeat split; auto. exists k. auto.
    + destruct HN as (_ & -> & _). destruct Hin.
  - destruct (updateAutocomplete_inv _ _ _ H1) as (_ & _ & [->|Hc]);
      [destruct Hin|].
    destruct Hc as (t & w & g & -> & _). destruct Hin as [Hin|[]]. discriminate.
Qed.

Lemma X1_witness :
  exists m' cmd,
    Update (key KeyEnter) (modelAt [str "SELECT 1;"] 0 9)
      = Some (m', cmd, [CallExecute (str "SELECT 1;")])
    /\ isEnter (key KeyEnter)
    /\ submits (modelAt [str "SELECT 1;"] 0 9).
Proof.
  destruct (Update (key KeyEnter) (modelAt [str "SELECT 1;"] 0 9))
    as [[[m' cmd] calls]|] eqn:E.
  - assert (Hc : calls = [CallExecute (str "SELECT 1;")]).
    { apply (f_equal (fun r => (fun '(_, _, c) => c) <$> r)) in E.
      vm_compute in E. injection E as E. symmetry. exact E. }
    subst calls.
    destruct (X1_executor_only_on_submit _ _ _ _ _ (str "SELECT 1;") E)
      as (_ & H1 & _ & H2).
    + left. reflexivity.
    + exists m', cmd. auto.
  - apply (f_equal (fun r => (fun '(_, _, c) => c) <$> r)) in E.
    vm_compute in E. discriminate.
Defined.

(** X2.  The suggestion provider is called only after Backspace, Space or
    runes, at most once for a message, never with an empty fragment, and
    the fragment ends the text before the cursor it is given. *)
Theorem X2_provider_only_on_fragment (msg : Msg) (m m' : PromptModel) (cmd : Cmd)
    (calls : list Call) (text word : gostring) :
  Update msg m = Some (m', cmd, calls) ->
  In (CallAutoComplete text word) calls ->
  calls = [CallAutoComplete text word]
  /\ word <> []
  /\ (exists pre, text = pre ++ word)
  /\ exists k, msg = MsgKey k
       /\ (KType k = KeyBackspace \/ KType k = KeySpace \/ KType k = KeyRunes).
Proof.
  intros HU Hin. destruct msg as [k|]; simpl in HU;
    [|injection HU as <- <- <-; destruct Hin].
  destruct (handleKeyPress_calls k m m' cmd calls HU)
    as [->|[(Ht & HE)|(Ht & m1 & H1)]]; [destruct Hin| |].
  - destruct (handleEnter_inv _ _ _ HE) as (_ & [HS|HN]).
    + destruct HS as (_ & Hc & _). rewrite Hc in Hin.
      destruct (ExecuteFn (config m)); [|destruct Hin].
      destruct Hin as [Hin|[]]. discriminate.
    + destruct HN as (_ & -> & _). destruct Hin.
  - destruct (updateAutocomplete_inv _ _ _ H1) as (_ & _ & [->|Hc]);
      [destruct Hin|].
    destruct Hc as (t & w & g & -> & _ & Hw & Htx & Hne & _).
    destruct Hin as [Hin|[]]. injection Hin as <- <-.
    split; [reflexivity|]. split; [exact Hne|].
    split; [exact (fragment_ends_text m1 w t Hw Hne Htx)|]. exists k. auto.
Qed.

Lemma X2_witness :
  exists m' cmd,
    Update (typed (runesOf "R")) (modelAt [str "SELECT F"] 0 8)
      = Some (m', cmd, [CallAutoComplete (str "SELECT FR") (str "FR")])
    /\ exists pre, str "SELECT FR" = pre ++ str "FR".
Proof.
  destruct (Update (typed (runesOf "R")) (modelAt [str "SELECT F"] 0 8))
    as [[[m' cmd] calls]|] eqn:E.
  - assert (Hc : calls = [CallAutoComplete (str "SELECT FR") (str "FR")]).
    { apply (f_equal (fun r => (fun '(_, _, c) => c) <$> r)) in E.
      vm_compute in E. injection E as E. symmetry. exact E. }
    subst calls.
    destruct (X2_provider_only_on_fragment _ _ _ _ _ (str "SELECT FR") (str "FR") E)
      as (_ & _ & H1 & _).
    + left. reflexivity.
    + exists m', cmd. auto.
  - apply (f_equal (fun r => (fun '(_, _, c) => c) <$> r)) in E.
    vm_compute in E. discriminate.
Defined.

(** X3.  [tea.Quit] is returned exactly for Ctrl-C and Esc, and these keys
    change nothing in the model and call nothing. *)
Theorem X3_quit_only_on_ctrlc_esc (msg : Msg) (m m' : PromptModel) (cmd : Cmd)
    (calls : list Call) :
  Update msg m = Some (m', cmd, calls) ->
  (cmd = CmdQuit <->
   exists k, msg = MsgKey k /\ (KType k = KeyCtrlC \/ KType k = KeyEsc))
  /\ (cmd = CmdQuit -> m' = m /\ calls = []).
Proof.
  intros HU. destruct msg as [k|]; simpl in HU.
  2:{ injection HU as <- <- <-. split; [|discriminate].
      split; [discriminate|]. intros (k & Hk & _). discriminate. }
  pose proof (handleKeyPress_inv k m m' cmd calls HU) as HK. cbv zeta in HK.
  destruct (KType k) eqn:Ht.
  1,2: destruct HK as (-> & -> & ->); split; [|auto];
       split; [intros _; exists k; auto|reflexivity].
  all: assert (Hc : cmd = CmdNil) by (decompose [and ex] HK; assumption).
  all: subst cmd; split; [|discriminate]; split; [discriminate|].
  all: intros (k' & Hk & [H|H]); injection Hk as <-; congruence.
Qed.

Lemma X3_witness :
  Update (key KeyEsc) (modelAt [str "SELECT"] 0 3)
    = Some (modelAt [str "SELECT"] 0 3, CmdQuit, []).
Proof.
  destruct (Update (key KeyEsc) (modelAt [str "SELECT"] 0 3))
    as [[[m' cmd] calls]|] eqn:E; [|discriminate E].
  destruct (X3_quit_only_on_ctrlc_esc _ _ _ _ _ E) as ([_ Hq] & Hm).
  assert (Hc : cmd = CmdQuit) by (apply Hq; exists {| KType := KeyEsc; Runes := [] |}; auto).
  destruct (Hm Hc) as (-> & ->). rewrite Hc. reflexivity.
Defined.

(** ** Invariants of the reachable states *)

(** A property kept by every message holds after every run. *)
Lemma run_invariant (P : PromptModel -> Prop) :
  (forall msg m m' cmd calls,
      Inv m -> P m -> Update msg m = Some (m', cmd, calls) -> P m') ->
  forall msgs m, Inv m -> P m ->
    exists m' calls, run msgs m = Some (m', calls) /\ Inv m' /\ P m'.
Proof.
  intros Hstep msgs. induction msgs as [|msg msgs IH]; intros m HI HP; simpl.
  - eexists _, _. split; [reflexivity|auto].
  - destruct (Update_ok msg m HI) as (m1 & cmd & calls1 & E & HI1).
    rewrite E. simpl.
    destruct (IH m1 HI1 (Hstep _ _ _ _ _ HI HP E)) as (m2 & calls2 & -> & HI2 & HP2).
    simpl. eexists _, _. split; [reflexivity|auto].
Qed.

(** X4.  After any sequence of messages the history browse index is the
    sentinel -1 or the index of an entry of the history. *)
Theorem X4_browse_index_valid isLetter isDigit (cfg : PromptConfig) (msgs : list Msg) :
  exists m calls,
    run msgs (NewPromptModel isLetter isDigit cfg) = Some (m, calls)
    /\ (historyIndex m = -1
        \/ exists entry, index (history m) (historyIndex m) = Some entry).
Proof.
  destruct (run_ok msgs _ (NewPromptModel_Inv isLetter isDigit cfg))
    as (m & calls & E & [_ HH _ _ _ _]).
  exists m, calls. split; [exact E|]. unfold HistoryOK in HH.
  destruct (Z.eq_dec (historyIndex m) (-1)) as [?|Hn]; [left; assumption|].
  right. apply index_in_range. lia.
Qed.

(** X5.  After any sequence of messages, while the popup shows, the
    selected index is the index of a suggestion and the cursor column is at
    most the number of codepoints of its line. *)
Theorem X5_selection_valid_while_popup_shows
    isLetter isDigit (cfg : PromptConfig) (msgs : list Msg) :
  exists m calls,
    run msgs (NewPromptModel isLetter isDigit cfg) = Some (m, calls)
    /\ (showPopup m = true ->
        (exists s, index (suggestions m) (selectedSuggestionIndex m) = Some s)
        /\ exists line, currentLine m = Some line
             /\ 0 <= cursorCol m <= codepointLength line).
Proof.
  destruct (run_ok msgs _ (NewPromptModel_Inv isLetter isDigit cfg))
    as (m & calls & E & [HC _ HS HP _ _]).
  exists m, calls. split; [exact E|]. intros Hp.
  split; [apply index_in_range, HS, Hp|].
  destruct (HP Hp) as (line & Hl & Hc). destruct HC as (line' & Hl' & Hc').
  exists line. split; [exact Hl|]. lia.
Qed.

(** X6.  After any sequence of messages, a non-empty last output is only
    on display over the pristine buffer: one empty line, the cursor at the
    origin, no popup. *)
Theorem X6_output_only_over_pristine_buffer
    isLetter isDigit (cfg : PromptConfig) (msgs : list Msg) :
  exists m calls,
    run msgs (NewPromptModel isLetter isDigit cfg) = Some (m, calls)
    /\ (lastOutput m <> [] ->
        lines m = [[]] /\ cursorRow m = 0 /\ cursorCol m = 0
        /\ showPopup m = false).
Proof.
  destruct (run_ok msgs _ (NewPromptModel_Inv isLetter isDigit cfg))
    as (m & calls & E & [_ _ _ _ _ HO]).
  exists m, calls. split; [exact E|]. intros Hne.
  destruct (HO Hne) as (? & ? & ? & ?). auto.
Qed.

(** ** The history *)

(** What a message does to the configuration and to the history. *)
Lemma Update_history msg m m' cmd calls :
  Update msg m = Some (m', cmd, calls) ->
  config m' = config m
  /\ (history m' = history m
      \/ (isEnter msg /\ submits m /\ TrimSpace (getCurrentInput m) <> []
          /\ history m' = history m ++ [getCurrentInput m])).
Proof.
  intros HU. destruct msg as [k|]; simpl in HU; [|injection HU as <- _ _; auto].
  pose proof (handleKeyPress_inv k m m' cmd calls HU) as HK. cbv zeta in HK.
  assert (Hedit : forall m0 m1,
            config m0 = config m -> history m0 = history m ->
            sameRest m0 m1 -> updateAutocomplete m1 = Some (m', calls) ->
            config m' = config m /\ history m' = history m).
  { intros m0 m1 E1 E2 (F1 & F2 & _) H1.
    destruct (updateAutocomplete_inv _ _ _ H1) as (_ & (G1 & G2 & _) & _).
    split; congruence. }
  destruct (KType k) eqn:Ht.
  - destruct HK as (-> & _). auto.
  - destruct HK as (-> & _). auto.
  - destruct HK as (_ & HE).
    destruct (handleEnter_inv _ _ _ HE) as (Hcfg & [HS|HN]); split; auto.
    + destruct HS as (Hs & _ & Hh).
      destruct (decide (TrimSpace (getCurrentInput m) = [])) as [Hb|Hb].
      * rewrite (bool_decide_eq_true_2 _ Hb) in Hh. auto.
      * rewrite (bool_decide_eq_false_2 _ Hb) in Hh. right.
        repeat split; auto. exists k. auto.
    + destruct HN as (_ & _ & Hh & _). auto.
  - destruct HK as (_ & m1 & H0 & H1).
    apply deleteBeforeCursor_frame in H0 as (F & _).
    destruct (Hedit (clearLastOutputOnEdit KeyBackspace m) m1 eq_refl eq_refl F H1).
    auto.
  - destruct HK as (_ & _ & H0). apply applyAutocomplete_frame in H0 as ((F1 & F2 & _) & _).
    auto.
  - destruct HK as (_ & _ & H0). apply handleUpArrow_frame in H0 as (F1 & F2 & _).
    simpl in F1, F2. auto.
  - destruct HK as (_ & _ & H0). apply handleDownArrow_frame in H0 as (F1 & F2 & _).
    simpl in F1, F2. auto.
  - destruct HK as (_ & _ & m1 & H0 & ->).
    apply moveCursorLeft_frame in H0 as ((F1 & F2 & _) & _).
    simpl in *. auto.
  - destruct HK as (_ & _ & m1 & H0 & ->).
    apply moveCursorRight_frame in H0 as ((F1 & F2 & _) & _).
    simpl in *. auto.
  - destruct HK as (_ & m1 & H0 & H1).
    apply insertRunes_frame in H0 as (F & _).
    destruct (Hedit (clearLastOutputOnEdit KeySpace m) m1 eq_refl eq_refl F H1).
    auto.
  - destruct HK as (_ & m1 & H0 & H1).
    apply insertRunes_frame in H0 as (F & _).
    destruct (Hedit (clearLastOutputOnEdit KeyRunes m) m1 eq_refl eq_refl F H1).
    auto.
  - destruct HK as (-> & _). auto.
Qed.

(** X7.  A message never removes or changes an entry of the history; it
    adds at most one, at the end, and only an Enter that submits an input
    whose trimmed form is not empty adds it. *)
Theorem X7_history_is_append_only (msg : Msg) (m m' : PromptModel) (cmd : Cmd)
    (calls : list Call) :
  Update msg m = Some (m', cmd, calls) ->
  history m' = history m
  \/ (history m' = history m ++ [getCurrentInput m]
      /\ isEnter msg /\ submits m /\ TrimSpace (getCurrentInput m) <> []).
Proof.
  intros HU. destruct (Update_history _ _ _ _ _ HU) as (_ & [H|(H1 & H2 & H3 & H4)]);
    auto.
Qed.

Lemma X7_witness :
  exists m' cmd calls,
    Update (key KeyEnter) (modelAt [str "SELECT 1;"; str "  "] 0 3)
      = Some (m', cmd, calls)
    /\ (history m' = []
        \/ (history m' = [] ++ [str "SELECT 1;"]
            /\ isEnter (key KeyEnter)
            /\ submits (modelAt [str "SELECT 1;"; str "  "] 0 3)
            /\ TrimSpace (str "SELECT 1;") <> [])).
Proof.
  destruct (Update (key KeyEnter) (modelAt [str "SELECT 1;"; str "  "] 0 3))
    as [[[m' cmd] calls]|] eqn:E.
  - exists m', cmd, calls. split; [reflexivity|].
    exact (X7_history_is_append_only _ _ _ _ _ E).
  - apply (f_equal (fun r => (fun _ => tt) <$> r)) in E.
    vm_compute in E. discriminate E.
Defined.

(** X8.  After any sequence of messages, every entry of the history was
    accepted by the completeness predicate, and none is blank or the bare
    terminator ";". *)
Theorem X8_history_entries_are_submissions
    isLetter isDigit (cfg : PromptConfig) (msgs : list Msg) :
  exists m calls,
    run msgs (NewPromptModel isLetter isDigit cfg) = Some (m, calls)
    /\ Forall (fun entry =>
                 callFn (IsCompleteFn (config m)) entry = Some true
                 /\ TrimSpace entry <> []
                 /\ TrimSpace entry <> str ";")
              (history m).
Proof.
  destruct (run_invariant
              (fun m => Forall (fun entry =>
                   callFn (IsCompleteFn (config m)) entry = Some true
                   /\ TrimSpace entry <> []
                   /\ TrimSpace entry <> str ";") (history m)))
    with (msgs := msgs) (m := NewPromptModel isLetter isDigit cfg)
    as (m & calls & E & _ & HP).
  - intros msg m m' cmd calls _ HP HU.
    destruct (Update_history _ _ _ _ _ HU) as (Hc & [Hh|(_ & Hs & Hb & Hh)]);
      rewrite Hh, Hc; [exact HP|].
    apply Forall_app. split; [exact HP|]. constructor; [|constructor].
    destruct Hs as (p & Hp & Hacc & Hn). rewrite Hp. simpl. rewrite Hacc. auto.
  - apply NewPromptModel_Inv.
  - constructor.
  - exists m, calls. auto.
Qed.

(** ** Round trips of the buffer operations *)

Lemma encoderune_ascii r : 0 <= r < 0x80 -> length (encoderune r) = 1%nat.
Proof.
  intros H. unfold encoderune, uint32.
  rewrite Z.mod_small by lia.
  destruct (Z.leb_spec r rune1Max); [reflexivity|unfold rune1Max in *; lia].
Qed.

Lemma runesToString_ascii_length rs :
  Forall (fun r => 0x20 <= r < 0x80) rs -> length (runesToString rs) = length rs.
Proof.
  unfold runesToString. induction 1 as [|r rs Hr _ IH]; simpl; [reflexivity|].
  rewrite length_app, encoderune_ascii by lia. simpl. congruence.
Qed.

Lemma filter_printable rs :
  Forall (fun r => 0x20 <= r < 0x80) rs -> List.filter (fun r => 0x20 <=? r) rs = rs.
Proof.
  induction 1 as [|r rs Hr _ IH]; simpl; [reflexivity|].
  destruct (Z.leb_spec 32 r); [congruence|lia].
Qed.

(** Backspace over bytes that lie before the cursor in its line. *)
Lemma delete_bytes bs : forall m before after,
  currentLine m = Some (before ++ bs ++ after) ->
  cursorCol m = len before + len bs ->
  exists m',
    times (length bs) deleteBeforeCursor m = Some m'
    /\ lines m' = <[Z.to_nat (cursorRow m) := before ++ after]> (lines m)
    /\ cursorRow m' = cursorRow m /\ cursorCol m' = len before.
Proof.
  induction bs as [|b bs IH] using rev_ind; intros m before after Hl Hc.
  - simpl. exists m. split; [reflexivity|]. rewrite len_nil in Hc.
    split; [|split; [reflexivity|lia]].
    symmetry. apply list_insert_id. apply index_Some in Hl. apply Hl.
  - rewrite length_app. simpl. rewrite Nat.add_1_r. simpl.
    pose proof (currentLine_range _ _ Hl) as Hr.
    pose proof (len_nonneg before). pose proof (len_nonneg bs).
    rewrite len_app, len_cons, len_nil in Hc.
    rewrite (deleteBeforeCursor_in_line m _ Hl)
      by (unfold len in *; rewrite !length_app; simpl; lia).
    simpl.
    assert (Hline : take (Z.to_nat (cursorCol m - 1)) (before ++ (bs ++ [b]) ++ after)
                    ++ drop (Z.to_nat (cursorCol m)) (before ++ (bs ++ [b]) ++ after)
                    = before ++ bs ++ after).
    { replace (before ++ (bs ++ [b]) ++ after)
        with ((before ++ bs) ++ [b] ++ after) by (rewrite <- !app_assoc; reflexivity).
      rewrite take_app_length' by (rewrite length_app; unfold len in *; lia).
      replace (Z.to_nat (cursorCol m)) with (length ((before ++ bs) ++ [b]))
        by (rewrite !length_app; simpl; unfold len in *; lia).
      rewrite app_assoc, drop_app_length. rewrite <- app_assoc. reflexivity. }
    rewrite Hline.
    set (m1 := with_cursorCol (cursorCol m - 1)
                 (with_lines (<[Z.to_nat (cursorRow m) := before ++ bs ++ after]>
                                (lines m)) m)).
    destruct (IH m1 before after) as (m' & E & H1 & H2 & H3).
    + unfold currentLine, m1. simpl. apply index_insert_same. exact Hr.
    + unfold m1. simpl. lia.
    + exists m'. split; [exact E|]. split; [|split; assumption].
      rewrite H1. unfold m1. simpl. apply list_insert_insert_eq.
Qed.

(** X9.  Typing ASCII text and pressing Backspace once for each
    character restores the buffer and the cursor. *)
Theorem X9_insert_then_delete_restores (runes : list rune) (m : PromptModel) :
  CursorOK m ->
  Forall (fun r => 0x20 <= r < 0x80) runes ->
  exists m1 m2,
    insertRunes runes m = Some m1
    /\ times (length runes) deleteBeforeCursor m1 = Some m2
    /\ lines m2 = lines m
    /\ cursorRow m2 = cursorRow m /\ cursorCol m2 = cursorCol m.
Proof.
  intros (line & Hl & Hc) Hascii.
  pose proof (currentLine_range _ _ Hl) as Hr.
  destruct runes as [|r0 runes0] eqn:Er.
  { exists m, m. repeat split; reflexivity. }
  rewrite <- Er in *. assert (Hne : runes <> []) by (subst; discriminate). clear Er.
  unfold insertRunes. rewrite (filter_printable _ Hascii).
  destruct (Z.eqb_spec (len runes) 0) as [E0|_].
  { destruct runes; [congruence|]. rewrite len_cons in E0.
    pose proof (len_nonneg runes). lia. }
  unfold currentLine in Hl. rewrite Hl. simpl.
  rewrite sliceTo_ok, sliceFrom_ok by lia. simpl.
  rewrite setIndex_ok by lia. simpl.
  eexists. 
  set (before := take (Z.to_nat (cursorCol m)) line).
  set (after := drop (Z.to_nat (cursorCol m)) line).
  set (m1 := with_historyIndex (-1) _).
  destruct (delete_bytes (runesToString runes) m1 before after) as (m2 & E & H1 & H2 & H3).
  - unfold currentLine, m1. simpl. apply index_insert_same. exact Hr.
  - unfold m1, before. simpl. rewrite len_take by lia.
    unfold len. rewrite (runesToString_ascii_length _ Hascii). reflexivity.
  - rewrite (runesToString_ascii_length _ Hascii) in E.
    exists m2. split; [reflexivity|]. split; [exact E|].
    split; [|split; [exact H2|]].
    + rewrite H1. unfold m1. simpl. rewrite list_insert_insert_eq.
      unfold before, after. rewrite take_drop. apply list_insert_id.
      apply index_Some in Hl. apply Hl.
    + rewrite H3. unfold before. apply len_take. lia.
Qed.

Lemma X9_witness :
  exists m1 m2,
    insertRunes (runesOf "ROM") (modelAt [str "SELECT F x"] 0 8) = Some m1
    /\ times 3 deleteBeforeCursor m1 = Some m2
    /\ lines m2 = [str "SELECT F x"]
    /\ cursorRow m2 = 0 /\ cursorCol m2 = 8.
Proof.
  apply (X9_insert_then_delete_restores (runesOf "ROM") (modelAt [str "SELECT F x"] 0 8)).
  - exists (str "SELECT F x"). split; [reflexivity|]. vm_compute. split; discriminate.
  - repeat constructor; vm_compute; discriminate.
Defined.

Lemma cleanupLoop_prefix fuel ls :
  exists k, cleanupLoop fuel ls = take k ls /\ (k <= length ls)%nat
    /\ Forall (fun l => TrimSpace l = []) (drop k ls).
Proof.
  revert ls. induction fuel as [|fuel IH]; intros ls; simpl.
  - exists (length ls). rewrite take_ge, drop_ge by lia. auto.
  - destruct (lastTwoBlank ls) eqn:E.
    2:{ exists (length ls). rewrite take_ge, drop_ge by lia. auto. }
    unfold lastTwoBlank in E. apply andb_true_iff in E as [E E2].
    apply andb_true_iff in E as [E0 E1]. apply Z.ltb_lt in E0.
    unfold isBlankAt in E1.
    destruct (index ls (len ls - 1)) as [l|] eqn:El; [|discriminate].
    apply bool_decide_eq_true in E1. apply index_Some in El as [_ El].
    destruct (IH (take (Z.to_nat (len ls - 1)) ls)) as (k & Hk & Hle & Hall).
    rewrite length_take in Hle. unfold len in *.
    exists k. rewrite Hk. rewrite take_take.
    replace (k `min` Z.to_nat (Z.of_nat (length ls) - 1))%nat with k by lia.
    split; [reflexivity|]. split; [lia|].
    rewrite <- (take_drop (Z.to_nat (Z.of_nat (length ls) - 1) - k) (drop k ls)).
    apply Forall_app. split.
    + rewrite take_drop_commute.
      replace (k + (Z.to_nat (Z.of_nat (length ls) - 1) - k))%nat
        with (Z.to_nat (Z.of_nat (length ls) - 1)) by lia.
      exact Hall.
    + rewrite drop_drop.
      replace (k + (Z.to_nat (Z.of_nat (length ls) - 1) - k))%nat
        with (Z.to_nat (Z.of_nat (length ls) - 1)) by lia.
      rewrite (drop_S _ l) by exact El.
      rewrite drop_ge by lia. repeat constructor. exact E1.
Qed.

Lemma cleanupLoop_id fuel ls : lastTwoBlank ls = false -> cleanupLoop fuel ls = ls.
Proof. intros H. destruct fuel; simpl; [reflexivity|]. rewrite H. reflexivity. Qed.

(** The lines [insertNewline] builds before the cleanup. *)
Lemma insertNewline_split m line :
  currentLine m = Some line -> 0 <= cursorCol m <= len line ->
  insertNewline m =
    (let newLines := take (Z.to_nat (cursorRow m)) (lines m)
                     ++ [take (Z.to_nat (cursorCol m)) line;
                         drop (Z.to_nat (cursorCol m)) line]
                     ++ drop (Z.to_nat (cursorRow m + 1)) (lines m) in
     let m := with_lines newLines m in
     let m := with_cursorRow (cursorRow m + 1) m in
     let m := with_cursorCol 0 m in
     let m := cleanupExtraBlankLines m in
     if (len (lines m) <=? cursorRow m) && (0 <? len (lines m)) then
       Some (with_cursorRow (len (lines m) - 1) m)
     else if len (lines m) =? 0 then
       Some (with_cursorRow 0 (with_lines [[]] m))
     else Some m).
Proof.
  intros Hl Hc. pose proof (currentLine_range _ _ Hl) as Hr.
  unfold currentLine in Hl. unfold insertNewline. rewrite Hl. simpl.
  rewrite (sliceTo_ok line), (sliceFrom_ok line) by lia. simpl.
  rewrite sliceTo_ok by lia. simpl.
  destruct (Z.ltb_spec (cursorRow m + 1) (len (lines m))).
  - rewrite sliceFrom_ok by lia. simpl. rewrite <- !app_assoc. reflexivity.
  - rewrite (drop_ge (lines m)) by (unfold len in *; lia).
    simpl. rewrite <- !app_assoc. reflexivity.
Qed.

(** X10.  When Enter's newline adds a line to the buffer (the cleanup of
    trailing blank lines drops nothing), the Backspace that follows merges
    the two halves again: buffer and cursor are as before. *)
Theorem X10_newline_then_backspace_restores (m m1 : PromptModel) :
  CursorOK m ->
  insertNewline m = Some m1 ->
  len (lines m1) = len (lines m) + 1 ->
  exists m2,
    deleteBeforeCursor m1 = Some m2
    /\ lines m2 = lines m
    /\ cursorRow m2 = cursorRow m /\ cursorCol m2 = cursorCol m.
Proof.
  intros (line & Hl & Hc) E Hlen.
  pose proof (currentLine_range _ _ Hl) as Hr.
  rewrite (insertNewline_split m line Hl Hc) in E. cbv zeta in E.
  set (newLines := take (Z.to_nat (cursorRow m)) (lines m)
                   ++ [take (Z.to_nat (cursorCol m)) line;
                       drop (Z.to_nat (cursorCol m)) line]
                   ++ drop (Z.to_nat (cursorRow m + 1)) (lines m)) in *.
  assert (HnewLen : len newLines = len (lines m) + 1).
  { unfold newLines, len in *. rewrite !length_app, length_take, length_drop.
    simpl. lia. }
  destruct (cleanupLoop_prefix (length newLines) newLines) as (k & Hk & Hle & _).
  assert (Hm1 : lines m1 = cleanupLoop (length newLines) newLines).
  { simpl in E.
    repeat match type of E with
           | (if ?c then _ else _) = Some _ => destruct c eqn:?
           end; injection E as <-; simpl; try reflexivity.
    exfalso. simpl in *. apply Z.eqb_eq in Heqb0.
    pose proof (cleanupLoop_len (length newLines) newLines). lia. }
  assert (Hsame : cleanupLoop (length newLines) newLines = newLines).
  { rewrite Hk. apply take_ge. rewrite Hm1, Hk in Hlen.
    unfold len in *. rewrite length_take in Hlen. lia. }
  assert (Em1 : lines m1 = newLines /\ cursorRow m1 = cursorRow m + 1
                /\ cursorCol m1 = 0).
  { split; [congruence|]. simpl in E. rewrite Hsame in E.
    destruct (Z.leb_spec (len newLines) (cursorRow m + 1)); [lia|]. simpl in E.
    destruct (Z.eqb_spec (len newLines) 0); [lia|].
    injection E as <-. simpl. auto. }
  destruct Em1 as (L1 & R1 & C1).
  assert (Hprev : index (lines m1) (cursorRow m1 - 1)
                  = Some (take (Z.to_nat (cursorCol m)) line)).
  { rewrite L1, R1. apply index_Some. split; [lia|]. unfold newLines.
    rewrite lookup_app_r by (rewrite length_take; unfold len in *; lia).
    rewrite length_take.
    replace (Z.to_nat (cursorRow m + 1 - 1) - Z.to_nat (cursorRow m) `min` length (lines m))%nat
      with 0%nat by (unfold len in *; lia).
    reflexivity. }
  assert (Hcur : currentLine m1 = Some (drop (Z.to_nat (cursorCol m)) line)).
  { unfold currentLine. rewrite L1, R1. apply index_Some. split; [lia|].
    unfold newLines.
    rewrite lookup_app_r by (rewrite length_take; unfold len in *; lia).
    rewrite length_take.
    replace (Z.to_nat (cursorRow m + 1) - Z.to_nat (cursorRow m) `min` length (lines m))%nat
      with 1%nat by (unfold len in *; lia).
    reflexivity. }
  rewrite (deleteBeforeCursor_merge m1 _ _ ltac:(lia) ltac:(lia) Hprev Hcur).
  eexists. split; [reflexivity|]. simpl.
  split; [|split; [lia|apply len_take; lia]].
  rewrite L1, R1, take_drop. unfold newLines.
  replace (Z.to_nat (cursorRow m + 1 - 1)) with (Z.to_nat (cursorRow m)) by lia.
  rewrite take_app_length' by (rewrite length_take; unfold len in *; lia).
  replace (Z.to_nat (cursorRow m + 1 + 1))
    with (length (take (Z.to_nat (cursorRow m)) (lines m)
                  ++ [take (Z.to_nat (cursorCol m)) line;
                      drop (Z.to_nat (cursorCol m)) line]))
    by (rewrite length_app, length_take; simpl; unfold len in *; lia).
  rewrite app_assoc, drop_app_length.
  apply index_Some in Hl as [_ Hl].
  rewrite <- (take_drop_middle (lines m) (Z.to_nat (cursorRow m)) line Hl) at 3.
  do 3 f_equal. lia.
Qed.

Lemma X10_witness :
  exists m1 m2,
    insertNewline (modelAt [str "SELECT 1"; str "FROM t"] 0 6) = Some m1
    /\ deleteBeforeCursor m1 = Some m2
    /\ lines m2 = [str "SELECT 1"; str "FROM t"]
    /\ cursorRow m2 = 0 /\ cursorCol m2 = 6.
Proof.
  evaluate (quiet (insertNewline (modelAt [str "SELECT 1"; str "FROM t"] 0 6))) m1 E.
  apply quiet_Some in E as [E _].
  destruct (X10_newline_then_backspace_restores
              (modelAt [str "SELECT 1"; str "FROM t"] 0 6) m1) as (m2 & Hm2).
  - exists (str "SELECT 1"). split; [reflexivity|]. vm_compute. split; discriminate.
  - exact E.
  - fields. reflexivity.
  - exists m1, m2. split; [exact E|]. exact Hm2.
Defined.

(** X11.  Left then Right, from any cursor position but the origin, and
    Right then Left, from any position but the end of the buffer, bring the
    cursor back; neither changes the lines. *)
Theorem X11_left_right_round_trip (m : PromptModel) (line : gostring) :
  currentLine m = Some line ->
  0 <= cursorCol m <= len line ->
  (0 < cursorCol m \/ 0 < cursorRow m ->
   exists m1 m2,
     moveCursorLeft m = Some m1 /\ moveCursorRight m1 = Some m2
     /\ (cursorRow m1 <> cursorRow m \/ cursorCol m1 <> cursorCol m)
     /\ lines m2 = lines m
     /\ cursorRow m2 = cursorRow m /\ cursorCol m2 = cursorCol m)
  /\ (cursorCol m < len line \/ cursorRow m < len (lines m) - 1 ->
      exists m1 m2,
        moveCursorRight m = Some m1 /\ moveCursorLeft m1 = Some m2
        /\ (cursorRow m1 <> cursorRow m \/ cursorCol m1 <> cursorCol m)
        /\ lines m2 = lines m
        /\ cursorRow m2 = cursorRow m /\ cursorCol m2 = cursorCol m).
Proof.
  intros Hl Hc. pose proof (currentLine_range _ _ Hl) as Hr.
  unfold currentLine in Hl. split; intros Hpos.
  - unfold moveCursorLeft. destruct (Z.ltb_spec 0 (cursorCol m)).
    + eexists _, _. split; [reflexivity|]. unfold moveCursorRight. simpl.
      rewrite Hl. simpl. destruct (Z.ltb_spec (cursorCol m - 1) (len line)); [|lia].
      split; [reflexivity|]. simpl. repeat split; lia.
    + destruct (Z.ltb_spec 0 (cursorRow m)); [|lia].
      destruct (index_in_range (lines m) (cursorRow m - 1)) as [prev Hp]; [lia|].
      simpl. rewrite Hp. simpl. eexists _, _. split; [reflexivity|].
      unfold moveCursorRight. simpl. rewrite Hp. simpl.
      destruct (Z.ltb_spec (len prev) (len prev)); [lia|].
      destruct (Z.ltb_spec (cursorRow m - 1) (len (lines m) - 1)); [|lia].
      split; [reflexivity|]. simpl. repeat split; lia.
  - unfold moveCursorRight. rewrite Hl. simpl.
    destruct (Z.ltb_spec (cursorCol m) (len line)).
    + eexists _, _. split; [reflexivity|]. unfold moveCursorLeft. simpl.
      destruct (Z.ltb_spec 0 (cursorCol m + 1)); [|lia].
      split; [reflexivity|]. simpl. repeat split; lia.
    + destruct (Z.ltb_spec (cursorRow m) (len (lines m) - 1)); [|lia].
      eexists _, _. split; [reflexivity|]. unfold moveCursorLeft. simpl.
      replace (cursorRow m + 1 - 1) with (cursorRow m) by lia. rewrite Hl. simpl.
      destruct (Z.ltb_spec 0 (cursorRow m + 1)); [|lia].
      split; [reflexivity|]. simpl. repeat split; lia.
Qed.

Lemma X11_witness :
  exists m1 m2,
    moveCursorLeft (modelAt [str "SELECT 1"; str "FROM t"] 1 0) = Some m1
    /\ moveCursorRight m1 = Some m2
    /\ (cursorRow m1 <> 1 \/ cursorCol m1 <> 0)
    /\ lines m2 = [str "SELECT 1"; str "FROM t"]
    /\ cursorRow m2 = 1 /\ cursorCol m2 = 0.
Proof.
  destruct (X11_left_right_round_trip (modelAt [str "SELECT 1"; str "FROM t"] 1 0)
              (str "FROM t")) as [H _].
  - reflexivity.
  - vm_compute. split; discriminate.
  - apply H. right. reflexivity.
Defined.

(** ** The submitted input *)

Lemma lastNonBlank_le ls n : (lastNonBlank ls n <= n)%nat.
Proof.
  induction n as [|k IH]; simpl; [lia|].
  destruct (ls !! k); [|lia]. destruct (bool_decide _); lia.
Qed.

Lemma lastNonBlank_app_l ls bs n :
  (n <= length ls)%nat -> lastNonBlank (ls ++ bs) n = lastNonBlank ls n.
Proof.
  induction n as [|k IH]; intros H; simpl; [reflexivity|].
  rewrite lookup_app_l by lia. rewrite IH by lia. reflexivity.
Qed.

Lemma lastNonBlank_app_blank ls bs j :
  Forall (fun l => TrimSpace l = []) bs -> (j <= length bs)%nat ->
  lastNonBlank (ls ++ bs) (length ls + j) = lastNonBlank ls (length ls).
Proof.
  intros Hb. induction j as [|j IH]; intros Hj.
  - rewrite Nat.add_0_r. apply lastNonBlank_app_l. lia.
  - rewrite Nat.add_succ_r. simpl.
    rewrite lookup_app_r by lia.
    replace (length ls + j - length ls)%nat with j by lia.
    destruct (lookup_lt_is_Some_2 bs j ltac:(lia)) as [b Eb]. rewrite Eb.
    rewrite (bool_decide_eq_true_2 _ (proj1 (Forall_lookup _ _) Hb j b Eb)).
    apply IH. lia.
Qed.

(** Blank lines at the end of the buffer are not part of the input. *)
Lemma joinNonEmptyLines_app_blank ls bs :
  Forall (fun l => TrimSpace l = []) bs ->
  joinNonEmptyLines (ls ++ bs) = joinNonEmptyLines ls.
Proof.
  intros Hb. unfold joinNonEmptyLines. cbv zeta.
  rewrite length_app, (lastNonBlank_app_blank ls bs (length bs) Hb) by lia.
  rewrite take_app_le by apply lastNonBlank_le. reflexivity.
Qed.

Lemma lastNonBlank_spec ls n :
  (n <= length ls)%nat ->
  Forall (fun l => TrimSpace l = []) (drop (lastNonBlank ls n) (take n ls))
  /\ (lastNonBlank ls n = O
      \/ exists k l, lastNonBlank ls n = S k /\ ls !! k = Some l /\ TrimSpace l <> []).
Proof.
  induction n as [|k IH]; intros H; simpl.
  - split; [constructor|]. left. reflexivity.
  - destruct (lookup_lt_is_Some_2 ls k ltac:(lia)) as [l El]. rewrite El.
    destruct (bool_decide (TrimSpace l = [])) eqn:Eb.
    + apply bool_decide_eq_true in Eb.
      destruct (IH ltac:(lia)) as [Hall Hk]. split; [|exact Hk].
      rewrite (take_S_r _ _ _ El).
      rewrite drop_app_le
        by (rewrite length_take; pose proof (lastNonBlank_le ls k); lia).
      apply Forall_app. split; [exact Hall|]. repeat constructor. exact Eb.
    + apply bool_decide_eq_false in Eb. split.
      * rewrite drop_ge by (rewrite length_take; lia). constructor.
      * right. exists k, l. auto.
Qed.

Lemma Join_length l elems sep :
  l ∈ elems -> (length l <= length (Join elems sep))%nat.
Proof.
  induction elems as [|a rest IH]; intros H; [inversion H|].
  destruct rest as [|b rest].
  - apply list_elem_of_singleton in H as ->. simpl. lia.
  - change (Join (a :: b :: rest) sep) with (a ++ sep ++ Join (b :: rest) sep).
    rewrite !length_app. apply elem_of_cons in H as [->|H]; [lia|].
    specialize (IH H). lia.
Qed.

Lemma TrimSpace_nil : TrimSpace [] = [].
Proof. reflexivity. Qed.

(** ** Recalling a submitted input *)

Lemma Join_Split s sep : Join (Split s sep) [sep] = s.
Proof.
  induction s as [|b s IH]; [reflexivity|]. simpl.
  destruct (bool_decide (b = sep)) eqn:Eb.
  - apply bool_decide_eq_true in Eb as ->.
    destruct (Split s sep) as [|p ps] eqn:E.
    + pose proof (Split_len s sep) as H. rewrite E in H. unfold len in H.
      simpl in H. lia.
    + change (Join ([] :: p :: ps) [sep]) with ([] ++ [sep] ++ Join (p :: ps) [sep]).
      rewrite IH. reflexivity.
  - destruct (Split s sep) as [|p ps] eqn:E.
    + pose proof (Split_len s sep) as H. rewrite E in H. unfold len in H.
      simpl in H. lia.
    + destruct ps as [|q ps].
      * simpl in *. congruence.
      * change (Join ((b :: p) :: q :: ps) [sep])
          with (b :: (p ++ [sep] ++ Join (q :: ps) [sep])).
        f_equal. exact IH.
Qed.

Lemma Split_no_sep a sep : sep ∉ a -> Split a sep = [a].
Proof.
  induction a as [|b a IH]; intros H; [reflexivity|]. simpl.
  apply not_elem_of_cons in H as [Hb Ha].
  rewrite bool_decide_eq_false_2 by congruence.
  rewrite (IH Ha). reflexivity.
Qed.

Lemma Split_app_sep a s sep :
  sep ∉ a -> Split (a ++ sep :: s) sep = a :: Split s sep.
Proof.
  induction a as [|b a IH]; intros H; simpl.
  - rewrite bool_decide_eq_true_2 by reflexivity. reflexivity.
  - apply not_elem_of_cons in H as [Hb Ha].
    rewrite bool_decide_eq_false_2 by congruence.
    rewrite (IH Ha). reflexivity.
Qed.

Lemma Split_Join ls sep :
  ls <> [] -> Forall (fun l => sep ∉ l) ls -> Split (Join ls [sep]) sep = ls.
Proof.
  induction ls as [|a rest IH]; intros Hne Hall; [congruence|].
  apply Forall_cons in Hall as [Ha Hrest].
  destruct rest as [|b rest].
  - simpl. apply Split_no_sep. exact Ha.
  - change (Join (a :: b :: rest) [sep]) with (a ++ sep :: Join (b :: rest) [sep]).
    rewrite Split_app_sep by exact Ha. f_equal. apply IH; [discriminate|exact Hrest].
Qed.

(** X12.  The input handed to the completeness test and to the executor is
    empty exactly when every line of the buffer is blank, and blank lines
    at the end of the buffer never change it. *)
Theorem X12_input_ignores_trailing_blank_lines (ls : list gostring) :
  (joinNonEmptyLines ls = [] <-> Forall (fun l => TrimSpace l = []) ls)
  /\ (forall bs, Forall (fun l => TrimSpace l = []) bs ->
        joinNonEmptyLines (ls ++ bs) = joinNonEmptyLines ls).
Proof.
  split; [split|].
  - intros H. unfold joinNonEmptyLines in H. cbv zeta in H.
    destruct (lastNonBlank_spec ls (length ls) ltac:(lia)) as [Hall Hk].
    rewrite take_ge in Hall by lia.
    destruct Hk as [Hk|(k & l & Hk & El & Hl)].
    + rewrite Hk in Hall. exact Hall.
    + exfalso. rewrite Hk in H.
      assert (Hin : l ∈ take (S k) ls).
      { apply list_elem_of_lookup. exists k. rewrite lookup_take_lt by lia. exact El. }
      pose proof (Join_length l _ [newline] Hin) as Hlen. rewrite H in Hlen.
      destruct l; [apply Hl; reflexivity|simpl in Hlen; lia].
  - intros H. apply (joinNonEmptyLines_app_blank [] ls H).
  - intros bs. apply joinNonEmptyLines_app_blank.
Qed.

(** X13.  [cleanupExtraBlankLines] only drops blank lines from the end of
    the buffer: it keeps a line of a buffer that has one, stops with at
    most one blank line at the end, and leaves the input unchanged. *)
Theorem X13_cleanup_drops_only_trailing_blank_lines (m : PromptModel) :
  exists k,
    lines (cleanupExtraBlankLines m) = take k (lines m)
    /\ Forall (fun l => TrimSpace l = []) (drop k (lines m))
    /\ (lines m = [] \/ lines (cleanupExtraBlankLines m) <> [])
    /\ lastTwoBlank (lines (cleanupExtraBlankLines m)) = false
    /\ getCurrentInput (cleanupExtraBlankLines m) = getCurrentInput m.
Proof.
  destruct (cleanupLoop_prefix (length (lines m)) (lines m)) as (k & Hk & Hle & Hall).
  exists k. simpl. split; [exact Hk|]. split; [exact Hall|]. split; [|split].
  - destruct (lines m) as [|l ls] eqn:E; [left; reflexivity|right].
    pose proof (cleanupLoop_len (length (l :: ls)) (l :: ls)) as H.
    intros H0. rewrite H0 in H. unfold len in H. simpl in H. lia.
  - apply cleanupLoop_stops. lia.
  - unfold getCurrentInput. simpl. rewrite Hk.
    rewrite <- (take_drop k (lines m)) at 2.
    symmetry. apply joinNonEmptyLines_app_blank. exact Hall.
Qed.

Lemma insertNewline_lines m line :
  currentLine m = Some line -> 0 <= cursorCol m <= len line ->
  exists m1,
    insertNewline m = Some m1
    /\ cursorCol m1 = 0
    /\ lines m1 =
       (let newLines := take (Z.to_nat (cursorRow m)) (lines m)
                        ++ [take (Z.to_nat (cursorCol m)) line;
                            drop (Z.to_nat (cursorCol m)) line]
                        ++ drop (Z.to_nat (cursorRow m + 1)) (lines m) in
        cleanupLoop (length newLines) newLines).
Proof.
  intros Hl Hc. rewrite (insertNewline_split m line Hl Hc). cbv zeta.
  set (newLines := take (Z.to_nat (cursorRow m)) (lines m)
                   ++ [take (Z.to_nat (cursorCol m)) line;
                       drop (Z.to_nat (cursorCol m)) line]
                   ++ drop (Z.to_nat (cursorRow m + 1)) (lines m)).
  assert (HnewLen : 1 <= len newLines).
  { unfold newLines, len. rewrite !length_app. simpl. lia. }
  pose proof (cleanupLoop_len (length newLines) newLines HnewLen) as Hcl.
  simpl.
  destruct (_ && _); [eexists; split; [reflexivity|]; simpl; auto|].
  destruct (Z.eqb_spec (len (cleanupLoop (length newLines) newLines)) 0); [lia|].
  eexists; split; [reflexivity|]; simpl; auto.
Qed.

(** X14.  A newline inserted by Enter never leaves two blank lines at the
    end of the buffer and adds at most one line; at the end of the buffer
    it does not change the input. *)
Theorem X14_newline_keeps_one_trailing_blank_line (m : PromptModel) (line : gostring) :
  currentLine m = Some line ->
  0 <= cursorCol m <= len line ->
  exists m1,
    insertNewline m = Some m1
    /\ lastTwoBlank (lines m1) = false
    /\ 1 <= len (lines m1) <= len (lines m) + 1
    /\ cursorCol m1 = 0
    /\ (cursorRow m = len (lines m) - 1 /\ cursorCol m = len line ->
        getCurrentInput m1 = getCurrentInput m).
Proof.
  intros Hl Hc. pose proof (currentLine_range _ _ Hl) as Hr.
  destruct (insertNewline_lines m line Hl Hc) as (m1 & E & Hcol & Hlines).
  cbv zeta in Hlines.
  set (newLines := take (Z.to_nat (cursorRow m)) (lines m)
                   ++ [take (Z.to_nat (cursorCol m)) line;
                       drop (Z.to_nat (cursorCol m)) line]
                   ++ drop (Z.to_nat (cursorRow m + 1)) (lines m)) in *.
  assert (HnewLen : len newLines = len (lines m) + 1).
  { unfold newLines, len in *. rewrite !length_app, length_take, length_drop.
    simpl. lia. }
  exists m1. split; [exact E|]. rewrite Hlines.
  split; [apply cleanupLoop_stops; lia|].
  split; [pose proof (cleanupLoop_len (length newLines) newLines); lia|].
  split; [exact Hcol|].
  intros [Hrow Hend]. unfold getCurrentInput. rewrite Hlines.
  destruct (cleanupLoop_prefix (length newLines) newLines) as (k & Hk & Hle & Hall).
  rewrite Hk.
  transitivity (joinNonEmptyLines newLines).
  { rewrite <- (take_drop k newLines) at 2.
    symmetry. apply joinNonEmptyLines_app_blank. exact Hall. }
  assert (Hnew : newLines = lines m ++ [[]]).
  { unfold newLines. apply index_Some in Hl as [_ Hl].
    rewrite (drop_ge (lines m)) by (unfold len in *; lia).
    rewrite Hend. unfold len. rewrite Nat2Z.id.
    rewrite (take_ge line), (drop_ge line) by lia.
    rewrite <- (take_drop_middle (lines m) (Z.to_nat (cursorRow m)) line Hl) at 2.
    rewrite (drop_ge (lines m)) by (unfold len in *; lia).
    rewrite app_nil_r. rewrite <- app_assoc. reflexivity. }
  rewrite Hnew. apply joinNonEmptyLines_app_blank. repeat constructor.
Qed.

Lemma X14_witness :
  exists m1,
    insertNewline (modelAt [str "SELECT 1"; str ""] 1 0) = Some m1
    /\ lastTwoBlank (lines m1) = false
    /\ 1 <= len (lines m1) <= 3
    /\ cursorCol m1 = 0
    /\ getCurrentInput m1 = str "SELECT 1".
Proof.
  destruct (X14_newline_keeps_one_trailing_blank_line
              (modelAt [str "SELECT 1"; str ""] 1 0) (str ""))
    as (m1 & E & H1 & H2 & H3 & H4).
  - reflexivity.
  - vm_compute. split; discriminate.
  - exists m1. split; [exact E|]. split; [exact H1|]. split; [exact H2|].
    split; [exact H3|]. rewrite H4; [reflexivity|]. split; reflexivity.
Defined.

(** X15.  An input that was submitted and recorded is what the Up key brings
    back: the recalled lines join to the submitted text, the cursor is at
    the end of the last of them, and when no line of the buffer held a
    newline byte they are the submitted lines themselves. *)
Theorem X15_up_recalls_submitted_input (m m1 : PromptModel) (calls : list Call) :
  submits m ->
  TrimSpace (getCurrentInput m) <> [] ->
  handleEnter m = Some (m1, calls) ->
  exists m2 last,
    handleUpArrow m1 = Some m2
    /\ Join (lines m2) [newline] = getCurrentInput m
    /\ cursorRow m2 = len (lines m2) - 1
    /\ index (lines m2) (cursorRow m2) = Some last
    /\ cursorCol m2 = len last
    /\ historyIndex m2 = len (history m)
    /\ (Forall (fun l => newline ∉ l) (lines m) ->
        lines m2 = take (lastNonBlank (lines m) (length (lines m))) (lines m)).
Proof.
  intros (p & Hp & Hc & Hne) Hnb E.
  rewrite (handleEnter_submits m p Hp Hc Hne) in E. cbv zeta in E.
  rewrite (bool_decide_eq_false_2 _ Hnb) in E. simpl in E.
  set (input := getCurrentInput m) in *.
  assert (E1 : m1 = clearAutocomplete
            (with_historyIndex (-1)
               (with_cursorCol 0 (with_cursorRow 0 (with_lines [[]]
                  (with_history (history m ++ [input])
                     (with_lastOutput
                        match ExecuteFn (config m) with
                        | Some f => executingOutput (f input)
                        | None => noExecuteFnOutput
                        end m))))))).
  { destruct (ExecuteFn (config m)); injection E as <- _; reflexivity. }
  clear E. subst m1.
  pose proof (Split_len input newline) as Hsl.
  destruct (index_in_range (Split input newline) (len (Split input newline) - 1))
    as [last Hlast]; [lia|].
  assert (Hidx : index (history m ++ [input]) (len (history m)) = Some input).
  { apply index_Some. split; [apply len_nonneg|]. unfold len.
    rewrite Nat2Z.id. apply list_lookup_middle. reflexivity. }
  pose proof (len_nonneg (history m)) as Hh.
  eexists _, last.
  split.
  { unfold handleUpArrow, navigateHistoryUp, loadHistoryEntry. simpl.
    rewrite len_app. change (len [input]) with 1.
    destruct (Z.eqb_spec (len (history m) + 1) 0); [lia|]. simpl.
    replace (len (history m) + 1 - 1) with (len (history m)) by lia.
    destruct (Z.leb_spec 0 (len (history m))); [|lia].
    destruct (Z.ltb_spec (len (history m)) (len (history m) + 1)); [|lia]. simpl.
    rewrite Hidx. simpl.
    destruct (Z.ltb_spec (len (Split input newline) - 1) 0); [lia|]. simpl.
    destruct (Z.ltb_spec 0 (len (Split input newline))); [|lia].
    simpl. rewrite Hlast. reflexivity. }
  simpl. split; [apply Join_Split|]. split; [reflexivity|].
  split; [exact Hlast|]. split; [reflexivity|]. split; [reflexivity|].
  intros Hall. unfold input, getCurrentInput, joinNonEmptyLines. cbv zeta.
  apply Split_Join.
  - intros H0. apply Hnb. unfold input, getCurrentInput, joinNonEmptyLines.
    cbv zeta. rewrite H0. reflexivity.
  - apply Forall_take. exact Hall.
Qed.

Lemma X15_witness :
  exists m1 m2,
    handleEnter (modelAt [str "SELECT 1"; str "FROM t;"; str ""] 2 0)
      = Some (m1, [CallExecute (str "SELECT 1" ++ [newline] ++ str "FROM t;")])
    /\ handleUpArrow m1 = Some m2
    /\ lines m2 = [str "SELECT 1"; str "FROM t;"]
    /\ cursorRow m2 = 1 /\ cursorCol m2 = 7.
Proof.
  evaluate (handleEnter (modelAt [str "SELECT 1"; str "FROM t;"; str ""] 2 0)) m1 E.
  destruct (X15_up_recalls_submitted_input
              (modelAt [str "SELECT 1"; str "FROM t;"; str ""] 2 0) m1
              [CallExecute (str "SELECT 1" ++ [newline] ++ str "FROM t;")])
    as (m2 & last & E2 & _ & Hrow & Hlast & Hcol & _ & Hlines).
  - exists DefaultIsComplete. split; [reflexivity|]. split; [reflexivity|].
    vm_compute. discriminate.
  - vm_compute. discriminate.
  - exact E.
  - assert (L : lines m2 = [str "SELECT 1"; str "FROM t;"]).
    { rewrite Hlines; [reflexivity|]. repeat constructor; vm_compute;
        intros Hin; repeat (apply elem_of_cons in Hin as [Hin|Hin]; [discriminate|]);
        inversion Hin. }
    exists m1, m2. split; [exact E|]. split; [exact E2|]. split; [exact L|].
    rewrite L in Hrow, Hlast. rewrite Hrow in Hlast. split; [exact Hrow|].
    rewrite Hcol. vm_compute in Hlast. injection Hlast as <-. reflexivity.
Defined.

(** X16.  Browsing the history does not keep the draft: from a buffer that is
    not browsing, Up loads the newest entry and the Down that follows
    leaves an empty buffer, whatever was typed before. *)
Theorem X16_history_up_down_discards_draft (m : PromptModel) :
  showPopup m = false ->
  cursorRow m = 0 ->
  historyIndex m = -1 ->
  history m <> [] ->
  exists m1 m2 entry,
    handleUpArrow m = Some m1
    /\ index (history m) (len (history m) - 1) = Some entry
    /\ lines m1 = Split entry newline
    /\ historyIndex m1 = len (history m) - 1
    /\ handleDownArrow m1 = Some m2
    /\ lines m2 = [[]] /\ cursorRow m2 = 0 /\ cursorCol m2 = 0
    /\ historyIndex m2 = -1
    /\ history m2 = history m.
Proof.
  intros Hp Hr Hi Hh.
  assert (Hlen : 1 <= len (history m)).
  { destruct (history m); [congruence|]. unfold len. simpl. lia. }
  destruct (index_in_range (history m) (len (history m) - 1)) as [entry He]; [lia|].
  pose proof (Split_len entry newline) as Hsl.
  destruct (index_in_range (Split entry newline) (len (Split entry newline) - 1))
    as [last Hlast]; [lia|].
  assert (E1 : handleUpArrow m = Some (clearAutocomplete
            (with_cursorCol (len last)
               (with_cursorRow (len (Split entry newline) - 1)
                  (with_lines (Split entry newline)
                     (with_historyIndex (len (history m) - 1) m)))))).
  { unfold handleUpArrow, navigateHistoryUp, loadHistoryEntry.
    rewrite Hp, Hr, Hi. simpl.
    destruct (Z.eqb_spec (len (history m)) 0); [lia|]. simpl.
    destruct (Z.leb_spec 0 (len (history m) - 1)); [|lia].
    destruct (Z.ltb_spec (len (history m) - 1) (len (history m))); [|lia]. simpl.
    rewrite He. simpl.
    destruct (Z.ltb_spec (len (Split entry newline) - 1) 0); [lia|]. simpl.
    destruct (Z.ltb_spec 0 (len (Split entry newline))); [|lia].
    simpl. rewrite Hlast. reflexivity. }
  eexists _, _, entry. split; [exact E1|]. split; [exact He|].
  split; [reflexivity|]. split; [reflexivity|].
  split.
  { unfold handleDownArrow, navigateHistoryDown. simpl.
    destruct (Z.eqb_spec (len (history m) - 1) (-1)); [lia|]. simpl.
    destruct (Z.ltb_spec (len (history m) - 1) (len (history m) - 1)); [lia|].
    reflexivity. }
  simpl. repeat split.
Qed.

Lemma X16_witness :
  exists m1 m2,
    handleUpArrow
      (with_history [str "SELECT 1;"] (modelAt [str "draft"] 0 5)) = Some m1
    /\ lines m1 = [str "SELECT 1;"]
    /\ handleDownArrow m1 = Some m2
    /\ lines m2 = [[]].
Proof.
  destruct (X16_history_up_down_discards_draft
              (with_history [str "SELECT 1;"] (modelAt [str "draft"] 0 5)))
    as (m1 & m2 & entry & E1 & He & L1 & _ & E2 & L2 & _).
  - reflexivity.
  - reflexivity.
  - reflexivity.
  - discriminate.
  - exists m1, m2. split; [exact E1|]. vm_compute in He. injection He as <-.
    split; [exact L1|]. split; [exact E2|exact L2].
Defined.

(** ** Suggestions *)

Lemma currentWordFragment_ext f m' m :
  lines m' = lines m -> cursorRow m' = cursorRow m -> cursorCol m' = cursorCol m ->
  currentWordFragment f m' = currentWordFragment f m.
Proof. intros L R C. unfold currentWordFragment. rewrite L, R, C. reflexivity. Qed.

Lemma mustClear_ext f word m' m :
  lines m' = lines m -> cursorRow m' = cursorRow m -> cursorCol m' = cursorCol m ->
  mustClear f word m' = mustClear f word m.
Proof. intros L R C. unfold mustClear. rewrite L, R, C. reflexivity. Qed.

Lemma getTextBeforeCursor_ext m' m :
  lines m' = lines m -> cursorRow m' = cursorRow m -> cursorCol m' = cursorCol m ->
  getTextBeforeCursor m' = getTextBeforeCursor m.
Proof. intros L R C. unfold getTextBeforeCursor. rewrite L, R, C. reflexivity. Qed.

(** X17.  The suggestions are up to date after [updateAutocomplete]: a second
    update with no edit in between changes nothing and does not call the
    provider again. *)
Theorem X17_update_twice_calls_provider_once (m m1 : PromptModel) (calls : list Call) :
  updateAutocomplete m = Some (m1, calls) ->
  updateAutocomplete m1 = Some (m1, []).
Proof.
  unfold updateAutocomplete at 1. intros H.
  destruct (currentWordFragment (IsWordCharFn (config m)) m) as [word|] eqn:Ew;
    simpl in H; [|discriminate].
  destruct (mustClear (IsWordCharFn (config m)) word m) as [clear|] eqn:Ec;
    simpl in H; [|discriminate].
  assert (T : forall m', lines m' = lines m -> cursorRow m' = cursorRow m ->
            cursorCol m' = cursorCol m -> config m' = config m ->
            updateAutocomplete m' =
              (if clear then Some (clearAutocomplete m', []) else
               if negb (bool_decide (word = lastSuggestedWord m')) then
                 let m2 := with_selectedSuggestionIndex 0 m' in
                 let m2 := with_popupScrollOffset 0 m2 in
                 '(items, calls) ←
                   match AutoCompleteFn (config m2) with
                   | Some f =>
                     textBefore ← getTextBeforeCursor m2;
                     Some (f textBefore word, [CallAutoComplete textBefore word])
                   | None => Some ([], [])
                   end;
                 let m2 := with_suggestions items m2 in
                 let m2 := with_showPopup (0 <? len (suggestions m2)) m2 in
                 Some (with_lastSuggestedWord word m2, calls)
               else if len (suggestions m') =? 0 then Some (with_showPopup false m', [])
               else Some (m', []))).
  { intros m' L R C F. unfold updateAutocomplete. rewrite F.
    rewrite (currentWordFragment_ext _ m' m L R C), Ew. simpl.
    rewrite (mustClear_ext _ word m' m L R C), Ec. reflexivity. }
  destruct clear.
  { injection H as <- <-. rewrite T by reflexivity. reflexivity. }
  destruct (bool_decide (word = lastSuggestedWord m)) eqn:Eb; simpl in H.
  - destruct (len (suggestions m) =? 0) eqn:El; injection H as <- <-;
      rewrite T by reflexivity; simpl; rewrite Eb; simpl; rewrite El; reflexivity.
  - assert (H' : exists items,
        m1 = with_lastSuggestedWord word
               (with_showPopup (0 <? len items)
                  (with_suggestions items
                     (with_popupScrollOffset 0 (with_selectedSuggestionIndex 0 m))))).
    { destruct (AutoCompleteFn (config m)) as [f|]; simpl in H.
      - destruct (getTextBeforeCursor _) as [text|]; simpl in H; [|discriminate].
        injection H as <- _. eexists. reflexivity.
      - injection H as <- _. eexists. reflexivity. }
    destruct H' as (items & ->). rewrite T by reflexivity. simpl.
    rewrite bool_decide_eq_true_2 by reflexivity. simpl.
    pose proof (len_nonneg items).
    destruct (Z.eqb_spec (len items) 0) as [E0|E0]; [|reflexivity].
    destruct (Z.ltb_spec 0 (len items)); [lia|reflexivity].
Qed.

Lemma X17_witness :
  exists m1 text,
    updateAutocomplete (modelAt [str "SELECT F x"] 0 8)
      = Some (m1, [CallAutoComplete text (str "F")])
    /\ updateAutocomplete m1 = Some (m1, []).
Proof.
  destruct (updateAutocomplete (modelAt [str "SELECT F x"] 0 8))
    as [[m1 calls]|] eqn:E.
  - pose proof (X17_update_twice_calls_provider_once _ _ _ E) as H.
    assert (Hc : calls = [CallAutoComplete (str "SELECT F") (str "F")]).
    { apply (f_equal (fun r => snd <$> r)) in E. vm_compute in E.
      injection E as <-. reflexivity. }
    exists m1, (str "SELECT F"). rewrite <- Hc. split; [reflexivity|exact H].
  - apply (f_equal (fun r => (fun _ => tt) <$> r)) in E. vm_compute in E.
    discriminate E.
Defined.

(** X18.  In the suggestion list Down then Up, and Up then Down, come back to
    the suggestion that was selected, also across the wrap from the last
    suggestion to the first. *)
Theorem X18_down_up_restores_selection (m : PromptModel) :
  0 <= selectedSuggestionIndex m < len (suggestions m) ->
  selectedSuggestionIndex (navigateAutocompleteUp (navigateAutocompleteDown m))
    = selectedSuggestionIndex m
  /\ selectedSuggestionIndex (navigateAutocompleteDown (navigateAutocompleteUp m))
    = selectedSuggestionIndex m.
Proof.
  intros H. unfold navigateAutocompleteUp, navigateAutocompleteDown.
  destruct (showPopup m) eqn:Ep; simpl; [|rewrite Ep; simpl; auto].
  destruct (Z.ltb_spec 0 (len (suggestions m))); [|lia]. simpl. split.
  - destruct (Z.leb_spec (len (suggestions m)) (selectedSuggestionIndex m + 1)); simpl.
    + rewrite Ep. simpl. destruct (Z.ltb_spec 0 (len (suggestions m))); [|lia]. simpl.
      lia.
    + destruct (_ <=? _); simpl; rewrite Ep; simpl;
        (destruct (Z.ltb_spec 0 (len (suggestions m))); [|lia]); simpl;
        (destruct (Z.ltb_spec (selectedSuggestionIndex m + 1 - 1) 0); [lia|]);
        simpl; destruct (_ <? _); simpl; lia.
  - destruct (Z.ltb_spec (selectedSuggestionIndex m - 1) 0); simpl.
    + rewrite Ep. simpl. destruct (Z.ltb_spec 0 (len (suggestions m))); [|lia]. simpl.
      destruct (Z.leb_spec (len (suggestions m)) (len (suggestions m) - 1 + 1));
        [|lia]. simpl. lia.
    + destruct (_ <? _); simpl; rewrite Ep; simpl;
        (destruct (Z.ltb_spec 0 (len (suggestions m))); [|lia]); simpl;
        (destruct (Z.leb_spec (len (suggestions m)) (selectedSuggestionIndex m - 1 + 1));
          [lia|]); simpl; destruct (_ <=? _); simpl; lia.
Qed.

Lemma X18_witness :
  selectedSuggestionIndex (navigateAutocompleteUp (navigateAutocompleteDown popupModel))
    = selectedSuggestionIndex popupModel
  /\ selectedSuggestionIndex (navigateAutocompleteDown (navigateAutocompleteUp popupModel))
    = selectedSuggestionIndex popupModel.
Proof.
  apply (X18_down_up_restores_selection popupModel). vm_compute.
  split; [discriminate|reflexivity].
Defined.

(** ** ASCII text: bytes and codepoints coincide *)

Lemma byteZ_range b : 0 <= byteZ b < 256.
Proof.
  destruct b; vm_compute; split; (discriminate || reflexivity).
Qed.

Lemma zbyte_byteZ b : zbyte (byteZ b) = b.
Proof.
  unfold zbyte. rewrite Z.mod_small by apply byteZ_range.
  unfold byteZ. rewrite N2Z.id, Byte.of_to_N. reflexivity.
Qed.

Lemma encoderune_byte b : byteZ b < runeSelf -> encoderune (byteZ b) = [b].
Proof.
  intros H. pose proof (byteZ_range b). unfold runeSelf in H.
  unfold encoderune, uint32. rewrite Z.mod_small by lia.
  destruct (Z.leb_spec (byteZ b) rune1Max); [|unfold rune1Max in *; lia].
  rewrite zbyte_byteZ. reflexivity.
Qed.

Lemma runesToString_bytes s :
  Forall (fun b => byteZ b < runeSelf) s -> runesToString (map byteZ s) = s.
Proof.
  unfold runesToString. induction 1 as [|b s Hb _ IH]; simpl; [reflexivity|].
  rewrite encoderune_byte by exact Hb. simpl. congruence.
Qed.

Lemma rangeRunes_bytes fuel s :
  (length s <= fuel)%nat ->
  Forall (fun b => byteZ b < runeSelf) s -> rangeRunes fuel s = map byteZ s.
Proof.
  revert s. induction fuel as [|fuel IH]; intros s Hf Hs.
  - destruct s; [reflexivity|simpl in Hf; lia].
  - destruct s as [|b s]; [reflexivity|].
    apply Forall_cons in Hs as [Hb Hs]. cbn [rangeRunes rangeStep].
    destruct (Z.ltb_spec (byteZ b) runeSelf); [|lia].
    simpl. f_equal. apply IH; [simpl in Hf; lia|exact Hs].
Qed.

Lemma stringToRunes_bytes s :
  Forall (fun b => byteZ b < runeSelf) s -> stringToRunes s = map byteZ s.
Proof. intros H. apply rangeRunes_bytes; [lia|exact H]. Qed.

Lemma codepointLength_bytes s :
  Forall (fun b => byteZ b < runeSelf) s -> codepointLength s = len s.
Proof.
  intros H. unfold codepointLength. rewrite stringToRunes_bytes by exact H.
  unfold len. rewrite length_map. reflexivity.
Qed.

(** X19.  On a line of ASCII bytes Backspace inside the line removes the
    codepoint before the cursor: the line's runes lose the one at column
    [cursorCol - 1] and the cursor moves one column left. *)
Theorem X19_ascii_backspace_removes_one_codepoint (m : PromptModel) (line : gostring) :
  currentLine m = Some line ->
  0 < cursorCol m <= len line ->
  Forall (fun b => byteZ b < runeSelf) line ->
  exists m' line',
    deleteBeforeCursor m = Some m'
    /\ currentLine m' = Some line'
    /\ stringToRunes line' =
       take (Z.to_nat (cursorCol m - 1)) (stringToRunes line)
       ++ drop (Z.to_nat (cursorCol m)) (stringToRunes line)
    /\ codepointLength line' = codepointLength line - 1
    /\ cursorRow m' = cursorRow m
    /\ cursorCol m' = cursorCol m - 1.
Proof.
  intros Hl Hc Ha. pose proof (currentLine_range _ _ Hl) as Hr.
  rewrite (deleteBeforeCursor_in_line m line Hl Hc).
  eexists _, _. split; [reflexivity|]. unfold currentLine. simpl.
  split; [apply index_insert_same; exact Hr|].
  assert (Ha' : Forall (fun b => byteZ b < runeSelf)
                  (take (Z.to_nat (cursorCol m - 1)) line
                   ++ drop (Z.to_nat (cursorCol m)) line)).
  { apply Forall_app. split; [apply Forall_take|apply Forall_drop]; exact Ha. }
  split; [|split; [|split; reflexivity]].
  - rewrite (stringToRunes_bytes _ Ha'), (stringToRunes_bytes _ Ha).
    rewrite map_app, <- firstn_map, <- skipn_map. reflexivity.
  - rewrite (codepointLength_bytes _ Ha'), (codepointLength_bytes _ Ha).
    unfold len in *. rewrite length_app, length_take, length_drop. lia.
Qed.

Lemma X19_witness :
  exists m' line',
    deleteBeforeCursor (modelAt [str "SELECT"] 0 3) = Some m'
    /\ currentLine m' = Some line'
    /\ stringToRunes line' = runesOf "SEECT"
    /\ cursorCol m' = 2.
Proof.
  destruct (X19_ascii_backspace_removes_one_codepoint
              (modelAt [str "SELECT"] 0 3) (str "SELECT"))
    as (m' & line' & E & Hl & Hr & _ & _ & Hc).
  - reflexivity.
  - vm_compute. split; [reflexivity|discriminate].
  - repeat constructor.
  - exists m', line'. split; [exact E|]. split; [exact Hl|].
    split; [exact Hr|exact Hc].
Defined.

(** X20.  On a line of ASCII bytes, applying an ASCII suggestion replaces
    the bytes of the fragment by the suggestion and leaves the cursor at
    the end of the inserted text, counted in bytes and in codepoints. *)
Theorem X20_ascii_suggestion_cursor_after_text
    (f : IsWordCharFunc) (m : PromptModel) (line : gostring) (s : Suggestion) :
  showPopup m = true ->
  index (suggestions m) (selectedSuggestionIndex m) = Some s ->
  IsWordCharFn (config m) = Some f ->
  currentLine m = Some line ->
  0 <= cursorCol m <= len line ->
  Forall (fun b => byteZ b < runeSelf) line ->
  Forall (fun b => byteZ b < runeSelf) (Text s) ->
  exists m' start,
    applyAutocomplete m = Some m'
    /\ 0 <= start <= cursorCol m
    /\ currentWordFragment (Some f) m
       = Some (drop (Z.to_nat start) (take (Z.to_nat (cursorCol m)) line))
    /\ currentLine m'
       = Some (take (Z.to_nat start) line ++ Text s
               ++ drop (Z.to_nat (cursorCol m)) line)
    /\ cursorRow m' = cursorRow m
    /\ cursorCol m' = len (take (Z.to_nat start) line ++ Text s)
    /\ cursorCol m' = codepointLength (take (Z.to_nat start) line ++ Text s).
Proof.
  intros Hp Hs Hf Hl Hc Ha Hs'.
  pose proof (currentLine_range _ _ Hl) as Hr.
  pose proof (codepointLength_bytes _ Ha) as Hcp.
  destruct (apply_replaces_fragment f m line s Hp Hs Hf Hl ltac:(lia)) as [Hsplit E].
  cbv zeta in Hsplit, E.
  rewrite (stringToRunes_bytes _ Ha) in Hsplit, E.
  set (fragment := trailingRun f (take (Z.to_nat (cursorCol m)) (map byteZ line))) in *.
  assert (Hfl : 0 <= len fragment <= cursorCol m).
  { apply (f_equal (@length _)) in Hsplit.
    rewrite !length_app, length_take, length_drop, length_map in Hsplit.
    unfold len in *. split; [lia|].
    pose proof (trailingRun_suffix f (take (Z.to_nat (cursorCol m)) (map byteZ line)))
      as (pre & Hpre).
    apply (f_equal (@length _)) in Hpre.
    rewrite length_app, length_take, length_map in Hpre.
    fold fragment in Hpre. lia. }
  set (start := cursorCol m - len fragment) in *.
  rewrite firstn_map, skipn_map in E.
  rewrite !runesToString_bytes in E
    by (apply Forall_take || apply Forall_drop; exact Ha).
  eexists _, start. split; [exact E|]. split; [lia|].
  assert (Hfrag : fragment
                  = map byteZ (drop (Z.to_nat start) (take (Z.to_nat (cursorCol m)) line))).
  { pose proof (trailingRun_suffix f (take (Z.to_nat (cursorCol m)) (map byteZ line)))
      as (pre & Hpre). fold fragment in Hpre.
    rewrite <- skipn_map, <- firstn_map, Hpre.
    assert (Hlen : length pre = Z.to_nat start).
    { apply (f_equal (@length _)) in Hpre.
      rewrite length_app, length_take, length_map in Hpre.
      unfold start, len in *. lia. }
    rewrite <- Hlen, drop_app_length. reflexivity. }
  split; [|split; [|split; [|split]]].
  - destruct (Z.eq_dec (cursorCol m) 0) as [E0|E0].
    + rewrite (fragment_outside f m line Hl) by lia.
      rewrite E0. change (Z.to_nat 0) with 0%nat. rewrite take_0, drop_nil.
      reflexivity.
    + rewrite (fragment_is_trailing_run f m line Hl) by lia.
      rewrite (stringToRunes_bytes _ Ha). fold fragment. rewrite Hfrag.
      rewrite runesToString_bytes; [reflexivity|].
      apply Forall_drop, Forall_take. exact Ha.
  - unfold currentLine. simpl. apply index_insert_same. exact Hr.
  - reflexivity.
  - simpl. rewrite len_app, len_take by lia. reflexivity.
  - simpl. rewrite codepointLength_bytes.
    + rewrite len_app, len_take by lia. reflexivity.
    + apply Forall_app. split; [apply Forall_take; exact Ha|exact Hs'].
Qed.

Lemma X20_witness :
  exists m',
    applyAutocomplete popupModel = Some m'
    /\ currentLine m' = Some (str "FROM")
    /\ cursorCol m' = 4
    /\ codepointLength (str "FROM") = 4.
Proof.
  destruct (X20_ascii_suggestion_cursor_after_text asciiWordChar popupModel (str "F")
              {| Text := str "FROM"; Description := [] |})
    as (m' & start & E & Hs & Hfr & Hl & _ & Hc & Hcp).
  - reflexivity.
  - reflexivity.
  - reflexivity.
  - reflexivity.
  - vm_compute. split; discriminate.
  - repeat constructor.
  - repeat constructor.
  - assert (H0 : start = 0).
    { destruct (Z.eq_dec start 0) as [?|Hn]; [assumption|exfalso].
      assert (start = 1) by (change (cursorCol popupModel) with 1 in Hs; lia).
      subst start. vm_compute in Hfr. discriminate Hfr. }
    subst start. exists m'. split; [exact E|]. split; [exact Hl|].
    split; [exact Hc|reflexivity].
Defined.

(** ** Sessions of printable ASCII *)

Lemma byteZ_zbyte z : 0 <= z < 256 -> byteZ (zbyte z) = z.
Proof.
  intros H. unfold zbyte. rewrite Z.mod_small by exact H.
  destruct (Byte.of_N (Z.to_N z)) as [b|] eqn:E.
  - apply Byte.to_of_N in E. unfold byteZ. rewrite E. lia.
  - apply Byte.of_N_None_iff in E. lia.
Qed.

Lemma plainText_ascii s : plainText s -> Forall (fun b => byteZ b < runeSelf) s.
Proof. intros H. eapply Forall_impl; [exact H|]. intros b [_ Hb]. exact Hb. Qed.

Lemma plainText_app a b : plainText a -> plainText b -> plainText (a ++ b).
Proof. apply Forall_app_2. Qed.

Lemma plainText_nil : plainText [].
Proof. constructor. Qed.

Lemma runesToString_plain rs :
  Forall (fun r => r < runeSelf) rs ->
  plainText (runesToString (List.filter (fun r => 0x20 <=? r) rs)).
Proof.
  unfold runesToString. induction 1 as [|r rs Hr _ IH]; simpl; [constructor|].
  destruct (Z.leb_spec 0x20 r); [|exact IH]. simpl.
  apply plainText_app; [|exact IH].
  unfold runeSelf in Hr. unfold encoderune, uint32. rewrite Z.mod_small by lia.
  destruct (Z.leb_spec r rune1Max); [|unfold rune1Max in *; lia].
  repeat constructor; unfold printable, runeSelf; rewrite byteZ_zbyte; lia.
Qed.

Lemma plainText_runes line :
  plainText line ->
  stringToRunes line = map byteZ line.
Proof. intros H. apply stringToRunes_bytes, plainText_ascii, H. Qed.

Lemma index_plain (ls : list gostring) i l :
  index ls i = Some l -> Forall plainText ls -> plainText l.
Proof.
  intros [_ H]%index_Some Hall. exact (proj1 (Forall_lookup _ _) Hall _ _ H).
Qed.

Lemma slice_Forall {A} (P : A -> Prop) (l : list A) lo hi s :
  slice l lo hi = Some s -> Forall P l -> Forall P s.
Proof.
  intros (_ & _ & ->)%slice_Some H. apply Forall_take, Forall_drop, H.
Qed.

Lemma sliceTo_plain (l : gostring) hi s :
  sliceTo l hi = Some s -> plainText l -> plainText s.
Proof. apply slice_Forall. Qed.

Lemma sliceFrom_plain (l : gostring) lo s :
  sliceFrom l lo = Some s -> plainText l -> plainText s.
Proof. apply slice_Forall. Qed.

Lemma sliceTo_lines (ls : list gostring) hi s :
  sliceTo ls hi = Some s -> Forall plainText ls -> Forall plainText s.
Proof. apply slice_Forall. Qed.

Lemma sliceFrom_lines (ls : list gostring) lo s :
  sliceFrom ls lo = Some s -> Forall plainText ls -> Forall plainText s.
Proof. apply slice_Forall. Qed.

Lemma setIndex_lines (ls : list gostring) i v ls' :
  setIndex ls i v = Some ls' -> Forall plainText ls -> plainText v ->
  Forall plainText ls'.
Proof.
  unfold setIndex. destruct (_ && _); [|discriminate]. intros [= <-] H Hv.
  apply Forall_insert; assumption.
Qed.

Lemma lines_app (a b : list gostring) :
  Forall plainText a -> Forall plainText b -> Forall plainText (a ++ b).
Proof. apply Forall_app_2. Qed.

Lemma lines_one (l : gostring) : plainText l -> Forall plainText [l].
Proof. intros H. repeat constructor. exact H. Qed.

Create HintDb plain.
#[local] Hint Resolve plainText_app plainText_nil index_plain sliceTo_plain
  sliceFrom_plain sliceTo_lines sliceFrom_lines setIndex_lines lines_app lines_one
  : plain.

Lemma cleanupLoop_Forall (P : gostring -> Prop) fuel ls :
  Forall P ls -> Forall P (cleanupLoop fuel ls).
Proof.
  intros H. destruct (cleanupLoop_prefix fuel ls) as (k & -> & _).
  apply Forall_take, H.
Qed.

Lemma insertRunes_plain runes m m' :
  Forall (fun r => r < runeSelf) runes ->
  insertRunes runes m = Some m' ->
  Forall plainText (lines m) -> Forall plainText (lines m').
Proof.
  intros Hr H HP. unfold insertRunes in H. cbv zeta in H.
  pose proof (runesToString_plain runes Hr) as Hs.
  invert_step H; injection H as <-; simpl; eauto 40 with plain.
Qed.

Lemma deleteBeforeCursor_plain m m' :
  deleteBeforeCursor m = Some m' ->
  Forall plainText (lines m) -> Forall plainText (lines m').
Proof.
  intros H HP. unfold deleteBeforeCursor in H.
  invert_step H; injection H as <-; simpl; eauto 40 with plain.
Qed.

Lemma insertNewline_plain m m' :
  insertNewline m = Some m' ->
  Forall plainText (lines m) -> Forall plainText (lines m').
Proof.
  intros H HP. unfold insertNewline in H. cbv zeta in H.
  destruct (index (lines m) (cursorRow m)) as [line|] eqn:E1; simpl in H;
    [|discriminate].
  destruct (sliceTo line (cursorCol m)) as [l|] eqn:E2; simpl in H; [|discriminate].
  destruct (sliceFrom line (cursorCol m)) as [r|] eqn:E3; simpl in H; [|discriminate].
  destruct (sliceTo (lines m) (cursorRow m)) as [above|] eqn:E4; simpl in H;
    [|discriminate].
  assert (H3 : Forall plainText ((above ++ [l]) ++ [r])) by eauto 40 with plain.
  destruct (cursorRow m + 1 <? len (lines m)).
  - destruct (sliceFrom (lines m) (cursorRow m + 1)) as [below|] eqn:E5; simpl in H;
      [|discriminate].
    assert (H4 : Forall plainText (((above ++ [l]) ++ [r]) ++ below))
      by eauto 40 with plain.
    repeat match type of H with
           | (if ?c then _ else _) = Some _ => destruct c
           end; injection H as <-; simpl;
      try apply cleanupLoop_Forall; auto with plain.
  - simpl in H.
    repeat match type of H with
           | (if ?c then _ else _) = Some _ => destruct c
           end; injection H as <-; simpl;
      try apply cleanupLoop_Forall; auto with plain.
Qed.

Lemma plainText_of_runes (rs : list rune) :
  Forall (fun r => 0x20 <= r < runeSelf) rs -> plainText (runesToString rs).
Proof.
  intros H. rewrite <- (filter_printable rs).
  - apply runesToString_plain. eapply Forall_impl; [exact H|]. simpl. intros; lia.
  - eapply Forall_impl; [exact H|]. unfold runeSelf. simpl. intros; lia.
Qed.

Lemma applyAutocomplete_plain m m' :
  applyAutocomplete m = Some m' ->
  Forall plainText (lines m) ->
  Forall (fun s => plainText (Text s)) (suggestions m) ->
  Forall plainText (lines m').
Proof.
  intros H HP HS. unfold applyAutocomplete in H. cbv zeta in H.
  destruct (showPopup m && (0 <? len (suggestions m))); [|injection H as <-; exact HP].
  destruct (index (suggestions m) (selectedSuggestionIndex m)) as [s|] eqn:E1;
    simpl in H; [|discriminate].
  destruct (index (lines m) (cursorRow m)) as [line|] eqn:E2; simpl in H;
    [|discriminate].
  assert (Hs : plainText (Text s)).
  { apply index_Some in E1 as [_ E1].
    exact (proj1 (Forall_lookup _ _) HS _ _ E1). }
  assert (Hl : plainText line) by eauto with plain.
  assert (Hrunes : Forall (fun r => 0x20 <= r < runeSelf) (stringToRunes line)).
  { rewrite (plainText_runes line Hl). apply Forall_fmap.
    eapply Forall_impl; [exact Hl|]. intros b Hb. exact Hb. }
  destruct (scanLeft _ _ _) as [start|]; simpl in H; [|discriminate].
  destruct (sliceTo (stringToRunes line) _) as [pre|] eqn:E3; simpl in H;
    [|discriminate].
  assert (Hpre : plainText (runesToString pre)).
  { apply plainText_of_runes. eapply slice_Forall; [exact E3|exact Hrunes]. }
  destruct (cursorCol m <? len (stringToRunes line)).
  - destruct (sliceFrom (stringToRunes line) _) as [post|] eqn:E4; simpl in H;
      [|discriminate].
    assert (Hpost : plainText (runesToString post)).
    { apply plainText_of_runes. eapply slice_Forall; [exact E4|exact Hrunes]. }
    destruct (setIndex _ _ _) as [ls|] eqn:E5; simpl in H; [|discriminate].
    injection H as <-. simpl. eauto 40 with plain.
  - simpl in H.
    destruct (setIndex _ _ _) as [ls|] eqn:E5; simpl in H; [|discriminate].
    injection H as <-. simpl. eauto 40 with plain.
Qed.

Lemma Split_plain s :
  plainInput s -> Forall plainText (Split s newline).
Proof.
  induction 1 as [|b s Hb _ IH]; simpl; [repeat constructor|].
  destruct (bool_decide (b = newline)) eqn:Eb.
  - constructor; [constructor|exact IH].
  - apply bool_decide_eq_false in Eb.
    destruct Hb as [Hb|Hb]; [|contradiction].
    destruct (Split s newline) as [|p ps];
      [constructor; [constructor; [exact Hb|constructor]|constructor]|].
    apply Forall_cons in IH as [Hp Hps].
    constructor; [constructor; assumption|exact Hps].
Qed.

Lemma Join_plain ls :
  Forall plainText ls -> plainInput (Join ls [newline]).
Proof.
  induction 1 as [|l ls Hl _ IH]; [constructor|].
  assert (Hl' : plainInput l).
  { eapply Forall_impl; [exact Hl|]. auto. }
  destruct ls as [|l2 ls]; [exact Hl'|].
  change (Join (l :: l2 :: ls) [newline])
    with (l ++ [newline] ++ Join (l2 :: ls) [newline]).
  apply Forall_app_2; [exact Hl'|]. apply Forall_app_2; [|exact IH].
  constructor; [right; reflexivity|constructor].
Qed.

Lemma loadHistoryEntry_plain m m' :
  loadHistoryEntry m = Some m' ->
  Forall plainText (lines m) -> Forall plainInput (history m) ->
  Forall plainText (lines m').
Proof.
  intros H HP HH. unfold loadHistoryEntry in H.
  destruct ((0 <=? historyIndex m) && (historyIndex m <? len (history m)));
    [|injection H as <-; exact HP].
  destruct (index (history m) (historyIndex m)) as [entry|] eqn:E; simpl in H;
    [|discriminate].
  assert (Hs : Forall plainText (Split entry newline)).
  { apply Split_plain. apply index_Some in E as [_ E].
    exact (proj1 (Forall_lookup _ _) HH _ _ E). }
  destruct (len (Split entry newline) - 1 <? 0); simpl in H;
    invert_step H; injection H as <-; simpl; auto with plain.
Qed.

Lemma navigateHistoryUp_plain m m' :
  navigateHistoryUp m = Some m' ->
  Forall plainText (lines m) -> Forall plainInput (history m) ->
  Forall plainText (lines m').
Proof.
  unfold navigateHistoryUp. intros H HP HH.
  repeat match type of H with
         | (if ?c then _ else _) = Some _ => destruct c
         end;
    try (injection H as <-; exact HP);
    apply loadHistoryEntry_plain in H; auto.
Qed.

Lemma navigateHistoryDown_plain m m' :
  navigateHistoryDown m = Some m' ->
  Forall plainText (lines m) -> Forall plainInput (history m) ->
  Forall plainText (lines m').
Proof.
  unfold navigateHistoryDown. intros H HP HH.
  repeat match type of H with
         | (if ?c then _ else _) = Some _ => destruct c
         end;
    try (injection H as <-; simpl; auto with plain; fail);
    apply loadHistoryEntry_plain in H; auto.
Qed.

Lemma navigateAutocompleteUp_lines m : lines (navigateAutocompleteUp m) = lines m.
Proof.
  unfold navigateAutocompleteUp.
  repeat match goal with |- context [if ?c then _ else _] => destruct c end;
    reflexivity.
Qed.

Lemma navigateAutocompleteDown_lines m : lines (navigateAutocompleteDown m) = lines m.
Proof.
  unfold navigateAutocompleteDown.
  repeat match goal with |- context [if ?c then _ else _] => destruct c end;
    reflexivity.
Qed.

Lemma handleUpArrow_plain m m' :
  handleUpArrow m = Some m' ->
  Forall plainText (lines m) -> Forall plainInput (history m) ->
  Forall plainText (lines m').
Proof.
  unfold handleUpArrow. intros H HP HH.
  destruct (showPopup m).
  - injection H as <-. rewrite navigateAutocompleteUp_lines. exact HP.
  - destruct (cursorRow m =? 0).
    + eapply navigateHistoryUp_plain; eauto.
    + apply moveCursorUp_frame in H as (_ & _ & _ & ->). exact HP.
Qed.

Lemma handleDownArrow_plain m m' :
  handleDownArrow m = Some m' ->
  Forall plainText (lines m) -> Forall plainInput (history m) ->
  Forall plainText (lines m').
Proof.
  unfold handleDownArrow. intros H HP HH.
  destruct (showPopup m).
  - injection H as <-. rewrite navigateAutocompleteDown_lines. exact HP.
  - destruct (negb (historyIndex m =? -1)).
    + eapply navigateHistoryDown_plain; eauto.
    + apply moveCursorDown_frame in H as (_ & _ & _ & ->). exact HP.
Qed.

Lemma updateAutocomplete_plain m m' calls :
  plainConfig (config m) ->
  updateAutocomplete m = Some (m', calls) ->
  Forall (fun s => plainText (Text s)) (suggestions m) ->
  Forall (fun s => plainText (Text s)) (suggestions m').
Proof.
  intros HC H HS. unfold updateAutocomplete in H.
  destruct (currentWordFragment _ m) as [word|]; simpl in H; [|discriminate].
  destruct (mustClear _ word m) as [[|]|]; simpl in H; [| |discriminate].
  { injection H as <- _. constructor. }
  destruct (negb (bool_decide (word = lastSuggestedWord m))); simpl in H.
  - destruct (AutoCompleteFn (config m)) as [f|] eqn:Ef; simpl in H.
    + destruct (getTextBeforeCursor _) as [text|]; simpl in H; [|discriminate].
      injection H as <- _. simpl. apply (HC f text word Ef).
    + injection H as <- _. constructor.
  - destruct (len (suggestions m) =? 0); injection H as <- _; exact HS.
Qed.

Lemma handleEnter_plain m m' calls :
  handleEnter m = Some (m', calls) ->
  PlainOK m -> PlainOK m'.
Proof.
  intros H (HP & HH & HS).
  destruct (handleEnter_inv _ _ _ H) as (_ & [(Hs & _ & Hh)|(_ & _ & Hh & m1 & E1 & ->)]).
  - destruct Hs as (p & Hp & Hc & Hne).
    rewrite (handleEnter_submits m p Hp Hc Hne) in H. cbv zeta in H.
    assert (Hl : lines m' = [[]] /\ suggestions m' = []).
    { destruct (ExecuteFn (config m));
        destruct (negb (bool_decide (TrimSpace (getCurrentInput m) = [])));
        injection H as <- _; auto. }
    destruct Hl as [Hl Hsg]. split; [|split].
    + rewrite Hl. repeat constructor.
    + rewrite Hh. destruct (bool_decide _); [exact HH|].
      apply Forall_app_2; [exact HH|]. repeat constructor.
      unfold getCurrentInput, joinNonEmptyLines. apply Join_plain, Forall_take, HP.
    + rewrite Hsg. constructor.
  - split; [|split]; simpl.
    + eapply insertNewline_plain; eauto.
    + apply insertNewline_frame in E1 as ((_ & -> & _) & _). exact HH.
    + constructor.
Qed.

Lemma loadHistoryEntry_suggestions m m' :
  loadHistoryEntry m = Some m' ->
  suggestions m' = suggestions m \/ suggestions m' = [].
Proof.
  unfold loadHistoryEntry. intros H.
  destruct ((0 <=? historyIndex m) && (historyIndex m <? len (history m)));
    [|injection H as <-; auto].
  destruct (index (history m) (historyIndex m)) as [entry|]; simpl in H;
    [|discriminate].
  destruct (len (Split entry newline) - 1 <? 0); simpl in H;
    invert_step H; injection H as <-; auto.
Qed.

Lemma handleUpArrow_suggestions m m' :
  handleUpArrow m = Some m' ->
  suggestions m' = suggestions m \/ suggestions m' = [].
Proof.
  unfold handleUpArrow, navigateHistoryUp. intros H.
  destruct (showPopup m).
  { injection H as <-. left. unfold navigateAutocompleteUp.
    repeat match goal with |- context [if ?c then _ else _] => destruct c end;
      reflexivity. }
  destruct (cursorRow m =? 0).
  - repeat match type of H with
           | (if ?c then _ else _) = Some _ => destruct c
           end;
      try (injection H as <-; auto; fail);
      apply loadHistoryEntry_suggestions in H; exact H.
  - apply moveCursorUp_frame in H as (_ & (-> & _) & _). auto.
Qed.

Lemma handleDownArrow_suggestions m m' :
  handleDownArrow m = Some m' ->
  suggestions m' = suggestions m \/ suggestions m' = [].
Proof.
  unfold handleDownArrow, navigateHistoryDown. intros H.
  destruct (showPopup m).
  { injection H as <-. left. unfold navigateAutocompleteDown.
    repeat match goal with |- context [if ?c then _ else _] => destruct c end;
      reflexivity. }
  destruct (negb (historyIndex m =? -1)).
  - repeat match type of H with
           | (if ?c then _ else _) = Some _ => destruct c
           end;
      try (injection H as <-; auto; fail);
      apply loadHistoryEntry_suggestions in H; exact H.
  - apply moveCursorDown_frame in H as (_ & (-> & _) & _). auto.
Qed.

(** A message of printable ASCII keeps the buffer printable ASCII. *)
Lemma Update_plain msg m m' cmd calls :
  plainMsg msg -> plainConfig (config m) ->
  Update msg m = Some (m', cmd, calls) ->
  PlainOK m -> PlainOK m'.
Proof.
  intros Hm HC HU HP. destruct msg as [k|]; simpl in HU;
    [|injection HU as <- _ _; exact HP].
  simpl in Hm.
  pose proof (handleKeyPress_inv k m m' cmd calls HU) as HK. cbv zeta in HK.
  destruct HP as (HL & HH & HS).
  assert (Hedit : forall m0 m1,
            config m0 = config m -> history m0 = history m ->
            suggestions m0 = suggestions m ->
            sameRest m0 m1 -> sameSuggest m0 m1 ->
            Forall plainText (lines m1) ->
            updateAutocomplete m1 = Some (m', calls) -> PlainOK m').
  { intros m0 m1 E1 E2 E3 (F1 & F2 & _) (G1 & _) HL1 H1.
    destruct (updateAutocomplete_inv _ _ _ H1) as ((B1 & _) & (C1 & C2 & _) & _).
    split; [|split].
    - rewrite B1. exact HL1.
    - rewrite C2, F2, E2. exact HH.
    - apply (updateAutocomplete_plain m1 m' calls); [|exact H1|].
      + rewrite F1, E1. exact HC.
      + rewrite G1, E3. exact HS. }
  assert (Hsug : forall m1, suggestions m1 = suggestions m \/ suggestions m1 = [] ->
            Forall (fun s => plainText (Text s)) (suggestions m1)).
  { intros m1 [->| ->]; [exact HS|constructor]. }
  destruct (KType k) eqn:Ht.
  - destruct HK as (-> & _). repeat split; assumption.
  - destruct HK as (-> & _). repeat split; assumption.
  - destruct HK as (_ & HE). apply (handleEnter_plain _ _ _ HE). repeat split; assumption.
  - destruct HK as (_ & m1 & H0 & H1).
    destruct (deleteBeforeCursor_frame _ _ H0) as (F & G & _).
    apply (Hedit (clearLastOutputOnEdit KeyBackspace m) m1); try reflexivity;
      [exact F|exact G| |exact H1].
    apply (deleteBeforeCursor_plain _ _ H0). exact HL.
  - destruct HK as (_ & _ & HA).
    destruct (applyAutocomplete_frame _ _ HA) as ((_ & Fh & _) & _).
    split; [|split].
    + apply (applyAutocomplete_plain _ _ HA); assumption.
    + rewrite Fh. exact HH.
    + unfold applyAutocomplete in HA. cbv zeta in HA.
      destruct (showPopup m && (0 <? len (suggestions m)));
        [|injection HA as <-; exact HS].
      invert_step HA; injection HA as <-; constructor.
  - destruct HK as (_ & _ & HA).
    destruct (handleUpArrow_frame _ _ HA) as (_ & Fh & _).
    split; [|split].
    + apply (handleUpArrow_plain _ _ HA); assumption.
    + rewrite Fh. exact HH.
    + apply Hsug. apply (handleUpArrow_suggestions _ _ HA).
  - destruct HK as (_ & _ & HA).
    destruct (handleDownArrow_frame _ _ HA) as (_ & Fh & _).
    split; [|split].
    + apply (handleDownArrow_plain _ _ HA); assumption.
    + rewrite Fh. exact HH.
    + apply Hsug. apply (handleDownArrow_suggestions _ _ HA).
  - destruct HK as (_ & _ & m1 & H0 & ->).
    destruct (moveCursorLeft_frame _ _ H0) as ((_ & Fh & _) & _ & _ & Fl).
    split; [|split]; simpl.
    + rewrite Fl. exact HL.
    + rewrite Fh. exact HH.
    + constructor.
  - destruct HK as (_ & _ & m1 & H0 & ->).
    destruct (moveCursorRight_frame _ _ H0) as ((_ & Fh & _) & _ & _ & Fl).
    split; [|split]; simpl.
    + rewrite Fl. exact HL.
    + rewrite Fh. exact HH.
    + constructor.
  - destruct HK as (_ & m1 & H0 & H1).
    destruct (insertRunes_frame _ _ _ H0) as (F & G).
    apply (Hedit (clearLastOutputOnEdit KeySpace m) m1); try reflexivity;
      [exact F|exact G| |exact H1].
    apply (insertRunes_plain [0x20] (clearLastOutputOnEdit KeySpace m) m1);
      [|exact H0|exact HL].
    constructor; [reflexivity|constructor].
  - destruct HK as (_ & m1 & H0 & H1).
    destruct (insertRunes_frame _ _ _ H0) as (F & G).
    apply (Hedit (clearLastOutputOnEdit KeyRunes m) m1); try reflexivity;
      [exact F|exact G| |exact H1].
    apply (insertRunes_plain _ _ _ Hm H0). exact HL.
  - destruct HK as (-> & _). repeat split; assumption.
Qed.

(** A property kept by the messages of a class holds after every run of
    such messages. *)
Lemma run_invariant_on (Q : Msg -> Prop) (P : PromptModel -> Prop) :
  (forall msg m m' cmd calls,
      Q msg -> Inv m -> P m -> Update msg m = Some (m', cmd, calls) -> P m') ->
  forall msgs m, Forall Q msgs -> Inv m -> P m ->
    exists m' calls, run msgs m = Some (m', calls) /\ Inv m' /\ P m'.
Proof.
  intros Hstep msgs. induction msgs as [|msg msgs IH]; intros m HQ HI HP; simpl.
  - eexists _, _. split; [reflexivity|auto].
  - apply Forall_cons in HQ as [Hq HQ].
    destruct (Update_ok msg m HI) as (m1 & cmd & calls1 & E & HI1).
    rewrite E. simpl.
    destruct (IH m1 HQ HI1 (Hstep _ _ _ _ _ Hq HI HP E)) as (m2 & calls2 & -> & HI2 & HP2).
    simpl. eexists _, _. split; [reflexivity|auto].
Qed.

(** X21.  In a session of printable ASCII (typed runes below 0x80, a
    provider that suggests printable ASCII) every line of the buffer and
    every suggestion stays printable ASCII, no line holds a newline byte,
    and the cursor column is a codepoint index of its line. *)
Theorem X21_ascii_session_cursor_in_codepoints
    isLetter isDigit (cfg : PromptConfig) (msgs : list Msg) :
  plainConfig cfg ->
  Forall plainMsg msgs ->
  exists m calls line,
    run msgs (NewPromptModel isLetter isDigit cfg) = Some (m, calls)
    /\ PlainOK m
    /\ Forall (fun l => newline ∉ l) (lines m)
    /\ currentLine m = Some line
    /\ 0 <= cursorCol m <= codepointLength line.
Proof.
  intros HC HM.
  destruct (run_invariant_on plainMsg
              (fun m => PlainOK m /\ plainConfig (config m))) with
      (msgs := msgs) (m := NewPromptModel isLetter isDigit cfg)
    as (m & calls & E & HI & HP & _).
  - intros msg m m' cmd calls Hq _ [HP HC'] HU. split.
    + exact (Update_plain msg m m' cmd calls Hq HC' HU HP).
    + destruct (Update_history _ _ _ _ _ HU) as [-> _]. exact HC'.
  - exact HM.
  - apply NewPromptModel_Inv.
  - split.
    + split; [|split]; simpl; repeat constructor.
    + intros f text word Hf. exact (HC f text word Hf).
  - destruct (inv_cursor _ HI) as (line & Hl & Hc).
    exists m, calls, line. split; [exact E|]. split; [exact HP|].
    destruct HP as (HL & _).
    split; [|split; [exact Hl|]].
    + eapply Forall_impl; [exact HL|]. intros l Hp Hin.
      apply (proj1 (Forall_forall _ _) Hp) in Hin.
      destruct Hin as [Hin _]. vm_compute in Hin. apply Hin. reflexivity.
    + rewrite codepointLength_bytes; [exact Hc|].
      apply plainText_ascii. exact (index_plain _ _ _ Hl HL).
Qed.

Lemma keywordProvider_plain : plainConfig exampleConfig.
Proof.
  intros f text word [= <-]. unfold keywordProvider.
  apply Forall_fmap.
  assert (H : Forall plainText [str "SELECT"; str "FROM"; str "FORMAT"]).
  { repeat constructor; vm_compute; discriminate || reflexivity. }
  induction H as [|k ks Hk _ IH]; simpl; [constructor|].
  destruct (bool_decide _); [constructor; [exact Hk|exact IH]|exact IH].
Qed.

Lemma X21_witness :
  exists m calls line,
    run [typed (runesOf "FROM t"); key KeyLeft; key KeyBackspace] exampleModel
      = Some (m, calls)
    /\ PlainOK m
    /\ Forall (fun l => newline ∉ l) (lines m)
    /\ currentLine m = Some line
    /\ 0 <= cursorCol m <= codepointLength line.
Proof.
  apply (X21_ascii_session_cursor_in_codepoints (fun _ => false) (fun _ => false)
           exampleConfig [typed (runesOf "FROM t"); key KeyLeft; key KeyBackspace]).
  - exact keywordProvider_plain.
  - repeat constructor; vm_compute; reflexivity.
Defined.

(** X22.  Up then Down comes back to the row it left, but the column is not
    remembered: it stays snapped to the length of the line above when that
    line is shorter. *)
Theorem X22_up_down_keeps_snapped_column (m : PromptModel) (line prev : gostring) :
  currentLine m = Some line ->
  0 <= cursorCol m <= len line ->
  index (lines m) (cursorRow m - 1) = Some prev ->
  exists m1 m2,
    moveCursorUp m = Some m1
    /\ cursorRow m1 = cursorRow m - 1
    /\ cursorCol m1 = Z.min (cursorCol m) (len prev)
    /\ moveCursorDown m1 = Some m2
    /\ lines m2 = lines m
    /\ cursorRow m2 = cursorRow m
    /\ cursorCol m2 = Z.min (cursorCol m) (len prev).
Proof.
  intros Hl Hc Hp. pose proof (currentLine_range _ _ Hl) as Hr.
  pose proof (index_range _ _ _ Hp) as Hr'. unfold currentLine in Hl.
  unfold moveCursorUp. destruct (Z.ltb_spec 0 (cursorRow m)); [|lia].
  simpl. rewrite Hp. simpl.
  assert (Hdown : forall col, col <= len line ->
            moveCursorDown (with_cursorCol col (with_cursorRow (cursorRow m - 1) m))
            = Some (with_cursorRow (cursorRow m)
                      (with_cursorCol col (with_cursorRow (cursorRow m - 1) m)))).
  { intros col Hcol. unfold moveCursorDown. simpl.
    destruct (Z.ltb_spec (cursorRow m - 1) (len (lines m) - 1)); [|lia].
    replace (cursorRow m - 1 + 1) with (cursorRow m) by lia.
    rewrite Hl. simpl. destruct (Z.ltb_spec (len line) col); [lia|reflexivity]. }
  destruct (Z.ltb_spec (len prev) (cursorCol m)).
  - eexists _, _. split; [reflexivity|]. simpl.
    split; [reflexivity|]. split; [lia|].
    split; [apply Hdown; lia|]. simpl. repeat split; lia.
  - eexists _, _. split; [reflexivity|]. simpl.
    split; [reflexivity|]. split; [lia|]. split.
    + pose proof (Hdown (cursorCol m) ltac:(lia)) as H1. exact H1.
    + simpl. repeat split; lia.
Qed.

Lemma X22_witness :
  exists m1 m2,
    moveCursorUp (modelAt [str "a"; str "FROM t"] 1 6) = Some m1
    /\ cursorCol m1 = 1
    /\ moveCursorDown m1 = Some m2
    /\ cursorRow m2 = 1
    /\ cursorCol m2 = 1.
Proof.
  destruct (X22_up_down_keeps_snapped_column
              (modelAt [str "a"; str "FROM t"] 1 6) (str "FROM t") (str "a"))
    as (m1 & m2 & E1 & _ & C1 & E2 & _ & R2 & C2).
  - reflexivity.
  - vm_compute. split; discriminate.
  - reflexivity.
  - exists m1, m2. split; [exact E1|]. split; [exact C1|]. split; [exact E2|].
    split; [exact R2|exact C2].
Defined.

(** ** The default completeness test *)

Lemma HasSuffix_semicolon t :
  HasSuffix t (str ";") = true <-> exists x, t = x ++ str ";".
Proof.
  unfold HasSuffix. change (length (str ";")) with 1%nat. split.
  - intros [H1 H2]%andb_true_iff. apply bool_decide_eq_true in H2.
    exists (take (length t - 1) t). rewrite <- H2.
    symmetry. apply take_drop.
  - intros (x & ->). rewrite length_app. change (length (str ";")) with 1%nat.
    apply andb_true_iff. split.
    + apply Nat.leb_le. lia.
    + apply bool_decide_eq_true.
      replace (length x + 1 - 1)%nat with (length x) by lia.
      apply drop_app_length.
Qed.

Lemma trimSpaceLeft_ascii s :
  Forall (fun b => byteZ b < runeSelf) s ->
  exists pre rest,
    s = pre ++ rest
    /\ Forall (fun b => asciiSpace (byteZ b) = true) pre
    /\ trimSpaceLeft s = inl rest
    /\ (rest = [] \/ exists b rest', rest = b :: rest' /\ asciiSpace (byteZ b) = false).
Proof.
  induction 1 as [|c s Hc Hs IH]; simpl.
  - exists [], []. repeat split; auto.
  - destruct (Z.leb_spec runeSelf (byteZ c)); [lia|].
    destruct (asciiSpace (byteZ c)) eqn:Ec.
    + destruct IH as (pre & rest & -> & Hpre & E & Hrest).
      exists (c :: pre), rest. repeat split; auto.
    + exists [], (c :: s). repeat split; eauto.
Qed.

Lemma trimSpaceRight_ascii rs :
  Forall (fun b => byteZ b < runeSelf) rs ->
  exists post rest,
    rs = post ++ rest
    /\ Forall (fun b => asciiSpace (byteZ b) = true) post
    /\ trimSpaceRight rs = rev rest
    /\ (rest = [] \/ exists b rest', rest = b :: rest' /\ asciiSpace (byteZ b) = false).
Proof.
  induction 1 as [|c s Hc Hs IH].
  - exists [], []. repeat split; auto.
  - cbn [trimSpaceRight]. destruct (Z.leb_spec runeSelf (byteZ c)); [lia|].
    destruct (asciiSpace (byteZ c)) eqn:Ec.
    + destruct IH as (post & rest & -> & Hpost & E & Hrest).
      exists (c :: post), rest. repeat split; auto.
    + exists [], (c :: s). repeat split; eauto.
Qed.

(** On ASCII input [TrimSpace] removes ASCII spaces from both ends and
    stops at the first and last byte that is not one. *)
Lemma TrimSpace_ascii s :
  Forall (fun b => byteZ b < runeSelf) s ->
  exists pre post,
    s = pre ++ TrimSpace s ++ post
    /\ Forall (fun b => asciiSpace (byteZ b) = true) pre
    /\ Forall (fun b => asciiSpace (byteZ b) = true) post
    /\ (TrimSpace s = []
        \/ exists x c, TrimSpace s = x ++ [c] /\ asciiSpace (byteZ c) = false).
Proof.
  intros Ha. destruct (trimSpaceLeft_ascii s Ha) as (pre & rest & -> & Hpre & E & _).
  unfold TrimSpace. rewrite E.
  assert (Hr : Forall (fun b => byteZ b < runeSelf) (rev rest)).
  { apply Forall_rev. apply Forall_app in Ha as [_ Ha]. exact Ha. }
  destruct (trimSpaceRight_ascii (rev rest) Hr) as (post & rest2 & E2 & Hpost & -> & H2).
  exists pre, (rev post). split; [|split; [exact Hpre|split]].
  - f_equal. rewrite <- rev_app_distr, <- E2, rev_involutive. reflexivity.
  - apply Forall_rev. exact Hpost.
  - destruct H2 as [->|(b & rest' & -> & Hb)]; [left; reflexivity|right].
    exists (rev rest'), b. simpl. auto.
Qed.

Lemma last_non_space (sp : byte -> bool) p w c d (a s : gostring) :
  Forall (fun b => sp b = true) p -> Forall (fun b => sp b = true) w ->
  sp c = false -> sp d = false ->
  p ++ c :: a = w ++ d :: s -> c = d /\ a = s.
Proof.
  intros Hp. revert w. induction Hp as [|x p Hx _ IH]; intros w Hw Hc Hd E.
  - destruct Hw as [|y w Hy _]; simpl in E.
    + injection E as -> ->. auto.
    + injection E as -> _. congruence.
  - destruct Hw as [|y w Hy Hw]; simpl in E.
    + injection E as -> _. congruence.
    + injection E as _ E. apply (IH w Hw Hc Hd E).
Qed.

(** X23.  On ASCII input [DefaultIsComplete] accepts exactly the inputs whose
    last byte that is not an ASCII space is a semicolon. *)
Theorem X23_default_complete_on_ascii (input : gostring) :
  Forall (fun b => byteZ b < runeSelf) input ->
  (DefaultIsComplete input = true <->
   exists s ws,
     input = s ++ str ";" ++ ws
     /\ Forall (fun b => asciiSpace (byteZ b) = true) ws).
Proof.
  intros Ha. unfold DefaultIsComplete. cbv zeta. rewrite HasSuffix_semicolon.
  destruct (TrimSpace_ascii input Ha) as (pre & post & E & Hpre & Hpost & Ht).
  split.
  - intros (x & Hx). exists (pre ++ x), post. split; [|exact Hpost].
    rewrite E at 1. rewrite Hx, <- !app_assoc. reflexivity.
  - intros (s & ws & Es & Hws).
    destruct Ht as [Ht|(x & c & Ht & Hc)].
    + exfalso. rewrite Ht in E. simpl in E.
      assert (Hall : Forall (fun b => asciiSpace (byteZ b) = true) input).
      { rewrite E. apply Forall_app_2; assumption. }
      rewrite Es in Hall. apply Forall_app in Hall as [_ Hall].
      apply Forall_app in Hall as [Hall _]. apply Forall_cons in Hall as [Hall _].
      vm_compute in Hall. discriminate.
    + exists x. rewrite Ht. f_equal.
      assert (Erev : rev post ++ c :: rev (pre ++ x) = rev ws ++ x3b :: rev s).
      { assert (E' : input = pre ++ (x ++ [c]) ++ post) by (rewrite <- Ht; exact E).
        transitivity (rev input).
        - rewrite E', !rev_app_distr. simpl.
          rewrite <- !app_assoc. reflexivity.
        - rewrite Es, !rev_app_distr. simpl. rewrite <- !app_assoc. reflexivity. }
      apply (last_non_space (fun b => asciiSpace (byteZ b))) in Erev
        as [-> _]; [reflexivity| | |exact Hc|reflexivity].
      * apply Forall_rev. exact Hpost.
      * apply Forall_rev. exact Hws.
Qed.

Lemma X23_witness : DefaultIsComplete (str "SELECT 1; ") = true.
Proof.
  apply (proj2 (X23_default_complete_on_ascii (str "SELECT 1; ")
                  ltac:(repeat constructor))).
  exists (str "SELECT 1"), (str " "). split; [reflexivity|repeat constructor].
Defined.

(** ** Typing and the word fragment *)

(** On an ASCII line the fragment is the run of accepted bytes that ends at
    the cursor. *)
Lemma fragment_ascii f m line :
  currentLine m = Some line ->
  0 <= cursorCol m <= len line ->
  Forall (fun b => byteZ b < runeSelf) line ->
  currentWordFragment (Some f) m =
    Some (runesToString
            (trailingRun f (take (Z.to_nat (cursorCol m)) (map byteZ line)))).
Proof.
  intros Hl Hc Ha. pose proof (codepointLength_bytes _ Ha) as Hcp.
  destruct (Z.eq_dec (cursorCol m) 0) as [E0|E0].
  - rewrite (fragment_outside f m line Hl) by lia. rewrite E0. reflexivity.
  - rewrite (fragment_is_trailing_run f m line Hl) by lia.
    rewrite (stringToRunes_bytes _ Ha). reflexivity.
Qed.

(** X24.  On an ASCII line, typing one ASCII character that the word
    classifier accepts extends the word fragment by that character; typing
    one that it rejects leaves no fragment. *)
Theorem X24_typing_extends_fragment
    (f : IsWordCharFunc) (m : PromptModel) (line : gostring) (r : rune) :
  currentLine m = Some line ->
  0 <= cursorCol m <= len line ->
  Forall (fun b => byteZ b < runeSelf) line ->
  0x20 <= r < runeSelf ->
  exists m1 word,
    insertRunes [r] m = Some m1
    /\ currentWordFragment (Some f) m = Some word
    /\ currentWordFragment (Some f) m1
       = Some (if f r then word ++ encoderune r else []).
Proof.
  intros Hl Hc Ha Hr. pose proof (currentLine_range _ _ Hl) as Hrow.
  unfold runeSelf in Hr.
  assert (Henc : encoderune r = [zbyte r]).
  { unfold encoderune, uint32. rewrite Z.mod_small by lia.
    destruct (Z.leb_spec r rune1Max); [reflexivity|unfold rune1Max in *; lia]. }
  assert (E1 : insertRunes [r] m =
               Some (with_historyIndex (-1)
                       (with_cursorCol (cursorCol m + 1)
                          (with_lines
                             (<[Z.to_nat (cursorRow m) :=
                                  take (Z.to_nat (cursorCol m)) line ++ [zbyte r]
                                  ++ drop (Z.to_nat (cursorCol m)) line]> (lines m))
                             m)))).
  { unfold insertRunes. simpl List.filter.
    destruct (Z.leb_spec 0x20 r); [|lia]. cbv zeta.
    change (len [r] =? 0) with false. cbv iota.
    unfold currentLine in Hl. rewrite Hl. simpl.
    rewrite sliceTo_ok, sliceFrom_ok by lia. simpl.
    rewrite setIndex_ok by lia. simpl.
    unfold runesToString. simpl. rewrite Henc. reflexivity. }
  eexists _, _. split; [exact E1|].
  split; [apply (fragment_ascii f m line Hl Hc Ha)|].
  set (line1 := take (Z.to_nat (cursorCol m)) line ++ [zbyte r]
                ++ drop (Z.to_nat (cursorCol m)) line).
  assert (Ha1 : Forall (fun b => byteZ b < runeSelf) line1).
  { apply Forall_app_2; [apply Forall_take, Ha|].
    apply Forall_app_2; [|apply Forall_drop, Ha].
    repeat constructor. rewrite byteZ_zbyte by lia. unfold runeSelf. lia. }
  rewrite (fragment_ascii f _ line1).
  - simpl cursorCol.
    assert (Htake : take (Z.to_nat (cursorCol m + 1)) (map byteZ line1)
                    = take (Z.to_nat (cursorCol m)) (map byteZ line) ++ [r]).
    { unfold line1. rewrite !map_app. simpl map. rewrite byteZ_zbyte by lia.
      rewrite <- firstn_map.
      replace (Z.to_nat (cursorCol m + 1))
        with (length (take (Z.to_nat (cursorCol m)) (map byteZ line)) + 1)%nat
        by (rewrite length_take, length_map; unfold len in *; lia).
      rewrite take_app_add'  by reflexivity.
      f_equal. }
    rewrite Htake, trailingRun_snoc.
    destruct (f r); [|reflexivity].
    rewrite runesToString_app. unfold runesToString at 2. simpl.
    rewrite app_nil_r. reflexivity.
  - unfold currentLine. simpl. apply index_insert_same. exact Hrow.
  - simpl. unfold line1, len in *. rewrite !length_app, length_take, length_drop.
    simpl. lia.
  - exact Ha1.
Qed.

Lemma X24_witness :
  exists m1,
    insertRunes (runesOf "R") (modelAt [str "SELECT F"] 0 8) = Some m1
    /\ currentWordFragment (Some asciiWordChar) (modelAt [str "SELECT F"] 0 8)
       = Some (str "F")
    /\ currentWordFragment (Some asciiWordChar) m1 = Some (str "FR").
Proof.
  destruct (X24_typing_extends_fragment asciiWordChar
              (modelAt [str "SELECT F"] 0 8) (str "SELECT F") 0x52)
    as (m1 & word & E1 & Hw & Hw1).
  - reflexivity.
  - vm_compute. split; discriminate.
  - repeat constructor.
  - vm_compute. split; [discriminate|reflexivity].
  - exists m1. split; [exact E1|].
    assert (Ew : currentWordFragment (Some asciiWordChar) (modelAt [str "SELECT F"] 0 8)
                 = Some (str "F")) by (vm_compute; reflexivity).
    split; [exact Ew|]. refine (eq_trans Hw1 _).
    assert (Hword : word = str "F").
    { pose proof (eq_trans (eq_sym Hw) Ew) as Heq. injection Heq as Heq. exact Heq. }
    rewrite Hword. reflexivity.
Defined.

(** * Examples *)

(** The UTF-8 conversions on valid and invalid input. *)
Example encode_e_acute : runesToString [0xE9] = [xc3; xa9].
Proof. reflexivity. Qed.

Example decode_e_acute : stringToRunes [xc3; xa9] = [0xE9].
Proof. reflexivity. Qed.

Example decode_encode_mixed :
  stringToRunes (runesToString [0x20AC; 0x41; 0x1F600]) = [0x20AC; 0x41; 0x1F600].
Proof. vm_compute. reflexivity. Qed.

Example decode_invalid_bytes :
  stringToRunes [xc3; x41; xa9; xed; xa0; x80]
  = [runeError; 0x41; runeError; runeError; runeError; runeError].
Proof. vm_compute. reflexivity. Qed.

Example encode_invalid_runes :
  runesToString [-1; 0xD800; 0x110000]
  = [xef; xbf; xbd; xef; xbf; xbd; xef; xbf; xbd].
Proof. vm_compute. reflexivity. Qed.

(** [strings.TrimSpace] on ASCII and on Unicode white space. *)
Example trim_ascii : TrimSpace (str "  SELECT 1;  ") = str "SELECT 1;".
Proof. vm_compute. reflexivity. Qed.

Example trim_unicode :
  TrimSpace [xe2; x80; x83; x41; xe2; x80; x83; xe3; x80; x80; x0a] = [x41].
Proof. vm_compute. reflexivity. Qed.

Example trim_invalid_byte : TrimSpace [xa0; x20] = [xa0].
Proof. vm_compute. reflexivity. Qed.

Example split_join :
  Split [x61; x0a; x62; x0a] newline = [[x61]; [x62]; []]
  /\ Join [[x61]; [x62]; []] [newline] = [x61; x0a; x62; x0a].
Proof. split; reflexivity. Qed.

(** The scenarios of the specification on submission. *)
Example scenario_incomplete_input :
  exists m calls,
    run [typed (runesOf "SELECT 1"); key KeyEnter] exampleModel = Some (m, calls)
    /\ lines m = [str "SELECT 1"; []] /\ cursorRow m = 1 /\ cursorCol m = 0
    /\ history m = []
    /\ calls = [CallAutoComplete (str "SELECT 1") (str "1")].
Proof.
  evaluate (run [typed (runesOf "SELECT 1"); key KeyEnter] exampleModel) m E.
  exists m. eexists. split; [exact E|]. known.
Qed.

Example scenario_complete_input :
  exists m calls,
    run [typed (runesOf "SELECT 1;"); key KeyEnter] exampleModel = Some (m, calls)
    /\ lines m = [[]] /\ cursorRow m = 0 /\ cursorCol m = 0
    /\ history m = [str "SELECT 1;"]
    /\ calls = [CallExecute (str "SELECT 1;")]
    /\ lastOutput m = executingOutput (str "ok: SELECT 1;").
Proof.
  evaluate (run [typed (runesOf "SELECT 1;"); key KeyEnter] exampleModel) m E.
  exists m. eexists. split; [exact E|]. known.
Qed.

(** The scenario of the specification on history: two entries, Up twice,
    Down twice. *)
Example scenario_history :
  let two := [typed (runesOf "SELECT 1;"); key KeyEnter;
              typed (runesOf "SELECT 2;"); key KeyEnter] in
  (exists m calls, run (two ++ [key KeyUp]) exampleModel = Some (m, calls)
     /\ lines m = [str "SELECT 2;"] /\ cursorCol m = 9 /\ historyIndex m = 1)
  /\ (exists m calls, run (two ++ [key KeyUp; key KeyUp]) exampleModel = Some (m, calls)
     /\ lines m = [str "SELECT 1;"] /\ cursorCol m = 9 /\ historyIndex m = 0)
  /\ (exists m calls,
        run (two ++ [key KeyUp; key KeyUp; key KeyDown]) exampleModel = Some (m, calls)
     /\ lines m = [str "SELECT 2;"] /\ historyIndex m = 1)
  /\ (exists m calls,
        run (two ++ [key KeyUp; key KeyUp; key KeyDown; key KeyDown]) exampleModel
          = Some (m, calls)
     /\ lines m = [[]] /\ cursorCol m = 0 /\ historyIndex m = -1).
Proof.
  cbv zeta. split; [|split; [|split]].
  - evaluate (run ([typed (runesOf "SELECT 1;"); key KeyEnter;
                    typed (runesOf "SELECT 2;"); key KeyEnter]
                   ++ [key KeyUp]) exampleModel) m E.
    exists m. eexists. split; [exact E|]. known.
  - evaluate (run ([typed (runesOf "SELECT 1;"); key KeyEnter;
                    typed (runesOf "SELECT 2;"); key KeyEnter]
                   ++ [key KeyUp; key KeyUp]) exampleModel) m E.
    exists m. eexists. split; [exact E|]. known.
  - evaluate (run ([typed (runesOf "SELECT 1;"); key KeyEnter;
                    typed (runesOf "SELECT 2;"); key KeyEnter]
                   ++ [key KeyUp; key KeyUp; key KeyDown]) exampleModel) m E.
    exists m. eexists. split; [exact E|]. known.
  - evaluate (run ([typed (runesOf "SELECT 1;"); key KeyEnter;
                    typed (runesOf "SELECT 2;"); key KeyEnter]
                   ++ [key KeyUp; key KeyUp; key KeyDown; key KeyDown])
                exampleModel) m E.
    exists m. eexists. split; [exact E|]. known.
Qed.
